(** * The AFFiNE socket.io data source: document sync and awareness bridge

    A shallow embedding of [createAffineDataSource] and
    [setupAffineAwareness] (the workspace data source built on
    socket.io-client and y-protocols/awareness), together with the event
    loop they run in: the socket's listener table and outgoing calls, the
    awareness replica's observers, pending acknowledgements, promises and
    the asynchronous base64 encodings that are still in flight.

    Two further parts follow the data source: the user resolver of the
    GraphQL server (module [UserResolver]) and the amendment of the
    source map urls in the build script of the desktop application
    (module [GenerateAssets]). *)

From Stdlib Require Import Strings.String Strings.Ascii Strings.Byte.
From Stdlib Require Import List NArith Bool Lia.
From stdpp Require Import base option list gmap strings.

Local Open Scope string_scope.
Local Open Scope list_scope.

(** ** Values that cross the adapter *)

(** A [Uint8Array]. *)
Definition bytes := list Byte.byte.

(** A JavaScript error value, kept by its message. *)
Definition JsError := string.

(** The [origin] argument of an awareness event is [unknown] in the
    source: either a string or some other value. *)
Inductive Origin :=
| OriginStr (s : string)
| OriginOther.

(** [origin === 'server'] *)
Definition is_server (o : Origin) : bool :=
  match o with
  | OriginStr s => String.eqb s "server"
  | OriginOther => false
  end.

(** [AwarenessChanges]: the keys in the order y-protocols builds them. *)
Record AwarenessChanges := {
  added : list N;
  updated : list N;
  removed : list N
}.

(** [Object.values(changes).reduce((res, cur) => [...res, ...cur])] *)
Definition changedClients (changes : AwarenessChanges) : list N :=
  fold_left (fun res cur => res ++ cur)
            [updated changes; removed changes] (added changes).

(** Payloads of the outgoing messages. *)
Inductive Payload :=
| PRoom (room : string)
| PDocLoad (workspaceId guid : string) (stateVector : option string)
| PClientUpdate (workspaceId guid update : string)
| PAwareness (workspaceId guid : option string) (awarenessUpdate : string).

(** Messages the server sends, one constructor per event listened to. *)
Inductive Inbound :=
| ServerUpdate (workspaceId guid update : string)
| ServerAwarenessBroadcast (workspaceId awarenessUpdate : string)
| NewClientAwarenessInit.

Definition event_of (m : Inbound) : string :=
  match m with
  | ServerUpdate _ _ _ => "server-update"
  | ServerAwarenessBroadcast _ _ => "server-awareness-broadcast"
  | NewClientAwarenessInit => "new-client-awareness-init"
  end.

(** The acknowledgement of a doc-load request: [Error | string | null]. *)
Inductive Ack :=
| AckError (e : JsError)
| AckString (s : string)
| AckNull.

(** What a promise of the adapter can be fulfilled with. *)
Inductive Value :=
| VFalse
| VBytes (b : bytes)
| VUndefined.

Inductive PromiseState :=
| Pending
| Fulfilled (v : Value)
| Rejected (e : JsError).

(** How a synchronous call into a listener ends. *)
Inductive Completion :=
| Normal
| Throws (e : JsError).

(** [queryDocState]'s [options]. *)
Record Options := { stateVector : option bytes }.

(** A [Doc], as far as the data source reads it. *)
Record Doc := { guid : string }.

(** Every call the code makes on an object it does not own, in order. *)
Inductive Effect :=
| EConnect
| EDisconnect
| EEmit (event : string) (payload : Payload) (ack : option nat)
| EOn (event : string) (listener : nat)
| EOff (event : string) (listener : nat)
| EAwarenessOn (listener : nat)
| EAwarenessOff (listener : nat)
| EApplyAwareness (update : bytes) (origin : Origin)
| ECallback (guid : string) (update : bytes)
| EWarn (msg : string)
| EError (e : JsError)
| EUnhandledRejection (e : JsError).

(** Which field carries the room in an awareness-update message. *)
Inductive ScopeField := ByWorkspaceId | ByGuid.

Definition awareness_payload (f : ScopeField) (room update : string)
    : Payload :=
  match f with
  | ByWorkspaceId => PAwareness (Some room) None update
  | ByGuid => PAwareness None (Some room) update
  end.

(** An asynchronous [uint8ArrayToBase64] still running, with what waits
    for it. *)
Inductive Job :=
| AwarenessEmitJob (field : ScopeField) (room : string) (update : bytes)
| ClientUpdateJob (promise : nat) (room guid : string) (update : bytes)
| DocLoadJob (promise : nat) (room guid : string) (stateVector : bytes).

Section DataSource.

(** The caller's state (the document replicas the callback writes to)
    and the state of the awareness replica. *)
Context {U AwState : Type}.

(** [./sync-socket-io/utils]: the asynchronous encoder (its promise
    resolves or rejects) and the synchronous decoder (it returns or
    throws). *)
Variable uint8ArrayToBase64 : bytes -> JsError + string.
Variable base64ToUint8Array : string -> JsError + bytes.

(** [y-protocols/awareness], both synchronous.
    [encodeAwarenessUpdate(awareness, clients)] returns the update or
    throws. [applyAwarenessUpdate] returns, with the state of the
    replica and the change set it announces to the observers, if any,
    or throws, on bytes that are not an awareness update, with the
    state the replica is left in and nothing announced. *)
Variable encodeAwarenessUpdate : AwState -> list N -> JsError + bytes.
Variable applyAwarenessUpdate :
  AwState -> bytes ->
  (JsError * AwState) + (AwState * option AwarenessChanges).

Definition Callback := string -> bytes -> U -> U.

(** The closures registered on the socket, with what they capture. *)
Inductive SockCode :=
| CodeOnUpdate (rootDoc : Doc) (callback : Callback)
| CodeAwarenessBroadcast (rootDoc : Doc)
| CodeNewClientAwarenessInit (rootDoc : Doc).

(** A registration: closures are told apart by identity. *)
Record SockListener := {
  sl_event : string;
  sl_id : nat;
  sl_code : SockCode
}.

(** An [awarenessUpdate] closure observing the replica's 'update'. *)
Record AwListener := {
  al_id : nat;
  al_rootDoc : Doc
}.

(** The socket ([connected]: [connect] has been called and
    [disconnect] has not been called since, whether or not the server
    has answered yet; its [listeners] in the order of their
    registration, and the acknowledgement callbacks it holds, each with
    the promise it settles), the awareness replica ([clientID], [states]
    and the [observers] of its 'update' event), the caller's state, the
    promises handed out, the encodings in flight, the next identity and
    the calls made so far. *)
Record World := {
  connected : bool;
  listeners : list SockListener;
  acks : list (nat * nat);
  clientID : N;
  states : AwState;
  observers : list AwListener;
  env : U;
  promises : gmap nat PromiseState;
  jobs : list Job;
  fresh : nat;
  log : list Effect
}.

Definition set_connected (b : bool) (w : World) : World :=
  {| connected := b; listeners := listeners w; acks := acks w;
     clientID := clientID w; states := states w; observers := observers w;
     env := env w; promises := promises w; jobs := jobs w;
     fresh := fresh w; log := log w |}.

Definition set_listeners (l : list SockListener) (w : World) : World :=
  {| connected := connected w; listeners := l; acks := acks w;
     clientID := clientID w; states := states w; observers := observers w;
     env := env w; promises := promises w; jobs := jobs w;
     fresh := fresh w; log := log w |}.

Definition set_acks (l : list (nat * nat)) (w : World) : World :=
  {| connected := connected w; listeners := listeners w; acks := l;
     clientID := clientID w; states := states w; observers := observers w;
     env := env w; promises := promises w; jobs := jobs w;
     fresh := fresh w; log := log w |}.

Definition set_states (s : AwState) (w : World) : World :=
  {| connected := connected w; listeners := listeners w; acks := acks w;
     clientID := clientID w; states := s; observers := observers w;
     env := env w; promises := promises w; jobs := jobs w;
     fresh := fresh w; log := log w |}.

Definition set_observers (l : list AwListener) (w : World) : World :=
  {| connected := connected w; listeners := listeners w; acks := acks w;
     clientID := clientID w; states := states w; observers := l;
     env := env w; promises := promises w; jobs := jobs w;
     fresh := fresh w; log := log w |}.

Definition set_env (u : U) (w : World) : World :=
  {| connected := connected w; listeners := listeners w; acks := acks w;
     clientID := clientID w; states := states w; observers := observers w;
     env := u; promises := promises w; jobs := jobs w;
     fresh := fresh w; log := log w |}.

Definition set_promises (m : gmap nat PromiseState) (w : World) : World :=
  {| connected := connected w; listeners := listeners w; acks := acks w;
     clientID := clientID w; states := states w; observers := observers w;
     env := env w; promises := m; jobs := jobs w;
     fresh := fresh w; log := log w |}.

Definition set_jobs (l : list Job) (w : World) : World :=
  {| connected := connected w; listeners := listeners w; acks := acks w;
     clientID := clientID w; states := states w; observers := observers w;
     env := env w; promises := promises w; jobs := l;
     fresh := fresh w; log := log w |}.

Definition set_fresh (n : nat) (w : World) : World :=
  {| connected := connected w; listeners := listeners w; acks := acks w;
     clientID := clientID w; states := states w; observers := observers w;
     env := env w; promises := promises w; jobs := jobs w;
     fresh := n; log := log w |}.

Definition set_log (l : list Effect) (w : World) : World :=
  {| connected := connected w; listeners := listeners w; acks := acks w;
     clientID := clientID w; states := states w; observers := observers w;
     env := env w; promises := promises w; jobs := jobs w;
     fresh := fresh w; log := l |}.

(** ** Statements in sequence *)

Definition M (A : Type) : Type := World -> A * World.

Definition ret {A} (a : A) : M A := fun w => (a, w).

Definition bind {A B} (c : M A) (k : A -> M B) : M B :=
  fun w => let (a, w') := c w in k a w'.

Declare Scope sync_scope.
Delimit Scope sync_scope with sync.
Notation "x <- c ;; k" := (bind c (fun x => k))
  (at level 100, c at next level, k at level 200, right associativity)
  : sync_scope.
Notation "c ;; k" := (bind c (fun _ => k))
  (at level 100, k at level 200, right associativity) : sync_scope.
Local Open Scope sync_scope.

Definition trace (e : Effect) : M unit :=
  fun w => (tt, set_log (log w ++ [e]) w).

(** A new closure, promise or acknowledgement gets the next identity. *)
Definition alloc : M nat :=
  fun w => (fresh w, set_fresh (S (fresh w)) w).

(** ** socket.io-client's [Socket] *)

(** [connect()] returns at once and the handshake with the server
    follows later: what the call records is that the socket has been
    asked to connect, as [socket.active] does, not that the server has
    answered. [disconnect()] takes the request back. *)
Definition socket_connect : M unit :=
  fun w => trace EConnect (set_connected true w).

Definition socket_disconnect : M unit :=
  fun w => trace EDisconnect (set_connected false w).

Definition socket_emit (event : string) (payload : Payload) : M unit :=
  trace (EEmit event payload None).

(** [emit] with an acknowledgement callback, here the one of
    [queryDocState] that settles [promise]. *)
Definition socket_emit_ack (event : string) (payload : Payload)
    (promise : nat) : M nat :=
  a <- alloc ;;
  (fun w => (tt, set_acks (acks w ++ [(a, promise)]) w)) ;;
  trace (EEmit event payload (Some a)) ;;
  ret a.

Definition socket_on (event : string) (id : nat) (code : SockCode) : M unit :=
  fun w =>
    trace (EOn event id)
      (set_listeners
         (listeners w ++
          [{| sl_event := event; sl_id := id; sl_code := code |}]) w).

(** [off] takes out the first registration of that closure for the
    event, if there is one. *)
Fixpoint remove_listener (event : string) (id : nat)
    (l : list SockListener) : list SockListener :=
  match l with
  | [] => []
  | x :: rest =>
      if String.eqb (sl_event x) event && Nat.eqb (sl_id x) id
      then rest
      else x :: remove_listener event id rest
  end.

Definition socket_off (event : string) (id : nat) : M unit :=
  fun w =>
    trace (EOff event id)
      (set_listeners (remove_listener event id (listeners w)) w).

(** ** The awareness replica's observers of 'update' (a set) *)

Definition observes (id : nat) (l : list AwListener) : bool :=
  existsb (fun x => Nat.eqb (al_id x) id) l.

Definition awareness_on (id : nat) (rootDoc : Doc) : M unit :=
  fun w =>
    trace (EAwarenessOn id)
      (set_observers
         (if observes id (observers w) then observers w
          else observers w ++ [{| al_id := id; al_rootDoc := rootDoc |}]) w).

Definition awareness_off (id : nat) : M unit :=
  fun w =>
    trace (EAwarenessOff id)
      (set_observers
         (filter (fun x => al_id x <> id) (observers w)) w).

(** ** Promises and pending encodings *)

Definition new_promise : M nat :=
  p <- alloc ;;
  (fun w => (tt, set_promises (<[p := Pending]> (promises w)) w)) ;;
  ret p.

(** Settling a promise that is no longer pending does nothing. *)
Definition settle (p : nat) (s : PromiseState) : M unit :=
  fun w =>
    match promises w !! p with
    | Some Pending => (tt, set_promises (<[p := s]> (promises w)) w)
    | _ => (tt, w)
    end.

Definition resolve (p : nat) (v : Value) : M unit := settle p (Fulfilled v).
Definition reject (p : nat) (e : JsError) : M unit := settle p (Rejected e).

Definition enqueue (j : Job) : M unit :=
  fun w => (tt, set_jobs (jobs w ++ [j]) w).

Definition gets {A} (f : World -> A) : M A := fun w => (f w, w).

Definition modify (f : World -> World) : M unit := fun w => (tt, f w).

(** ** The awareness bridge: [setupAffineAwareness] *)

(** [awarenessUpdate], the observer of the replica's 'update' event.
    The diff is encoded when the event fires, outside the promise
    chain: an exception of the engine leaves the handler. The base64
    encoding and the emit that follows it happen later. *)
Definition awarenessUpdate (rootDoc : Doc) (changes : AwarenessChanges)
    (origin : Origin) : M Completion :=
  if is_server origin then ret Normal
  else
    st <- gets states ;;
    match encodeAwarenessUpdate st (changedClients changes) with
    | inr update =>
        enqueue (AwarenessEmitJob ByWorkspaceId (guid rootDoc) update) ;;
        ret Normal
    | inl e => ret (Throws e)
    end.

(** The replica calls its observers one after the other; an exception
    of one of them ends the round. *)
Fixpoint notify (l : list AwListener) (changes : AwarenessChanges)
    (origin : Origin) : M Completion :=
  match l with
  | [] => ret Normal
  | x :: rest =>
      c <- awarenessUpdate (al_rootDoc x) changes origin ;;
      match c with
      | Normal => notify rest changes origin
      | Throws e => ret (Throws e)
      end
  end.

Definition awareness_emit_update (changes : AwarenessChanges)
    (origin : Origin) : M Completion :=
  fun w => notify (observers w) changes origin w.

(** The call [applyAwarenessUpdate(awareness, update, origin)]. *)
Definition apply_awareness_update (update : bytes) (origin : Origin)
    : M Completion :=
  st <- gets states ;;
  trace (EApplyAwareness update origin) ;;
  match applyAwarenessUpdate st update with
  | inr (st', announced) =>
      modify (set_states st') ;;
      match announced with
      | Some changes => awareness_emit_update changes origin
      | None => ret Normal
      end
  | inl (e, st') => modify (set_states st') ;; ret (Throws e)
  end.

Definition awarenessBroadcast (rootDoc : Doc)
    (workspaceId awarenessUpdate : string) : M Completion :=
  if negb (String.eqb workspaceId (guid rootDoc)) then ret Normal
  else
    match base64ToUint8Array awarenessUpdate with
    | inl e => ret (Throws e)
    | inr update => apply_awareness_update update (OriginStr "server")
    end.

Definition newClientAwarenessInitHandler (rootDoc : Doc) : M Completion :=
  st <- gets states ;;
  self <- gets clientID ;;
  match encodeAwarenessUpdate st [self] with
  | inr awarenessUpdate =>
      enqueue (AwarenessEmitJob ByGuid (guid rootDoc) awarenessUpdate) ;;
      ret Normal
  | inl e => ret (Throws e)
  end.

(** Returns the teardown closure. *)
Definition setupAffineAwareness (rootDoc : Doc) : M (M unit) :=
  awarenessBroadcast <- alloc ;;
  awarenessUpdate <- alloc ;;
  newClientAwarenessInitHandler <- alloc ;;
  socket_on "server-awareness-broadcast" awarenessBroadcast
    (CodeAwarenessBroadcast rootDoc) ;;
  socket_on "new-client-awareness-init" newClientAwarenessInitHandler
    (CodeNewClientAwarenessInit rootDoc) ;;
  awareness_on awarenessUpdate rootDoc ;;
  socket_emit "awareness-init" (PRoom (guid rootDoc)) ;;
  ret (awareness_off awarenessUpdate ;;
       socket_off "server-awareness-broadcast" awarenessBroadcast ;;
       socket_off "new-client-awareness-init" newClientAwarenessInitHandler).

(** ** The document adapter: [createAffineDataSource] *)

Definition invoke (callback : Callback) (g : string) (update : bytes)
    : M unit :=
  trace (ECallback g update) ;;
  modify (fun w => set_env (callback g update (env w)) w).

(** [onUpdate] is an async function: an exception in its body rejects
    the promise it returns, which nobody holds. *)
Definition onUpdate (rootDoc : Doc) (callback : Callback)
    (workspaceId g update : string) : M Completion :=
  if String.eqb workspaceId (guid rootDoc) then
    match base64ToUint8Array update with
    | inr decoded => invoke callback g decoded ;; ret Normal
    | inl e => trace (EUnhandledRejection e) ;; ret Normal
    end
  else ret Normal.

(** The acknowledgement callback of [queryDocState]; an exception of
    the decoder leaves the promise pending. *)
Definition ack_callback (promise : nat) (update : Ack) : M Completion :=
  match update with
  | AckError e => reject promise e ;; ret Normal
  | AckString "" => resolve promise VFalse ;; ret Normal
  | AckString s =>
      match base64ToUint8Array s with
      | inr decoded => resolve promise (VBytes decoded) ;; ret Normal
      | inl e => ret (Throws e)
      end
  | AckNull => resolve promise VFalse ;; ret Normal
  end.

(** Without a state vector nothing is awaited and the request leaves
    within the call; with one, it leaves when the encoding is done. *)
Definition queryDocState (rootDoc : Doc) (g : string)
    (options : option Options) : M nat :=
  promise <- new_promise ;;
  match options ≫= stateVector with
  | Some sv => enqueue (DocLoadJob promise (guid rootDoc) g sv)
  | None =>
      socket_emit_ack "doc-load" (PDocLoad (guid rootDoc) g None) promise ;;
      ret tt
  end ;;
  ret promise.

Definition sendDocUpdate (rootDoc : Doc) (g : string) (update : bytes)
    : M nat :=
  promise <- new_promise ;;
  enqueue (ClientUpdateJob promise (guid rootDoc) g update) ;;
  ret promise.

(** Returns the teardown closure. *)
Definition onDocUpdate (rootDoc : Doc) (callback : Callback) : M (M unit) :=
  socket_connect ;;
  socket_emit "client-handshake" (PRoom (guid rootDoc)) ;;
  onUpdate <- alloc ;;
  socket_on "server-update" onUpdate (CodeOnUpdate rootDoc callback) ;;
  destroyAwareness <- setupAffineAwareness rootDoc ;;
  ret (socket_emit "client-leave" (PRoom (guid rootDoc)) ;;
       socket_off "server-update" onUpdate ;;
       destroyAwareness ;;
       socket_disconnect).

(** The object returned; its [socket] accessor hands out the socket
    of the world. *)
Record DataSource := {
  ds_queryDocState : string -> option Options -> M nat;
  ds_sendDocUpdate : string -> bytes -> M nat;
  ds_onDocUpdate : Callback -> M (M unit)
}.

Definition createAffineDataSource (id : string) (rootDoc : Doc)
    : M DataSource :=
  (if negb (String.eqb id (guid rootDoc))
   then trace (EWarn "important!! please use doc.guid as roomName")
   else ret tt) ;;
  ret {| ds_queryDocState := queryDocState rootDoc;
         ds_sendDocUpdate := sendDocUpdate rootDoc;
         ds_onDocUpdate := onDocUpdate rootDoc |}.

(** ** The event loop around the data source *)

(** A handler is called with the message of the event it listens to;
    [newClientAwarenessInitHandler] takes no argument. *)
Definition run_listener (c : SockCode) (m : Inbound) : M Completion :=
  match c, m with
  | CodeOnUpdate rootDoc callback, ServerUpdate ws g u =>
      onUpdate rootDoc callback ws g u
  | CodeAwarenessBroadcast rootDoc, ServerAwarenessBroadcast ws au =>
      awarenessBroadcast rootDoc ws au
  | CodeNewClientAwarenessInit rootDoc, _ =>
      newClientAwarenessInitHandler rootDoc
  | _, _ => ret Normal
  end.

(** The socket calls the listeners of the event, as they were when the
    message came in, in the order of their registration. *)
Fixpoint dispatch (l : list SockListener) (m : Inbound) : M Completion :=
  match l with
  | [] => ret Normal
  | x :: rest =>
      if String.eqb (sl_event x) (event_of m) then
        c <- run_listener (sl_code x) m ;;
        match c with
        | Normal => dispatch rest m
        | Throws e => ret (Throws e)
        end
      else dispatch rest m
  end.

Definition receive (m : Inbound) : M Completion :=
  fun w => dispatch (listeners w) m w.

Definition find_ack (a : nat) (l : list (nat * nat)) : option nat :=
  snd <$> find (fun x => Nat.eqb (fst x) a) l.

(** The server acknowledges request [a]; the socket forgets the
    callback and calls it. *)
Definition receive_ack (a : nat) (update : Ack) : M Completion :=
  fun w =>
    match find_ack a (acks w) with
    | Some promise =>
        ack_callback promise update
          (set_acks (filter (fun x => fst x <> a) (acks w)) w)
    | None => (Normal, w)
    end.

(** What runs when the base64 encoding of a job has settled. *)
Definition complete (j : Job) : M unit :=
  match j with
  | AwarenessEmitJob field room update =>
      match uint8ArrayToBase64 update with
      | inr encoded =>
          socket_emit "awareness-update" (awareness_payload field room encoded)
      | inl err => trace (EError err)
      end
  | ClientUpdateJob promise room g update =>
      match uint8ArrayToBase64 update with
      | inr encoded =>
          socket_emit "client-update" (PClientUpdate room g encoded) ;;
          resolve promise VUndefined
      | inl err => reject promise err
      end
  | DocLoadJob promise room g sv =>
      match uint8ArrayToBase64 sv with
      | inr encoded =>
          socket_emit_ack "doc-load" (PDocLoad room g (Some encoded)) promise ;;
          ret tt
      | inl err => reject promise err
      end
  end.

(** The [i]-th encoding in flight settles. *)
Definition finish (i : nat) : M unit :=
  fun w =>
    match jobs w !! i with
    | Some j => complete j (set_jobs (delete i (jobs w)) w)
    | None => (tt, w)
    end.

(** The application changes the awareness replica, which announces
    the change. *)
Definition awareness_change (st : AwState) (changes : AwarenessChanges)
    (origin : Origin) : M Completion :=
  modify (set_states st) ;;
  awareness_emit_update changes origin.

(** What the application and the server can do to a data source. *)
Inductive Op :=
| CallQueryDocState (g : string) (options : option Options)
| CallSendDocUpdate (g : string) (update : bytes)
| CallOnDocUpdate (callback : Callback)
| CallTeardown (k : nat)
| Receive (m : Inbound)
| ReceiveAck (a : nat) (update : Ack)
| Finish (i : nat)
| AwarenessChange (st : AwState) (changes : AwarenessChanges)
    (origin : Origin).

(** One event, with the teardown closures the application holds:
    [CallTeardown k] runs the [k]-th of them. *)
Definition step (ds : DataSource) (teardowns : list (M unit)) (op : Op)
    : M (list (M unit)) :=
  match op with
  | CallQueryDocState g options =>
      ds_queryDocState ds g options ;; ret teardowns
  | CallSendDocUpdate g update =>
      ds_sendDocUpdate ds g update ;; ret teardowns
  | CallOnDocUpdate callback =>
      teardown <- ds_onDocUpdate ds callback ;;
      ret (teardowns ++ [teardown])
  | CallTeardown k =>
      match teardowns !! k with
      | Some teardown => teardown ;; ret teardowns
      | None => ret teardowns
      end
  | Receive m => receive m ;; ret teardowns
  | ReceiveAck a update => receive_ack a update ;; ret teardowns
  | Finish i => finish i ;; ret teardowns
  | AwarenessChange st changes origin =>
      awareness_change st changes origin ;; ret teardowns
  end.

Fixpoint run (ds : DataSource) (teardowns : list (M unit)) (ops : list Op)
    : M unit :=
  match ops with
  | [] => ret tt
  | op :: rest =>
      teardowns' <- step ds teardowns op ;;
      run ds teardowns' rest
  end.

(** A data source is created, then the events happen. *)
Definition session (id : string) (rootDoc : Doc) (ops : list Op) : M unit :=
  ds <- createAffineDataSource id rootDoc ;;
  run ds [] ops.

(** ** What the properties are stated with *)

(** No registration and no pending acknowledgement carries an identity
    that [alloc] has yet to hand out. *)
Definition wf (w : World) : Prop :=
  Forall (fun x => sl_id x < fresh w) (listeners w) /\
  Forall (fun x => al_id x < fresh w) (observers w) /\
  Forall (fun x => fst x < fresh w) (acks w).

Definition is_emit (event : string) (e : Effect) : bool :=
  match e with
  | EEmit ev _ _ => String.eqb ev event
  | _ => false
  end.

(** How many times [event] was emitted. *)
Definition count_emits (event : string) (l : list Effect) : nat :=
  length (List.filter (is_emit event) l).

(** What a call registers or releases, on the socket or on the replica. *)
Inductive Registration :=
| OnSocket (event : string) (listener : nat)
| OnAwareness (listener : nat).

Definition registered (e : Effect) : option Registration :=
  match e with
  | EOn event id => Some (OnSocket event id)
  | EAwarenessOn id => Some (OnAwareness id)
  | _ => None
  end.

Definition released (e : Effect) : option Registration :=
  match e with
  | EOff event id => Some (OnSocket event id)
  | EAwarenessOff id => Some (OnAwareness id)
  | _ => None
  end.

(** The registrations (releases) among the calls made from [before]
    to [after]. *)
Definition registrations (before after : World) : list Registration :=
  omap registered (drop (length (log before)) (log after)).

Definition releases (before after : World) : list Registration :=
  omap released (drop (length (log before)) (log after)).

(** The world in which a doc-load request has left: the promise
    pending, the acknowledgement callback kept by the socket. *)
Definition requested (rootDoc : Doc) (g : string) (sv : option string)
    (w : World) : World :=
  set_log
    (log w ++
     [EEmit "doc-load" (PDocLoad (guid rootDoc) g sv) (Some (S (fresh w)))])
    (set_acks (acks w ++ [(S (fresh w), fresh w)])
       (set_promises (<[fresh w := Pending]> (promises w))
          (set_fresh (S (S (fresh w))) w))).

(** A computation is blind to the log when it only appends to it: run
    on an empty log it returns the same value and the same world, and
    what it appended. *)
Definition relog {A} (l : list Effect) (r : A * World) : A * World :=
  (fst r, set_log (l ++ log (snd r)) (snd r)).

Definition log_blind {A} (c : M A) : Prop :=
  forall w, c w = relog (log w) (c (set_log [] w)).

(** The object [createAffineDataSource] returns, and what it logs. *)
Definition data_source (rootDoc : Doc) : DataSource :=
  {| ds_queryDocState := queryDocState rootDoc;
     ds_sendDocUpdate := sendDocUpdate rootDoc;
     ds_onDocUpdate := onDocUpdate rootDoc |}.

Definition warning (id : string) (rootDoc : Doc) : list Effect :=
  if String.eqb id (guid rootDoc) then []
  else [EWarn "important!! please use doc.guid as roomName"].

(** The room an outgoing message is for. *)
Definition room_of (p : Payload) : option string :=
  match p with
  | PRoom room => Some room
  | PDocLoad workspaceId _ _ => Some workspaceId
  | PClientUpdate workspaceId _ _ => Some workspaceId
  | PAwareness (Some workspaceId) _ _ => Some workspaceId
  | PAwareness None g _ => g
  end.

Definition for_room (room : string) (e : Effect) : Prop :=
  match e with
  | EEmit _ p _ => room_of p = Some room
  | _ => True
  end.

(** The document whose guid a handler compares inbound messages with
    and sends its own under. *)
Definition code_doc (c : SockCode) : Doc :=
  match c with
  | CodeOnUpdate rootDoc _ => rootDoc
  | CodeAwarenessBroadcast rootDoc => rootDoc
  | CodeNewClientAwarenessInit rootDoc => rootDoc
  end.

Definition job_room (j : Job) : string :=
  match j with
  | AwarenessEmitJob _ room _ => room
  | ClientUpdateJob _ room _ _ => room
  | DocLoadJob _ room _ _ => room
  end.

(** The event each kind of handler is registered for. *)
Definition code_event (c : SockCode) : string :=
  match c with
  | CodeOnUpdate _ _ => "server-update"
  | CodeAwarenessBroadcast _ => "server-awareness-broadcast"
  | CodeNewClientAwarenessInit _ => "new-client-awareness-init"
  end.

(** A handler of [room], registered for its own event. *)
Definition of_room (room : string) (x : SockListener) : Prop :=
  guid (code_doc (sl_code x)) = room /\ sl_event x = code_event (sl_code x).

(** Every handler on the socket and on the replica, and every encoding
    in flight, belongs to [room]. *)
Definition in_room (room : string) (w : World) : Prop :=
  Forall (of_room room) (listeners w)
  /\ Forall (fun x => guid (al_rootDoc x) = room) (observers w)
  /\ Forall (fun j => job_room j = room) (jobs w).

(** The callbacks registered through [onDocUpdate], in order. *)
Definition callback_of (x : SockListener) : option Callback :=
  match sl_code x with
  | CodeOnUpdate _ callback => Some callback
  | _ => None
  end.

Definition callbacks (w : World) : list Callback :=
  omap callback_of (listeners w).

(** A computation keeps to the room: it preserves [in_room] and only
    appends messages for the room to the log. *)
Definition keeps_room (room : string) {A} (c : M A) : Prop :=
  forall w, in_room room w ->
    in_room room (snd (c w))
    /\ exists sfx, log (snd (c w)) = log w ++ sfx
                   /\ Forall (for_room room) sfx.

(** The promise an encoding in flight settles or hands on, if any. *)
Definition job_promise (j : Job) : option nat :=
  match j with
  | AwarenessEmitJob _ _ _ => None
  | ClientUpdateJob p _ _ _ => Some p
  | DocLoadJob p _ _ _ => Some p
  end.

(** Handlers and continuations register nothing, allocate nothing and
    queue no encoding that a promise waits for. *)
Definition steady {A} (c : M A) : Prop :=
  forall w, listeners (snd (c w)) = listeners w
            /\ observers (snd (c w)) = observers w
            /\ acks (snd (c w)) = acks w
            /\ fresh (snd (c w)) = fresh w
            /\ omap job_promise (jobs (snd (c w))) =
                 omap job_promise (jobs w).

(** Beyond [wf]: the promises that acknowledgements and encodings in
    flight refer to have been handed out as well. *)
Definition tidy (w : World) : Prop :=
  wf w
  /\ Forall (fun x => snd x < fresh w) (acks w)
  /\ Forall (fun p => p < fresh w) (omap job_promise (jobs w)).

(** Request [a] is in flight for promise [p]: the promise is pending,
    the socket holds the acknowledgement callback, and nothing else in
    the world can settle the promise. *)
Definition awaiting (a p : nat) (w : World) : Prop :=
  a < fresh w /\ p < fresh w
  /\ promises w !! p = Some Pending
  /\ find_ack a (acks w) = Some p
  /\ Forall (fun x => snd x = p -> fst x = a) (acks w)
  /\ Forall (fun q => q <> p) (omap job_promise (jobs w)).

(** The event is the acknowledgement of request [a]. *)
Definition acknowledges (a : nat) (op : Op) : bool :=
  match op with
  | ReceiveAck b _ => Nat.eqb a b
  | _ => false
  end.

(** ** Order of the activation and of the teardown *)

(** What a teardown appends to the log, in any world. *)
Lemma teardown_log (rootDoc : Doc) (callback : Callback) (w w' : World) :
  log (snd (fst (onDocUpdate rootDoc callback w) w')) =
    log w' ++
    [ EEmit "client-leave" (PRoom (guid rootDoc)) None;
      EOff "server-update" (fresh w);
      EAwarenessOff (S (S (fresh w)));
      EOff "server-awareness-broadcast" (S (fresh w));
      EOff "new-client-awareness-init" (S (S (S (fresh w))));
      EDisconnect ].
Proof. cbn. rewrite <- !app_assoc. reflexivity. Qed.

(** C8. [onDocUpdate] connects, sends the handshake, registers the
    server-update listener and then sets up the awareness bridge, whose
    last step is the awareness-init; the teardown it returns, run in any
    later world, sends client-leave, takes the server-update listener
    off, runs the awareness teardown and disconnects, in this order. *)
Theorem onDocUpdate_order (rootDoc : Doc) (callback : Callback) (w : World) :
  let h := fresh w in
  let room := PRoom (guid rootDoc) in
  log (snd (onDocUpdate rootDoc callback w)) =
    log w ++
    [ EConnect;
      EEmit "client-handshake" room None;
      EOn "server-update" h;
      EOn "server-awareness-broadcast" (S h);
      EOn "new-client-awareness-init" (S (S (S h)));
      EAwarenessOn (S (S h));
      EEmit "awareness-init" room None ]
  /\ forall w' : World,
       log (snd (fst (onDocUpdate rootDoc callback w) w')) =
         log w' ++
         [ EEmit "client-leave" room None;
           EOff "server-update" h;
           EAwarenessOff (S (S h));
           EOff "server-awareness-broadcast" (S h);
           EOff "new-client-awareness-init" (S (S (S h)));
           EDisconnect ].
Proof.
  split.
  - cbn. rewrite <- !app_assoc. reflexivity.
  - intros w'. apply teardown_log.
Qed.

(** ** Identities are fresh *)

Lemma remove_listener_miss (event : string) (id : nat) (l : list SockListener) :
  Forall (fun x => sl_id x <> id) l ->
  remove_listener event id l = l.
Proof.
  induction 1 as [|x l Hx _ IH]; simpl; [reflexivity|].
  apply Nat.eqb_neq in Hx. rewrite Hx, andb_false_r. now rewrite IH.
Qed.

Lemma remove_listener_app (event : string) (id : nat)
    (l l' : list SockListener) :
  Forall (fun x => sl_id x <> id) l ->
  remove_listener event id (l ++ l') = l ++ remove_listener event id l'.
Proof.
  induction 1 as [|x l Hx _ IH]; simpl; [reflexivity|].
  apply Nat.eqb_neq in Hx. rewrite Hx, andb_false_r. now rewrite IH.
Qed.

Lemma observes_miss (id : nat) (l : list AwListener) :
  Forall (fun x => al_id x <> id) l -> observes id l = false.
Proof.
  unfold observes. induction 1 as [|x l Hx _ IH]; simpl; [reflexivity|].
  apply Nat.eqb_neq in Hx. now rewrite Hx, IH.
Qed.

Lemma filter_observers_miss (id : nat) (l : list AwListener) :
  Forall (fun x => al_id x <> id) l ->
  filter (fun x => al_id x <> id) l = l.
Proof.
  induction 1 as [|x l Hx _ IH]; [reflexivity|].
  rewrite filter_cons_True by assumption. now rewrite IH.
Qed.

Lemma filter_observers_last (id : nat) (rootDoc : Doc) (l : list AwListener) :
  Forall (fun x => al_id x <> id) l ->
  filter (fun x => al_id x <> id)
         (l ++ [{| al_id := id; al_rootDoc := rootDoc |}]) = l.
Proof.
  intros H. rewrite filter_app, filter_observers_miss by assumption.
  rewrite filter_cons_False by (simpl; intros Hn; now apply Hn).
  rewrite filter_nil. apply app_nil_r.
Qed.

Lemma Forall_below_ne {A} (f : A -> nat) (n m : nat) (l : list A) :
  n <= m ->
  Forall (fun x => f x < n) l -> Forall (fun x => f x <> m) l.
Proof.
  intros Hle H. induction H as [|x l Hx _ IH]; constructor; [lia|exact IH].
Qed.

Lemma count_emits_app (event : string) (l l' : list Effect) :
  count_emits event (l ++ l') = count_emits event l + count_emits event l'.
Proof. unfold count_emits. now rewrite List.filter_app, length_app. Qed.

(** What [onDocUpdate] leaves registered. *)
Lemma onDocUpdate_registers (rootDoc : Doc) (callback : Callback) (w : World) :
  wf w ->
  let h := fresh w in
  let w1 := snd (onDocUpdate rootDoc callback w) in
  listeners w1 =
    listeners w ++
    [ {| sl_event := "server-update"; sl_id := h;
         sl_code := CodeOnUpdate rootDoc callback |};
      {| sl_event := "server-awareness-broadcast"; sl_id := S h;
         sl_code := CodeAwarenessBroadcast rootDoc |};
      {| sl_event := "new-client-awareness-init"; sl_id := S (S (S h));
         sl_code := CodeNewClientAwarenessInit rootDoc |} ]
  /\ observers w1 =
       observers w ++ [ {| al_id := S (S h); al_rootDoc := rootDoc |} ]
  /\ fresh w1 = S (S (S (S h)))
  /\ connected w1 = true.
Proof.
  intros (Hl & Ho & Ha). cbn -[observes].
  rewrite observes_miss by (eapply Forall_below_ne; [|exact Ho]; lia).
  rewrite <- !app_assoc. repeat split; reflexivity.
Qed.

Lemma remove_listener_hit (event : string) (id : nat) (c : SockCode)
    (rest : list SockListener) :
  remove_listener event id
    ({| sl_event := event; sl_id := id; sl_code := c |} :: rest) = rest.
Proof. simpl. now rewrite String.eqb_refl, Nat.eqb_refl. Qed.

(** The state a teardown leaves, whatever the world it runs in. *)
Lemma teardown_state (rootDoc : Doc) (callback : Callback) (w w' : World) :
  let h := fresh w in
  let w2 := snd (fst (onDocUpdate rootDoc callback w) w') in
  listeners w2 =
    remove_listener "new-client-awareness-init" (S (S (S h)))
      (remove_listener "server-awareness-broadcast" (S h)
         (remove_listener "server-update" h (listeners w')))
  /\ observers w2 = filter (fun x => al_id x <> S (S h)) (observers w')
  /\ connected w2 = false
  /\ fresh w2 = fresh w'.
Proof. repeat split; reflexivity. Qed.

(** The teardown of an activation, run right after it, releases what the
    activation registered. *)
Lemma teardown_releases (rootDoc : Doc) (callback : Callback) (w : World) :
  wf w ->
  let td := fst (onDocUpdate rootDoc callback w) in
  let w1 := snd (onDocUpdate rootDoc callback w) in
  let w2 := snd (td w1) in
  listeners w2 = listeners w /\ observers w2 = observers w /\
  connected w2 = false /\ fresh w2 = fresh w1.
Proof.
  intros Hwf td w1 w2.
  destruct (onDocUpdate_registers rootDoc callback w Hwf)
    as (Hl & Ho & Hf & _).
  destruct (teardown_state rootDoc callback w w1) as (Tl & To & Tc & Tf).
  destruct Hwf as (Hwl & Hwo & _).
  fold w1 in Hl, Ho, Hf. fold td w2 in Tl, To, Tc, Tf.
  rewrite Tl, To, Tc, Tf, Hl, Ho. repeat split.
  - rewrite remove_listener_app
      by (eapply Forall_below_ne; [|exact Hwl]; lia).
    rewrite remove_listener_hit.
    rewrite remove_listener_app
      by (eapply Forall_below_ne; [|exact Hwl]; lia).
    rewrite remove_listener_hit.
    rewrite remove_listener_app
      by (eapply Forall_below_ne; [|exact Hwl]; lia).
    rewrite remove_listener_hit. apply app_nil_r.
  - apply filter_observers_last.
    eapply Forall_below_ne; [|exact Hwo]. lia.
Qed.

(** A second run of the teardown finds nothing left to release. *)
Lemma teardown_again (rootDoc : Doc) (callback : Callback) (w w' : World) :
  Forall (fun x => sl_id x < fresh w) (listeners w') ->
  Forall (fun x => al_id x < fresh w) (observers w') ->
  let w2 := snd (fst (onDocUpdate rootDoc callback w) w') in
  listeners w2 = listeners w' /\ observers w2 = observers w' /\
  connected w2 = false.
Proof.
  intros Hl Ho w2.
  destruct (teardown_state rootDoc callback w w') as (Tl & To & Tc & _).
  fold w2 in Tl, To, Tc. rewrite Tl, To, Tc. repeat split.
  - rewrite (remove_listener_miss "server-update")
      by (eapply Forall_below_ne; [|exact Hl]; lia).
    rewrite (remove_listener_miss "server-awareness-broadcast")
      by (eapply Forall_below_ne; [|exact Hl]; lia).
    apply remove_listener_miss. eapply Forall_below_ne; [|exact Hl]. lia.
  - apply filter_observers_miss. eapply Forall_below_ne; [|exact Ho]. lia.
Qed.

(** ** Running the teardown more than once *)

(** Every run of a teardown emits client-leave once more. *)
Lemma teardown_emits_leave (rootDoc : Doc) (callback : Callback)
    (w w' : World) :
  count_emits "client-leave"
    (log (snd (fst (onDocUpdate rootDoc callback w) w'))) =
  count_emits "client-leave" (log w') + 1.
Proof.
  rewrite teardown_log, count_emits_app. reflexivity.
Qed.

(** C2 (as amended). The teardown returned by [onDocUpdate] is a total
    function of the world and is idempotent on what is registered and on
    the connection: the first run releases the listeners of the
    activation and closes the channel, a second run changes neither. It
    is not idempotent on the wire: every run emits client-leave, so [n]
    runs emit it [n] times and two runs twice. *)
Theorem teardown_twice (rootDoc : Doc) (callback : Callback) (w : World)
    (n : nat) :
  wf w ->
  let td := fun x => snd (fst (onDocUpdate rootDoc callback w) x) in
  let w1 := snd (onDocUpdate rootDoc callback w) in
  count_emits "client-leave" (log (Nat.iter n td w1)) =
    count_emits "client-leave" (log w1) + n
  /\ count_emits "client-leave" (log (td (td w1))) =
       count_emits "client-leave" (log w1) + 2
  /\ listeners (td w1) = listeners w
  /\ observers (td w1) = observers w
  /\ connected (td w1) = false
  /\ listeners (td (td w1)) = listeners (td w1)
  /\ observers (td (td w1)) = observers (td w1)
  /\ connected (td (td w1)) = false.
Proof.
  intros Hwf td w1.
  destruct (teardown_releases rootDoc callback w Hwf) as (Rl & Ro & Rc & Rf).
  fold w1 in Rl, Ro, Rc, Rf. change (snd _) with (td w1) in Rl, Ro, Rc, Rf.
  assert (Hn : forall k, count_emits "client-leave" (log (Nat.iter k td w1)) =
                         count_emits "client-leave" (log w1) + k).
  { induction k as [|k IH]; [simpl; lia|].
    rewrite Nat.iter_succ.
    etransitivity;
      [exact (teardown_emits_leave rootDoc callback w (Nat.iter k td w1))|].
    rewrite IH. lia. }
  split; [apply Hn|]. split; [apply (Hn 2)|].
  split; [exact Rl|]. split; [exact Ro|]. split; [exact Rc|].
  destruct Hwf as (Hwl & Hwo & _).
  apply (teardown_again rootDoc callback w (td w1)).
  - now rewrite Rl.
  - now rewrite Ro.
Qed.

(** ** Registrations of the awareness bridge *)

(** C9 (as amended). The awareness bridge registers the
    server-awareness-broadcast handler, the new-client-awareness-init
    handler and the local change listener, in this order; its teardown
    releases each of the three once: the local change listener first,
    then the two socket handlers in the order of their registration. *)
Theorem awareness_teardown_order (rootDoc : Doc) (w w' : World) :
  let broadcast :=
    OnSocket "server-awareness-broadcast" (fresh w) in
  let init :=
    OnSocket "new-client-awareness-init" (S (S (fresh w))) in
  let change := OnAwareness (S (fresh w)) in
  let destroy := fst (setupAffineAwareness rootDoc w) in
  registrations w (snd (setupAffineAwareness rootDoc w)) =
    [broadcast; init; change]
  /\ releases w' (snd (destroy w')) = [change; broadcast; init].
Proof.
  unfold registrations, releases. cbn -[drop omap].
  rewrite <- !app_assoc, !drop_app_length. split; reflexivity.
Qed.

(** ** Helpers on the world and the queue of encodings *)

Lemma set_jobs_same (w : World) : set_jobs (jobs w) w = w.
Proof. destruct w; reflexivity. Qed.

Lemma delete_last_job (l : list Job) (j : Job) :
  delete (length l) (l ++ [j]) = l.
Proof.
  induction l as [|x l IH]; [reflexivity|]. simpl. now rewrite IH.
Qed.

Lemma lookup_last_job (l : list Job) (j : Job) :
  (l ++ [j]) !! length l = Some j.
Proof.
  induction l as [|x l IH]; [reflexivity|]. exact IH.
Qed.

(** The encoding queued last settles: its continuation runs in the
    world as it is, the job gone from the queue. *)
Lemma finish_last (l : list Job) (j : Job) (w : World) :
  finish (length l) (set_jobs (l ++ [j]) w) = complete j (set_jobs l w).
Proof.
  unfold finish. cbn [jobs set_jobs].
  rewrite lookup_last_job, delete_last_job. destruct w; reflexivity.
Qed.

(** No encoding at that place of the queue: nothing happens. *)
Lemma finish_none (w : World) : finish (length (jobs w)) w = (tt, w).
Proof.
  unfold finish. rewrite (lookup_ge_None_2 (jobs w)) by lia. reflexivity.
Qed.

Lemma is_server_true (o : Origin) :
  is_server o = true <-> o = OriginStr "server".
Proof.
  destruct o as [s|]; simpl; [|split; discriminate].
  rewrite String.eqb_eq. split; [intros ->; reflexivity|congruence].
Qed.

Lemma is_server_false (o : Origin) :
  is_server o = false <-> o <> OriginStr "server".
Proof.
  rewrite <- is_server_true. destruct (is_server o); split; congruence.
Qed.

(** The change set flattened: added, then updated, then removed. *)
Lemma changedClients_flat (changes : AwarenessChanges) :
  changedClients changes =
  added changes ++ updated changes ++ removed changes.
Proof. unfold changedClients. simpl. now rewrite <- app_assoc. Qed.

(** Listeners of other events are passed over. *)
Lemma dispatch_skip (l l' : list SockListener) (m : Inbound) (w : World) :
  Forall (fun x => sl_event x <> event_of m) l ->
  dispatch (l ++ l') m w = dispatch l' m w.
Proof.
  induction 1 as [|x l Hx _ IH]; [reflexivity|]. simpl.
  apply String.eqb_neq in Hx. now rewrite Hx.
Qed.

Lemma onDocUpdate_listeners (rootDoc : Doc) (callback : Callback) (w : World) :
  listeners (snd (onDocUpdate rootDoc callback w)) =
    listeners w ++
    [ {| sl_event := "server-update"; sl_id := fresh w;
         sl_code := CodeOnUpdate rootDoc callback |};
      {| sl_event := "server-awareness-broadcast"; sl_id := S (fresh w);
         sl_code := CodeAwarenessBroadcast rootDoc |};
      {| sl_event := "new-client-awareness-init";
         sl_id := S (S (S (fresh w)));
         sl_code := CodeNewClientAwarenessInit rootDoc |} ].
Proof. cbn. now rewrite <- !app_assoc. Qed.

(** ** Inbound document updates *)

(** In a world of the room, a server-update for another workspace
    passes every listener without effect. *)
Lemma dispatch_other_workspace (room ws g u : string)
    (l : list SockListener) (w : World) :
  Forall (of_room room) l ->
  ws <> room ->
  dispatch l (ServerUpdate ws g u) w = (Normal, w).
Proof.
  intros Hl Hne. induction Hl as [|x l [Hx He] _ IH]; [reflexivity|].
  cbn [dispatch event_of]. rewrite He.
  destruct (sl_code x) as [rootDoc callback|rootDoc|rootDoc];
    cbn [code_event code_doc] in *.
  - change ("server-update" =? "server-update") with true. cbv iota.
    unfold bind. cbn [run_listener]. unfold onUpdate.
    subst room. apply String.eqb_neq in Hne. rewrite Hne. exact IH.
  - change ("server-awareness-broadcast" =? "server-update") with false.
    exact IH.
  - change ("new-client-awareness-init" =? "server-update") with false.
    exact IH.
Qed.

(** One for the room calls every registered callback once, in the
    order of registration. *)
Lemma dispatch_this_workspace (room g u : string) (decoded : bytes)
    (l : list SockListener) (w : World) :
  Forall (of_room room) l ->
  base64ToUint8Array u = inr decoded ->
  dispatch l (ServerUpdate room g u) w =
    (Normal,
     fold_left (fun x callback => snd (invoke callback g decoded x))
               (omap callback_of l) w).
Proof.
  intros Hl Hd. revert w. induction Hl as [|x l [Hx He] _ IH]; intros w;
    [reflexivity|].
  cbn [dispatch event_of omap list_omap]. unfold callback_of at 1.
  rewrite He.
  destruct (sl_code x) as [rootDoc callback|rootDoc|rootDoc];
    cbn [code_event code_doc] in *.
  - change ("server-update" =? "server-update") with true. cbv iota.
    unfold bind. cbn [run_listener]. unfold onUpdate.
    subst room. rewrite String.eqb_refl, Hd.
    unfold bind, ret. cbn [fold_left].
    destruct (invoke callback g decoded w) as [[] w']. cbn [snd]. apply IH.
  - change ("server-awareness-broadcast" =? "server-update") with false.
    apply IH.
  - change ("new-client-awareness-init" =? "server-update") with false.
    apply IH.
Qed.

(** C3. After [onDocUpdate], with no other listener of server-update on
    the socket, a server-update for another workspace changes nothing at
    all: the callback is not called and the caller's replica stays as it
    is. One for the active room calls the callback once, with the guid
    of the message and the decoded update. Later on, in any world whose
    handlers are those of the room, a server-update for another
    workspace still changes nothing, and one for the room calls each
    registered callback once with the guid and the decoded update. *)
Theorem server_update_filter (rootDoc : Doc) (callback : Callback)
    (w : World) (workspaceId g update : string) :
  Forall (fun x => sl_event x <> "server-update") (listeners w) ->
  let w1 := snd (onDocUpdate rootDoc callback w) in
  (workspaceId <> guid rootDoc ->
   receive (ServerUpdate workspaceId g update) w1 = (Normal, w1))
  /\ (workspaceId = guid rootDoc ->
      forall decoded : bytes,
        base64ToUint8Array update = inr decoded ->
        receive (ServerUpdate workspaceId g update) w1 =
          (Normal,
           set_env (callback g decoded (env w1))
             (set_log (log w1 ++ [ECallback g decoded]) w1)))
  /\ (forall w' : World,
        in_room (guid rootDoc) w' ->
        (workspaceId <> guid rootDoc ->
         receive (ServerUpdate workspaceId g update) w' = (Normal, w'))
        /\ (workspaceId = guid rootDoc ->
            forall decoded : bytes,
              base64ToUint8Array update = inr decoded ->
              receive (ServerUpdate workspaceId g update) w' =
                (Normal,
                 fold_left
                   (fun x registered => snd (invoke registered g decoded x))
                   (callbacks w') w'))).
Proof.
  intros Hl w1. split; [|split].
  - unfold receive.
    rewrite (onDocUpdate_listeners rootDoc callback w : listeners w1 = _).
    rewrite dispatch_skip by exact Hl.
    clearbody w1. cbn [dispatch sl_event sl_code event_of run_listener].
    change ("server-update" =? "server-update") with true.
    change ("server-awareness-broadcast" =? "server-update") with false.
    change ("new-client-awareness-init" =? "server-update") with false.
    cbv iota. unfold bind, onUpdate.
    intros Hne. apply String.eqb_neq in Hne. rewrite Hne. reflexivity.
  - unfold receive.
    rewrite (onDocUpdate_listeners rootDoc callback w : listeners w1 = _).
    rewrite dispatch_skip by exact Hl.
    clearbody w1. cbn [dispatch sl_event sl_code event_of run_listener].
    change ("server-update" =? "server-update") with true.
    change ("server-awareness-broadcast" =? "server-update") with false.
    change ("new-client-awareness-init" =? "server-update") with false.
    cbv iota. unfold bind, onUpdate.
    intros -> decoded Hd. rewrite String.eqb_refl, Hd. reflexivity.
  - intros w' (Hw & _ & _). split.
    + intros Hne. now apply (dispatch_other_workspace (guid rootDoc)).
    + intros -> decoded Hd.
      now apply (dispatch_this_workspace (guid rootDoc)).
Qed.

(** ** Outbound awareness updates *)

Lemma setupAffineAwareness_listeners (rootDoc : Doc) (w : World) :
  listeners (snd (setupAffineAwareness rootDoc w)) =
    listeners w ++
    [ {| sl_event := "server-awareness-broadcast"; sl_id := fresh w;
         sl_code := CodeAwarenessBroadcast rootDoc |};
      {| sl_event := "new-client-awareness-init"; sl_id := S (S (fresh w));
         sl_code := CodeNewClientAwarenessInit rootDoc |} ].
Proof. cbn. now rewrite <- !app_assoc. Qed.

Lemma setupAffineAwareness_observers (rootDoc : Doc) (w : World) :
  observers w = [] ->
  observers (snd (setupAffineAwareness rootDoc w)) =
    [ {| al_id := S (fresh w); al_rootDoc := rootDoc |} ].
Proof. intros H. cbn. rewrite H. reflexivity. Qed.

(** The observer itself, in any world. *)
Lemma awarenessUpdate_server (rootDoc : Doc) (changes : AwarenessChanges)
    (origin : Origin) (w : World) :
  is_server origin = true ->
  awarenessUpdate rootDoc changes origin w = (Normal, w).
Proof. intros H. unfold awarenessUpdate. now rewrite H. Qed.

Lemma awarenessUpdate_local (rootDoc : Doc) (changes : AwarenessChanges)
    (origin : Origin) (update : bytes) (w : World) :
  is_server origin = false ->
  encodeAwarenessUpdate (states w) (changedClients changes) = inr update ->
  awarenessUpdate rootDoc changes origin w =
    (Normal,
     set_jobs
       (jobs w ++ [AwarenessEmitJob ByWorkspaceId (guid rootDoc) update]) w).
Proof.
  intros H He. unfold awarenessUpdate. rewrite H. unfold bind, gets.
  now rewrite He.
Qed.

(** The engine throws: the exception leaves the observer, and nothing
    is queued. *)
Lemma awarenessUpdate_throws (rootDoc : Doc) (changes : AwarenessChanges)
    (origin : Origin) (e : JsError) (w : World) :
  is_server origin = false ->
  encodeAwarenessUpdate (states w) (changedClients changes) = inl e ->
  awarenessUpdate rootDoc changes origin w = (Throws e, w).
Proof.
  intros H He. unfold awarenessUpdate. rewrite H. unfold bind, gets.
  now rewrite He.
Qed.

Lemma newClientAwarenessInitHandler_returns (rootDoc : Doc) (update : bytes)
    (w : World) :
  encodeAwarenessUpdate (states w) [clientID w] = inr update ->
  newClientAwarenessInitHandler rootDoc w =
    (Normal,
     set_jobs (jobs w ++ [AwarenessEmitJob ByGuid (guid rootDoc) update]) w).
Proof.
  intros He. unfold newClientAwarenessInitHandler, bind, gets.
  now rewrite He.
Qed.

Lemma newClientAwarenessInitHandler_throws (rootDoc : Doc) (e : JsError)
    (w : World) :
  encodeAwarenessUpdate (states w) [clientID w] = inl e ->
  newClientAwarenessInitHandler rootDoc w = (Throws e, w).
Proof.
  intros He. unfold newClientAwarenessInitHandler, bind, gets.
  now rewrite He.
Qed.

Lemma notify_one (x : AwListener) (changes : AwarenessChanges)
    (origin : Origin) (w : World) :
  notify [x] changes origin w =
    awarenessUpdate (al_rootDoc x) changes origin w.
Proof.
  cbn [notify]. unfold bind.
  destruct (awarenessUpdate (al_rootDoc x) changes origin w) as [[|e] w'];
    reflexivity.
Qed.

(** The continuation of an awareness encoding, in any world. *)
Lemma complete_awareness_encoded (field : ScopeField) (room : string)
    (update : bytes) (encoded : string) (w : World) :
  uint8ArrayToBase64 update = inr encoded ->
  complete (AwarenessEmitJob field room update) w =
    (tt,
     set_log
       (log w ++
        [EEmit "awareness-update" (awareness_payload field room encoded) None])
       w).
Proof. intros H. cbn [complete]. now rewrite H. Qed.

Lemma complete_awareness_failed (field : ScopeField) (room : string)
    (update : bytes) (err : JsError) (w : World) :
  uint8ArrayToBase64 update = inl err ->
  complete (AwarenessEmitJob field room update) w =
    (tt, set_log (log w ++ [EError err]) w).
Proof. intros H. cbn [complete]. now rewrite H. Qed.

(** A change announced to a replica that has a single observer. *)
Lemma awareness_change_one (x : AwListener) (st : AwState)
    (changes : AwarenessChanges) (origin : Origin) (w : World) :
  observers w = [x] ->
  awareness_change st changes origin w =
    awarenessUpdate (al_rootDoc x) changes origin (set_states st w).
Proof.
  intros Ho. unfold awareness_change, awareness_emit_update, modify, bind.
  change (observers (set_states st w)) with (observers w).
  rewrite Ho. apply notify_one.
Qed.

Lemma local_change_from (rootDoc : Doc) (w1 : World) (st : AwState)
    (changes : AwarenessChanges) (origin : Origin) :
  let r := awarenessUpdate rootDoc changes origin (set_states st w1) in
  (origin = OriginStr "server" -> r = (Normal, set_states st w1))
  /\ (origin <> OriginStr "server" ->
      forall update : bytes,
        encodeAwarenessUpdate st
          (added changes ++ updated changes ++ removed changes) =
          inr update ->
        r = (Normal,
             set_jobs
               (jobs w1 ++
                [AwarenessEmitJob ByWorkspaceId (guid rootDoc) update])
               (set_states st w1))
        /\ forall encoded : string,
             uint8ArrayToBase64 update = inr encoded ->
             finish (length (jobs w1)) (snd r) =
               (tt,
                set_log
                  (log w1 ++
                   [EEmit "awareness-update"
                      (PAwareness (Some (guid rootDoc)) None encoded) None])
                  (set_states st w1))).
Proof.
  intros r. subst r. split.
  - intros Hs. apply is_server_true in Hs.
    now apply awarenessUpdate_server.
  - intros Hne update Hu. apply is_server_false in Hne.
    rewrite <- changedClients_flat in Hu.
    rewrite (awarenessUpdate_local rootDoc changes origin update
               (set_states st w1) Hne Hu).
    change (jobs (set_states st w1)) with (jobs w1).
    split; [reflexivity|].
    intros encoded He. cbn [snd].
    rewrite finish_last, (complete_awareness_encoded _ _ _ _ _ He).
    change (set_jobs (jobs w1) (set_states st w1))
      with (set_states st (set_jobs (jobs w1) w1)).
    rewrite set_jobs_same. reflexivity.
Qed.

(** A change of origin "server" passes every observer without effect. *)
Lemma notify_server (l : list AwListener) (changes : AwarenessChanges)
    (w : World) :
  notify l changes (OriginStr "server") w = (Normal, w).
Proof.
  induction l as [|x l IH]; [reflexivity|].
  cbn [notify]. unfold bind.
  now rewrite awarenessUpdate_server by reflexivity.
Qed.

Lemma awareness_change_server (st : AwState) (changes : AwarenessChanges)
    (w : World) :
  awareness_change st changes (OriginStr "server") w =
    (Normal, set_states st w).
Proof.
  unfold awareness_change, awareness_emit_update, modify, bind.
  apply notify_server.
Qed.

(** The state [applyAwarenessUpdate] leaves the replica in, and how
    the call ends. *)
Definition state_after
    (r : (JsError * AwState) + (AwState * option AwarenessChanges))
    : AwState :=
  match r with
  | inl (_, st) => st
  | inr (st, _) => st
  end.

Definition ending
    (r : (JsError * AwState) + (AwState * option AwarenessChanges))
    : Completion :=
  match r with
  | inl (e, _) => Throws e
  | inr _ => Normal
  end.

(** The call of [applyAwarenessUpdate] with origin "server", in any
    world: the observers it announces to send nothing back. *)
Lemma apply_awareness_update_server (update : bytes) (w : World) :
  apply_awareness_update update (OriginStr "server") w =
    (ending (applyAwarenessUpdate (states w) update),
     set_states (state_after (applyAwarenessUpdate (states w) update))
       (set_log (log w ++ [EApplyAwareness update (OriginStr "server")]) w)).
Proof.
  unfold apply_awareness_update, bind, gets, trace, modify.
  cbn [states set_log].
  destruct (applyAwarenessUpdate (states w) update)
    as [[e st']|[st' [changes|]]]; try reflexivity.
  unfold awareness_emit_update. now rewrite notify_server.
Qed.

(** What a broadcast from the server does to the world: at most, the
    update is applied to the replica; the observers it is announced to
    send nothing back. *)
Lemma awarenessBroadcast_result (rootDoc : Doc) (ws au : string) (w : World) :
  snd (awarenessBroadcast rootDoc ws au w) =
    if negb (ws =? guid rootDoc) then w
    else match base64ToUint8Array au with
         | inl _ => w
         | inr update =>
             set_states
               (state_after (applyAwarenessUpdate (states w) update))
               (set_log
                  (log w ++ [EApplyAwareness update (OriginStr "server")]) w)
         end.
Proof.
  unfold awarenessBroadcast.
  destruct (negb (ws =? guid rootDoc)); [reflexivity|].
  destruct (base64ToUint8Array au) as [e|update]; [reflexivity|].
  now rewrite apply_awareness_update_server.
Qed.

Lemma awarenessBroadcast_no_echo (rootDoc : Doc) (ws au : string) (w : World) :
  let w' := snd (awarenessBroadcast rootDoc ws au w) in
  jobs w' = jobs w
  /\ count_emits "awareness-update" (log w') =
       count_emits "awareness-update" (log w).
Proof.
  cbv zeta. rewrite awarenessBroadcast_result.
  destruct (negb (ws =? guid rootDoc)); [now split|].
  destruct (base64ToUint8Array au) as [e|update]; [now split|].
  split; [reflexivity|]. cbn [log set_states set_log].
  rewrite count_emits_app. cbn. lia.
Qed.

(** C4. With the bridge set up as the only observer of the replica, a
    change of origin "server" queues nothing and emits nothing. A change
    of any other origin encodes the diff of the added, updated and
    removed clients together, and once its base64 encoding is done emits
    exactly one awareness-update, carrying the room as workspaceId. In
    any world, whatever its observers, a change of origin "server"
    changes nothing but the state of the replica, and a broadcast
    received from the server queues no encoding and emits no
    awareness-update. *)
Theorem local_change_emission (rootDoc : Doc) (w : World) (st : AwState)
    (changes : AwarenessChanges) (origin : Origin) :
  observers w = [] ->
  let w1 := snd (setupAffineAwareness rootDoc w) in
  let r := awareness_change st changes origin w1 in
  (origin = OriginStr "server" -> r = (Normal, set_states st w1))
  /\ (origin <> OriginStr "server" ->
      forall update : bytes,
        encodeAwarenessUpdate st
          (added changes ++ updated changes ++ removed changes) =
          inr update ->
        r = (Normal,
             set_jobs
               (jobs w1 ++
                [AwarenessEmitJob ByWorkspaceId (guid rootDoc) update])
               (set_states st w1))
        /\ forall encoded : string,
             uint8ArrayToBase64 update = inr encoded ->
             finish (length (jobs w1)) (snd r) =
               (tt,
                set_log
                  (log w1 ++
                   [EEmit "awareness-update"
                      (PAwareness (Some (guid rootDoc)) None encoded) None])
                  (set_states st w1)))
  /\ (forall (w' : World) (st' : AwState),
        awareness_change st' changes (OriginStr "server") w' =
          (Normal, set_states st' w'))
  /\ (forall (w' : World) (ws au : string),
        jobs (snd (awarenessBroadcast rootDoc ws au w')) = jobs w'
        /\ count_emits "awareness-update"
             (log (snd (awarenessBroadcast rootDoc ws au w'))) =
           count_emits "awareness-update" (log w')).
Proof.
  intros Ho. cbv zeta.
  rewrite (awareness_change_one _ st changes origin _
             (setupAffineAwareness_observers rootDoc w Ho)).
  destruct (local_change_from rootDoc (snd (setupAffineAwareness rootDoc w))
              st changes origin) as [H1 H2].
  split; [exact H1|]. split; [exact H2|]. split.
  - intros w' st'. apply awareness_change_server.
  - intros w' ws au. apply awarenessBroadcast_no_echo.
Qed.

(** C5. With the bridge set up and no other listener of
    new-client-awareness-init on the socket, the notification queues the
    encoding of the entry of the local client alone, and once it is done
    exactly one awareness-update carrying it is emitted. *)
Theorem new_client_reannounce (rootDoc : Doc) (w : World) :
  Forall (fun x => sl_event x <> "new-client-awareness-init") (listeners w) ->
  let w1 := snd (setupAffineAwareness rootDoc w) in
  let r := receive NewClientAwarenessInit w1 in
  forall update : bytes,
    encodeAwarenessUpdate (states w1) [clientID w1] = inr update ->
    r = (Normal,
         set_jobs
           (jobs w1 ++ [AwarenessEmitJob ByGuid (guid rootDoc) update]) w1)
    /\ forall encoded : string,
         uint8ArrayToBase64 update = inr encoded ->
         finish (length (jobs w1)) (snd r) =
           (tt,
            set_log
              (log w1 ++
               [EEmit "awareness-update"
                  (PAwareness None (Some (guid rootDoc)) encoded) None])
              w1).
Proof.
  intros Hl w1 r update Hu.
  assert (Hr : r = (Normal,
       set_jobs
         (jobs w1 ++ [AwarenessEmitJob ByGuid (guid rootDoc) update]) w1)).
  { subst r. unfold receive.
    rewrite (setupAffineAwareness_listeners rootDoc w : listeners w1 = _).
    rewrite dispatch_skip by exact Hl.
    clearbody w1.
    cbn [dispatch sl_event sl_code event_of run_listener].
    change ("server-awareness-broadcast" =? "new-client-awareness-init")
      with false.
    change ("new-client-awareness-init" =? "new-client-awareness-init")
      with true.
    cbv iota. unfold bind.
    rewrite (newClientAwarenessInitHandler_returns rootDoc update w1 Hu).
    reflexivity. }
  split; [exact Hr|]. intros encoded He. rewrite Hr. cbn [snd].
  rewrite finish_last, (complete_awareness_encoded _ _ _ _ _ He).
  rewrite set_jobs_same. reflexivity.
Qed.

(** ** Promises of the document adapter *)

Lemma settle_pending (p : nat) (s : PromiseState) (w : World) :
  promises w !! p = Some Pending ->
  settle p s w = (tt, set_promises (<[p := s]> (promises w)) w).
Proof. intros H. unfold settle. now rewrite H. Qed.

(** [sendDocUpdate] returns at once, with a pending promise and the
    encoding queued. *)
Lemma sendDocUpdate_called (rootDoc : Doc) (g : string) (update : bytes)
    (w : World) :
  sendDocUpdate rootDoc g update w =
    (fresh w,
     set_jobs (jobs w ++ [ClientUpdateJob (fresh w) (guid rootDoc) g update])
       (set_promises (<[fresh w := Pending]> (promises w))
          (set_fresh (S (fresh w)) w))).
Proof. reflexivity. Qed.

(** The world once the encoding of a [sendDocUpdate] has settled. *)
Lemma sendDocUpdate_settled (rootDoc : Doc) (g : string) (update : bytes)
    (w : World) :
  snd (finish (length (jobs w)) (snd (sendDocUpdate rootDoc g update w))) =
    match uint8ArrayToBase64 update with
    | inr encoded =>
        set_log
          (log w ++
           [EEmit "client-update"
              (PClientUpdate (guid rootDoc) g encoded) None])
          (set_promises (<[fresh w := Fulfilled VUndefined]> (promises w))
             (set_fresh (S (fresh w)) w))
    | inl err =>
        set_promises (<[fresh w := Rejected err]> (promises w))
          (set_fresh (S (fresh w)) w)
    end.
Proof.
  rewrite sendDocUpdate_called. cbn [snd].
  rewrite finish_last. cbn [complete].
  destruct (uint8ArrayToBase64 update) as [err|encoded].
  - unfold reject. rewrite settle_pending by apply lookup_insert_eq.
    cbn [snd promises set_promises set_jobs].
    rewrite insert_insert_eq. destruct w; reflexivity.
  - unfold bind, socket_emit, trace, resolve.
    rewrite settle_pending by apply lookup_insert_eq.
    cbn [snd promises set_promises set_jobs set_log].
    rewrite insert_insert_eq. destruct w; reflexivity.
Qed.

(** C7. [sendDocUpdate] leaves a pending promise and sends nothing
    before the update is encoded. When the encoding is done, exactly one
    client-update leaves, carrying the room as workspaceId and the target
    as guid, with no acknowledgement asked for, and the promise is
    fulfilled in the same step; nothing else in the world changes. When
    the encoding fails, nothing is sent and the promise is rejected with
    that error. *)
Theorem sendDocUpdate_fire_and_forget (rootDoc : Doc) (g : string)
    (update : bytes) (w : World) :
  let p := fst (sendDocUpdate rootDoc g update w) in
  let w1 := snd (sendDocUpdate rootDoc g update w) in
  let w2 := snd (finish (length (jobs w)) w1) in
  log w1 = log w
  /\ promises w1 !! p = Some Pending
  /\ match uint8ArrayToBase64 update with
     | inr encoded =>
         log w2 =
           log w ++
           [EEmit "client-update"
              (PClientUpdate (guid rootDoc) g encoded) None]
         /\ promises w2 !! p = Some (Fulfilled VUndefined)
         /\ acks w2 = acks w /\ jobs w2 = jobs w
         /\ listeners w2 = listeners w /\ env w2 = env w
     | inl err =>
         log w2 = log w
         /\ promises w2 !! p = Some (Rejected err)
     end.
Proof.
  intros p w1 w2. subst p w1 w2.
  rewrite sendDocUpdate_settled, sendDocUpdate_called. cbn [fst snd].
  split; [reflexivity|]. split; [apply lookup_insert_eq|].
  destruct (uint8ArrayToBase64 update) as [err|encoded].
  - split; [reflexivity|]. apply lookup_insert_eq.
  - split; [reflexivity|]. split; [apply lookup_insert_eq|].
    repeat split; reflexivity.
Qed.

(** The bridge alone on the replica and on the socket, when the
    engine throws: the exception reaches whoever changed the replica,
    and the dispatch of the socket. *)
Lemma engine_throws_through (rootDoc : Doc) (w : World) :
  let w1 := snd (setupAffineAwareness rootDoc w) in
  (forall (st : AwState) (changes : AwarenessChanges) (origin : Origin)
          (e : JsError),
     observers w = [] ->
     origin <> OriginStr "server" ->
     encodeAwarenessUpdate st (changedClients changes) = inl e ->
     awareness_change st changes origin w1 = (Throws e, set_states st w1))
  /\ (forall e : JsError,
        Forall (fun x => sl_event x <> "new-client-awareness-init")
               (listeners w) ->
        encodeAwarenessUpdate (states w1) [clientID w1] = inl e ->
        receive NewClientAwarenessInit w1 = (Throws e, w1)).
Proof.
  intros w1. split.
  - intros st changes origin e Ho Hne He.
    rewrite (awareness_change_one _ st changes origin w1
               (setupAffineAwareness_observers rootDoc w Ho)).
    apply awarenessUpdate_throws; [now apply is_server_false|exact He].
  - intros e Hl He. unfold receive.
    rewrite (setupAffineAwareness_listeners rootDoc w : listeners w1 = _).
    rewrite dispatch_skip by exact Hl.
    clearbody w1.
    cbn [dispatch sl_event sl_code event_of run_listener].
    change ("server-awareness-broadcast" =? "new-client-awareness-init")
      with false.
    change ("new-client-awareness-init" =? "new-client-awareness-init")
      with true.
    cbv iota. unfold bind.
    rewrite (newClientAwarenessInitHandler_throws rootDoc e w1 He).
    reflexivity.
Qed.

(** C6 (as amended). On an awareness path, be it the one of a local
    change or the one of the re-announcement to a new client, a base64
    encoding that fails is logged with [console.error]: the handler had
    returned normally when it queued the encoding, nothing is sent, and
    nothing else in the world changes. An exception of the engine's
    [encodeAwarenessUpdate], called before the promise chain and outside
    its [catch], is not caught and not logged: it leaves the handler
    with the world as it was, and with the bridge set up it reaches the
    caller that changed the replica and the dispatch of the socket. A
    base64 encoding that fails on [sendDocUpdate] rejects the promise
    handed to the caller, and nothing is sent either. Each of the
    failures is taken on its own. *)
Theorem encoding_failures (rootDoc : Doc) (w : World) :
  let i := length (jobs w) in
  let w1 := snd (setupAffineAwareness rootDoc w) in
  (forall (changes : AwarenessChanges) (origin : Origin) (update : bytes)
          (e : JsError),
     origin <> OriginStr "server" ->
     encodeAwarenessUpdate (states w) (changedClients changes) = inr update ->
     uint8ArrayToBase64 update = inl e ->
     fst (awarenessUpdate rootDoc changes origin w) = Normal
     /\ finish i (snd (awarenessUpdate rootDoc changes origin w)) =
          (tt, set_log (log w ++ [EError e]) w))
  /\ (forall (update : bytes) (e : JsError),
        encodeAwarenessUpdate (states w) [clientID w] = inr update ->
        uint8ArrayToBase64 update = inl e ->
        fst (newClientAwarenessInitHandler rootDoc w) = Normal
        /\ finish i (snd (newClientAwarenessInitHandler rootDoc w)) =
             (tt, set_log (log w ++ [EError e]) w))
  /\ (forall (changes : AwarenessChanges) (origin : Origin) (e : JsError),
        origin <> OriginStr "server" ->
        encodeAwarenessUpdate (states w) (changedClients changes) = inl e ->
        awarenessUpdate rootDoc changes origin w = (Throws e, w))
  /\ (forall e : JsError,
        encodeAwarenessUpdate (states w) [clientID w] = inl e ->
        newClientAwarenessInitHandler rootDoc w = (Throws e, w))
  /\ (forall (st : AwState) (changes : AwarenessChanges) (origin : Origin)
             (e : JsError),
        observers w = [] ->
        origin <> OriginStr "server" ->
        encodeAwarenessUpdate st (changedClients changes) = inl e ->
        awareness_change st changes origin w1 = (Throws e, set_states st w1))
  /\ (forall e : JsError,
        Forall (fun x => sl_event x <> "new-client-awareness-init")
               (listeners w) ->
        encodeAwarenessUpdate (states w1) [clientID w1] = inl e ->
        receive NewClientAwarenessInit w1 = (Throws e, w1))
  /\ (forall (g : string) (update : bytes) (e : JsError),
        uint8ArrayToBase64 update = inl e ->
        let p := fst (sendDocUpdate rootDoc g update w) in
        let w2 := snd (finish i (snd (sendDocUpdate rootDoc g update w))) in
        promises w2 !! p = Some (Rejected e) /\ log w2 = log w).
Proof.
  intros i w1. subst i.
  destruct (engine_throws_through rootDoc w) as [T1 T2]. fold w1 in T1, T2.
  clearbody w1.
  split; [|split; [|split; [|split; [|split; [|split]]]]].
  - intros changes origin update e Hne Hu He. apply is_server_false in Hne.
    rewrite (awarenessUpdate_local rootDoc changes origin update w Hne Hu).
    cbn [fst snd]. split; [reflexivity|].
    rewrite finish_last, (complete_awareness_failed _ _ _ _ _ He).
    now rewrite set_jobs_same.
  - intros update e Hu He.
    rewrite (newClientAwarenessInitHandler_returns rootDoc update w Hu).
    cbn [fst snd]. split; [reflexivity|].
    rewrite finish_last, (complete_awareness_failed _ _ _ _ _ He).
    now rewrite set_jobs_same.
  - intros changes origin e Hne He.
    apply awarenessUpdate_throws; [now apply is_server_false|exact He].
  - intros e He. now apply newClientAwarenessInitHandler_throws.
  - exact T1.
  - exact T2.
  - intros g update e He. cbv zeta.
    rewrite sendDocUpdate_settled, He, sendDocUpdate_called.
    cbn [fst]. split; [apply lookup_insert_eq|reflexivity].
Qed.

(** ** The initial-state query *)

Lemma queryDocState_plain (rootDoc : Doc) (g : string)
    (options : option Options) (w : World) :
  options ≫= stateVector = None ->
  queryDocState rootDoc g options w = (fresh w, requested rootDoc g None w).
Proof.
  intros H. unfold queryDocState, bind. cbn [new_promise alloc bind ret].
  rewrite H. destruct w; reflexivity.
Qed.

Lemma queryDocState_encoding (rootDoc : Doc) (g : string)
    (options : option Options) (sv : bytes) (w : World) :
  options ≫= stateVector = Some sv ->
  queryDocState rootDoc g options w =
    (fresh w,
     set_jobs (jobs w ++ [DocLoadJob (fresh w) (guid rootDoc) g sv])
       (set_promises (<[fresh w := Pending]> (promises w))
          (set_fresh (S (fresh w)) w))).
Proof.
  intros H. unfold queryDocState, bind. cbn [new_promise alloc bind ret].
  rewrite H. reflexivity.
Qed.

(** Once the state vector, if there is one, is encoded, the request
    has left. *)
Lemma queryDocState_requested (rootDoc : Doc) (g : string)
    (options : option Options) (w : World) :
  (forall sv, options ≫= stateVector = Some sv ->
              exists s, uint8ArrayToBase64 sv = inr s) ->
  fst (queryDocState rootDoc g options w) = fresh w
  /\ exists sv' : option string,
       snd (finish (length (jobs w))
              (snd (queryDocState rootDoc g options w))) =
       requested rootDoc g sv' w.
Proof.
  intros Henc. destruct (options ≫= stateVector) as [sv|] eqn:Hsv.
  - destruct (Henc sv eq_refl) as [s Hs].
    rewrite (queryDocState_encoding _ _ _ _ _ Hsv). split; [reflexivity|].
    exists (Some s). cbn [snd]. rewrite finish_last. cbn [complete].
    rewrite Hs. destruct w; reflexivity.
  - rewrite (queryDocState_plain _ _ _ _ Hsv). split; [reflexivity|].
    exists None. cbn [snd].
    change (length (jobs w))
      with (length (jobs (requested rootDoc g None w))).
    now rewrite finish_none.
Qed.

Lemma find_ack_last (a p : nat) (l : list (nat * nat)) :
  Forall (fun x => fst x <> a) l ->
  find_ack a (l ++ [(a, p)]) = Some p.
Proof.
  unfold find_ack. induction 1 as [|x l Hx _ IH]; simpl.
  - now rewrite Nat.eqb_refl.
  - apply Nat.eqb_neq in Hx. now rewrite Hx.
Qed.

(** The acknowledgement callback, for a promise that is pending. *)
Lemma ack_callback_settles (p : nat) (update : Ack) (w : World) :
  promises w !! p = Some Pending ->
  let w' := snd (ack_callback p update w) in
  match update with
  | AckError e => promises w' !! p = Some (Rejected e)
  | AckNull => promises w' !! p = Some (Fulfilled VFalse)
  | AckString s =>
      (s = "" -> promises w' !! p = Some (Fulfilled VFalse))
      /\ (s <> "" ->
          forall decoded : bytes,
            base64ToUint8Array s = inr decoded ->
            promises w' !! p = Some (Fulfilled (VBytes decoded)))
  end.
Proof.
  intros Hp. destruct update as [e|s|]; cbn [ack_callback].
  - unfold bind, reject. rewrite (settle_pending _ _ _ Hp).
    apply lookup_insert_eq.
  - split.
    + intros ->. unfold bind, resolve. rewrite (settle_pending _ _ _ Hp).
      apply lookup_insert_eq.
    + intros Hs decoded Hd. destruct s as [|c s]; [congruence|].
      cbv zeta. rewrite Hd. unfold bind, resolve.
      rewrite (settle_pending _ _ _ Hp). apply lookup_insert_eq.
  - unfold bind, resolve. rewrite (settle_pending _ _ _ Hp).
    apply lookup_insert_eq.
Qed.

(** ** Computations that only append to the log *)

Lemma relog_relog {A} (l l' : list Effect) (r : A * World) :
  relog l (relog l' r) = relog (l ++ l') r.
Proof. unfold relog. simpl. now rewrite app_assoc. Qed.

Lemma blind_ret {A} (a : A) : log_blind (ret a).
Proof.
  intros w. unfold relog, ret. simpl. rewrite app_nil_r. now destruct w.
Qed.

Lemma blind_bind {A B} (c : M A) (k : A -> M B) :
  log_blind c ->
  (forall w, log_blind (k (fst (c w)))) ->
  log_blind (bind c k).
Proof.
  intros Hc Hk w. unfold bind. rewrite (Hc w).
  destruct (c (set_log [] w)) as [a w0] eqn:E. unfold relog at 1. simpl.
  specialize (Hk (set_log [] w)). rewrite E in Hk. simpl in Hk.
  rewrite (Hk (set_log _ w0)). rewrite (Hk w0). rewrite relog_relog.
  reflexivity.
Qed.

Lemma blind_then {A B} (c : M A) (k : M B) :
  log_blind c -> log_blind k -> log_blind (bind c (fun _ => k)).
Proof. intros Hc Hk. apply blind_bind; [exact Hc|]. intros _. exact Hk. Qed.

(** State changes that leave the log alone, and appends to it. *)
Ltac blind_step :=
  let w := fresh "w" in
  intros w; destruct w; unfold relog; cbn; rewrite ?app_nil_r; reflexivity.

Lemma blind_trace (e : Effect) : log_blind (trace e).
Proof. blind_step. Qed.

Lemma blind_alloc : log_blind alloc.
Proof. blind_step. Qed.

Lemma blind_gets {A} (f : World -> A) :
  (forall w, f (set_log [] w) = f w) -> log_blind (gets f).
Proof.
  intros Hf w. unfold relog, gets. cbn. rewrite Hf, app_nil_r.
  now destruct w.
Qed.

Lemma blind_enqueue (j : Job) : log_blind (enqueue j).
Proof. blind_step. Qed.

Lemma blind_socket_connect : log_blind socket_connect.
Proof. blind_step. Qed.

Lemma blind_socket_disconnect : log_blind socket_disconnect.
Proof. blind_step. Qed.

Lemma blind_socket_emit (event : string) (payload : Payload) :
  log_blind (socket_emit event payload).
Proof. apply blind_trace. Qed.

Lemma blind_socket_emit_ack (event : string) (payload : Payload) (p : nat) :
  log_blind (socket_emit_ack event payload p).
Proof. blind_step. Qed.

Lemma blind_socket_on (event : string) (id : nat) (code : SockCode) :
  log_blind (socket_on event id code).
Proof. blind_step. Qed.

Lemma blind_socket_off (event : string) (id : nat) :
  log_blind (socket_off event id).
Proof. blind_step. Qed.

Lemma blind_awareness_on (id : nat) (rootDoc : Doc) :
  log_blind (awareness_on id rootDoc).
Proof. blind_step. Qed.

Lemma blind_awareness_off (id : nat) : log_blind (awareness_off id).
Proof. blind_step. Qed.

Lemma blind_new_promise : log_blind new_promise.
Proof. blind_step. Qed.

Lemma blind_set_states (st : AwState) : log_blind (modify (set_states st)).
Proof. blind_step. Qed.

Lemma blind_settle (p : nat) (s : PromiseState) : log_blind (settle p s).
Proof.
  intros w. unfold relog, settle.
  change (promises (set_log [] w)) with (promises w).
  destruct (promises w !! p) as [[| |]|]; destruct w; cbn;
    rewrite ?app_nil_r; reflexivity.
Qed.

Create HintDb blind.

#[local] Hint Resolve blind_ret blind_trace blind_alloc blind_enqueue
  blind_socket_connect blind_socket_disconnect blind_socket_emit
  blind_socket_emit_ack blind_socket_on blind_socket_off
  blind_awareness_on blind_awareness_off blind_new_promise
  blind_set_states blind_settle : blind.

(** Sequences of blind steps are blind. *)
Ltac blind_seq :=
  repeat (apply blind_bind; [auto with blind|intros ?; cbv beta]);
  auto with blind.

(** The teardown closures. *)
Lemma blind_destroyAwareness (rootDoc : Doc) (w : World) :
  log_blind (fst (setupAffineAwareness rootDoc w)).
Proof. cbn. blind_seq. Qed.

Lemma blind_setupAffineAwareness (rootDoc : Doc) :
  log_blind (setupAffineAwareness rootDoc).
Proof. unfold setupAffineAwareness. blind_seq. Qed.

Lemma blind_teardown (rootDoc : Doc) (callback : Callback) (w : World) :
  log_blind (fst (onDocUpdate rootDoc callback w)).
Proof.
  cbn. blind_seq.
Qed.

Lemma blind_onDocUpdate (rootDoc : Doc) (callback : Callback) :
  log_blind (onDocUpdate rootDoc callback).
Proof.
  unfold onDocUpdate. blind_seq.
Qed.

(** The adapter's calls. *)
Lemma blind_queryDocState (rootDoc : Doc) (g : string)
    (options : option Options) :
  log_blind (queryDocState rootDoc g options).
Proof.
  unfold queryDocState. destruct (options ≫= stateVector); blind_seq.
Qed.

Lemma blind_sendDocUpdate (rootDoc : Doc) (g : string) (update : bytes) :
  log_blind (sendDocUpdate rootDoc g update).
Proof. unfold sendDocUpdate. blind_seq. Qed.

(** The handlers. *)
Lemma blind_awarenessUpdate (rootDoc : Doc) (changes : AwarenessChanges)
    (origin : Origin) :
  log_blind (awarenessUpdate rootDoc changes origin).
Proof.
  unfold awarenessUpdate. destruct (is_server origin); [apply blind_ret|].
  apply blind_bind; [apply blind_gets; reflexivity|]. intros w.
  destruct (encodeAwarenessUpdate _ _); blind_seq.
Qed.

Lemma blind_notify (l : list AwListener) (changes : AwarenessChanges)
    (origin : Origin) :
  log_blind (notify l changes origin).
Proof.
  induction l as [|x l IH]; cbn [notify]; [apply blind_ret|].
  apply blind_bind; [apply blind_awarenessUpdate|].
  intros w. destruct (fst _); [exact IH|apply blind_ret].
Qed.

Lemma blind_awareness_emit_update (changes : AwarenessChanges)
    (origin : Origin) :
  log_blind (awareness_emit_update changes origin).
Proof.
  intros w. unfold awareness_emit_update.
  change (observers (set_log [] w)) with (observers w).
  apply blind_notify.
Qed.

Lemma blind_apply_awareness_update (update : bytes) (origin : Origin) :
  log_blind (apply_awareness_update update origin).
Proof.
  unfold apply_awareness_update.
  apply blind_bind; [apply blind_gets; reflexivity|]. intros w.
  apply blind_then; [apply blind_trace|].
  destruct (applyAwarenessUpdate _ _) as [[e st']|[st' [changes|]]];
    (apply blind_then; [apply blind_set_states|]);
    [apply blind_ret|apply blind_awareness_emit_update|apply blind_ret].
Qed.

Lemma blind_newClientAwarenessInitHandler (rootDoc : Doc) :
  log_blind (newClientAwarenessInitHandler rootDoc).
Proof.
  unfold newClientAwarenessInitHandler.
  apply blind_bind; [apply blind_gets; reflexivity|]. intros w.
  apply blind_bind; [apply blind_gets; reflexivity|]. intros w'.
  destruct (encodeAwarenessUpdate _ _); blind_seq.
Qed.

Lemma blind_run_listener (c : SockCode) (m : Inbound) :
  log_blind (run_listener c m).
Proof.
  destruct c as [rootDoc callback|rootDoc|rootDoc], m as [ws g u|ws au|];
    cbn [run_listener]; try apply blind_ret;
    try apply blind_newClientAwarenessInitHandler.
  - unfold onUpdate. destruct (ws =? guid rootDoc); [|apply blind_ret].
    destruct (base64ToUint8Array u); blind_step.
  - unfold awarenessBroadcast.
    destruct (negb (ws =? guid rootDoc)); [apply blind_ret|].
    destruct (base64ToUint8Array au);
      [apply blind_ret|apply blind_apply_awareness_update].
Qed.

Lemma blind_dispatch (l : list SockListener) (m : Inbound) :
  log_blind (dispatch l m).
Proof.
  induction l as [|x l IH]; cbn [dispatch]; [apply blind_ret|].
  destruct (sl_event x =? event_of m); [|exact IH].
  apply blind_bind; [apply blind_run_listener|].
  intros w. destruct (fst _); [exact IH|apply blind_ret].
Qed.

Lemma blind_receive (m : Inbound) : log_blind (receive m).
Proof.
  intros w. unfold receive.
  change (listeners (set_log [] w)) with (listeners w).
  apply blind_dispatch.
Qed.

Lemma blind_ack_callback (p : nat) (update : Ack) :
  log_blind (ack_callback p update).
Proof.
  destruct update as [e|s|]; cbn [ack_callback];
    try (apply blind_then; [apply blind_settle|apply blind_ret]).
  destruct s as [|c s];
    [apply blind_then; [apply blind_settle|apply blind_ret]|].
  destruct (base64ToUint8Array _);
    [apply blind_ret|apply blind_then; [apply blind_settle|apply blind_ret]].
Qed.

Lemma blind_receive_ack (a : nat) (update : Ack) :
  log_blind (receive_ack a update).
Proof.
  intros w. unfold receive_ack.
  change (acks (set_log [] w)) with (acks w).
  destruct (find_ack a (acks w)) as [p|]; [|now apply blind_ret].
  rewrite (blind_ack_callback p update).
  rewrite (blind_ack_callback p update (set_acks _ (set_log [] w))).
  rewrite relog_relog. cbn -[ack_callback filter relog].
  rewrite app_nil_r. reflexivity.
Qed.

Lemma blind_complete (j : Job) : log_blind (complete j).
Proof.
  destruct j as [field room update|p room g update|p room g sv];
    cbn [complete]; destruct (uint8ArrayToBase64 _);
    try apply blind_trace; try apply blind_settle;
    try (apply blind_then; [|apply blind_settle || apply blind_ret]);
    auto with blind.
Qed.

Lemma blind_finish (i : nat) : log_blind (finish i).
Proof.
  intros w. unfold finish.
  change (jobs (set_log [] w)) with (jobs w).
  destruct (jobs w !! i) as [j|]; [|now apply blind_ret].
  rewrite (blind_complete j).
  rewrite (blind_complete j (set_jobs _ (set_log [] w))).
  rewrite relog_relog. cbn -[complete delete relog].
  rewrite app_nil_r. reflexivity.
Qed.

Lemma blind_awareness_change (st : AwState) (changes : AwarenessChanges)
    (origin : Origin) :
  log_blind (awareness_change st changes origin).
Proof.
  apply blind_then;
    [apply blind_set_states|apply blind_awareness_emit_update].
Qed.

Lemma createAffineDataSource_result (id : string) (rootDoc : Doc) (w : World) :
  createAffineDataSource id rootDoc w =
    (data_source rootDoc, set_log (log w ++ warning id rootDoc) w).
Proof.
  unfold createAffineDataSource, warning, bind.
  destruct (id =? guid rootDoc); cbn; [|reflexivity].
  rewrite app_nil_r. now destruct w.
Qed.

Lemma blind_step_run (rootDoc : Doc) (teardowns : list (M unit)) (op : Op) :
  Forall log_blind teardowns ->
  log_blind (step (data_source rootDoc) teardowns op)
  /\ forall w, Forall log_blind
                 (fst (step (data_source rootDoc) teardowns op w)).
Proof.
  intros Ht.
  destruct op as [g options|g update|callback|k|m|a update|i|st changes origin];
    cbn [step data_source ds_queryDocState ds_sendDocUpdate ds_onDocUpdate].
  - split; [apply blind_then; [apply blind_queryDocState|apply blind_ret]|].
    intros w. unfold bind. now destruct (queryDocState _ _ _ _).
  - split; [apply blind_then; [apply blind_sendDocUpdate|apply blind_ret]|].
    intros w. unfold bind. now destruct (sendDocUpdate _ _ _ _).
  - split.
    + apply blind_bind; [apply blind_onDocUpdate|]. intros w. apply blind_ret.
    + intros w. unfold bind.
      pose proof (blind_teardown rootDoc callback w) as Hb.
      destruct (onDocUpdate rootDoc callback w) as [td w']. cbn.
      apply Forall_app. split; [exact Ht|]. now constructor.
  - destruct (teardowns !! k) as [td|] eqn:Hk.
    + assert (Hb : log_blind td).
      { rewrite Forall_lookup in Ht. exact (Ht k td Hk). }
      split; [apply blind_then; [exact Hb|apply blind_ret]|].
      intros w. unfold bind. now destruct (td w).
    + split; [apply blind_ret|]. intros w. exact Ht.
  - split; [apply blind_then; [apply blind_receive|apply blind_ret]|].
    intros w. unfold bind. now destruct (receive _ _).
  - split; [apply blind_then; [apply blind_receive_ack|apply blind_ret]|].
    intros w. unfold bind. now destruct (receive_ack _ _ _).
  - split; [apply blind_then; [apply blind_finish|apply blind_ret]|].
    intros w. unfold bind. now destruct (finish _ _).
  - split; [apply blind_then; [apply blind_awareness_change|apply blind_ret]|].
    intros w. unfold bind. now destruct (awareness_change _ _ _ _).
Qed.

Lemma blind_run (rootDoc : Doc) (ops : list Op) (teardowns : list (M unit)) :
  Forall log_blind teardowns ->
  log_blind (run (data_source rootDoc) teardowns ops).
Proof.
  revert teardowns. induction ops as [|op ops IH]; intros teardowns Ht;
    cbn [run]; [apply blind_ret|].
  destruct (blind_step_run rootDoc teardowns op Ht) as [Hs Hts].
  apply blind_bind; [exact Hs|]. intros w. apply IH, Hts.
Qed.

(** ** Everything is scoped by the guid of the root document *)

Lemma keeps_ret (room : string) {A} (a : A) : keeps_room room (ret a).
Proof.
  intros w H. split; [exact H|]. exists []. cbn.
  now rewrite app_nil_r.
Qed.

Lemma keeps_bind (room : string) {A B} (c : M A) (k : A -> M B) :
  keeps_room room c ->
  (forall w, in_room room w -> keeps_room room (k (fst (c w)))) ->
  keeps_room room (bind c k).
Proof.
  intros Hc Hk w Hw. unfold bind.
  destruct (Hc w Hw) as (H1 & sfx1 & L1 & F1).
  specialize (Hk w Hw). destruct (c w) as [a w1]. cbn in *.
  destruct (Hk w1 H1) as (H2 & sfx2 & L2 & F2).
  split; [exact H2|]. exists (sfx1 ++ sfx2).
  rewrite L2, L1, <- app_assoc. split; [reflexivity|].
  apply Forall_app. now split.
Qed.

Lemma keeps_then (room : string) {A B} (c : M A) (k : M B) :
  keeps_room room c -> keeps_room room k ->
  keeps_room room (bind c (fun _ => k)).
Proof. intros Hc Hk. apply keeps_bind; [exact Hc|]. intros _ _. exact Hk. Qed.

(** A step that leaves handlers, encodings and log as they are. *)
Lemma keeps_quiet (room : string) {A} (c : M A) :
  (forall w, listeners (snd (c w)) = listeners w
             /\ observers (snd (c w)) = observers w
             /\ jobs (snd (c w)) = jobs w
             /\ log (snd (c w)) = log w) ->
  keeps_room room c.
Proof.
  intros H w (Hl & Ho & Hj). destruct (H w) as (El & Eo & Ej & Eg).
  split; [unfold in_room; now rewrite El, Eo, Ej|].
  exists []. rewrite Eg, app_nil_r. now split.
Qed.

Lemma keeps_trace (room : string) (e : Effect) :
  for_room room e -> keeps_room room (trace e).
Proof.
  intros He w H. split; [exact H|]. exists [e]. split; [reflexivity|].
  now constructor.
Qed.

Lemma keeps_alloc (room : string) : keeps_room room alloc.
Proof. now apply keeps_quiet. Qed.

Lemma keeps_gets (room : string) {A} (f : World -> A) :
  keeps_room room (gets f).
Proof. now apply keeps_quiet. Qed.

Lemma keeps_new_promise (room : string) : keeps_room room new_promise.
Proof. now apply keeps_quiet. Qed.

Lemma keeps_set_states (room : string) (st : AwState) :
  keeps_room room (modify (set_states st)).
Proof. now apply keeps_quiet. Qed.

Lemma keeps_settle (room : string) (p : nat) (s : PromiseState) :
  keeps_room room (settle p s).
Proof.
  apply keeps_quiet. intros w. unfold settle.
  now destruct (promises w !! p) as [[| |]|].
Qed.

Lemma keeps_invoke (room : string) (callback : Callback) (g : string)
    (update : bytes) :
  keeps_room room (invoke callback g update).
Proof.
  intros w H. split; [exact H|]. exists [ECallback g update].
  split; [reflexivity|]. now constructor.
Qed.

Lemma keeps_enqueue (room : string) (j : Job) :
  job_room j = room -> keeps_room room (enqueue j).
Proof.
  intros Hj w (Hl & Ho & Hq). split.
  - split; [exact Hl|]. split; [exact Ho|]. cbn.
    apply Forall_app. split; [exact Hq|]. now constructor.
  - exists []. cbn. now rewrite app_nil_r.
Qed.

Lemma keeps_socket_connect (room : string) : keeps_room room socket_connect.
Proof.
  intros w H. split; [exact H|]. exists [EConnect].
  split; [reflexivity|]. now constructor.
Qed.

Lemma keeps_socket_disconnect (room : string) :
  keeps_room room socket_disconnect.
Proof.
  intros w H. split; [exact H|]. exists [EDisconnect].
  split; [reflexivity|]. now constructor.
Qed.

Lemma keeps_socket_emit (room event : string) (payload : Payload) :
  room_of payload = Some room ->
  keeps_room room (socket_emit event payload).
Proof. intros H. now apply keeps_trace. Qed.

Lemma keeps_socket_emit_ack (room event : string) (payload : Payload)
    (p : nat) :
  room_of payload = Some room ->
  keeps_room room (socket_emit_ack event payload p).
Proof.
  intros Hp w H. split; [exact H|].
  exists [EEmit event payload (Some (fresh w))].
  split; [reflexivity|]. now constructor.
Qed.

Lemma keeps_socket_on (room event : string) (id : nat) (code : SockCode) :
  guid (code_doc code) = room ->
  event = code_event code ->
  keeps_room room (socket_on event id code).
Proof.
  intros Hc He w (Hl & Ho & Hq). split.
  - split; [|now split]. cbn.
    apply Forall_app. split; [exact Hl|]. constructor; [|constructor].
    now split.
  - exists [EOn event id]. split; [reflexivity|]. now constructor.
Qed.

Lemma Forall_remove_listener (P : SockListener -> Prop) (event : string)
    (id : nat) (l : list SockListener) :
  Forall P l -> Forall P (remove_listener event id l).
Proof.
  induction 1 as [|x l Hx Hl IH]; cbn [remove_listener]; [constructor|].
  destruct (_ && _); [exact Hl|now constructor].
Qed.

Lemma keeps_socket_off (room event : string) (id : nat) :
  keeps_room room (socket_off event id).
Proof.
  intros w (Hl & Ho & Hq). split.
  - split; [|now split]. cbn. now apply Forall_remove_listener.
  - exists [EOff event id]. split; [reflexivity|]. now constructor.
Qed.

Lemma keeps_awareness_on (room : string) (id : nat) (rootDoc : Doc) :
  guid rootDoc = room ->
  keeps_room room (awareness_on id rootDoc).
Proof.
  intros Hd w (Hl & Ho & Hq). split.
  - split; [exact Hl|]. split; [|exact Hq]. cbn.
    destruct (observes id (observers w)); [exact Ho|].
    apply Forall_app. split; [exact Ho|]. now constructor.
  - exists [EAwarenessOn id]. split; [reflexivity|]. now constructor.
Qed.

Lemma keeps_awareness_off (room : string) (id : nat) :
  keeps_room room (awareness_off id).
Proof.
  intros w (Hl & Ho & Hq). split.
  - split; [exact Hl|]. split; [|exact Hq]. cbn.
    induction Ho as [|x l Hx _ IH]; [constructor|].
    destruct (decide (al_id x <> id)) as [Hd|Hd].
    + rewrite filter_cons_True by exact Hd. now constructor.
    + now rewrite filter_cons_False by exact Hd.
  - exists [EAwarenessOff id]. split; [reflexivity|]. now constructor.
Qed.

Create HintDb room.

#[local] Hint Resolve keeps_ret keeps_alloc keeps_gets keeps_new_promise
  keeps_set_states keeps_settle keeps_invoke keeps_enqueue
  keeps_socket_connect keeps_socket_disconnect keeps_socket_emit
  keeps_socket_emit_ack keeps_socket_on keeps_socket_off
  keeps_awareness_on keeps_awareness_off : room.

Ltac room_seq :=
  repeat (apply keeps_bind; [auto with room|intros ? _; cbv beta]);
  auto with room.

Lemma keeps_setupAffineAwareness (rootDoc : Doc) :
  keeps_room (guid rootDoc) (setupAffineAwareness rootDoc).
Proof. unfold setupAffineAwareness. room_seq. Qed.

Lemma keeps_destroyAwareness (rootDoc : Doc) (w : World) :
  keeps_room (guid rootDoc) (fst (setupAffineAwareness rootDoc w)).
Proof. cbn. room_seq. Qed.

Lemma keeps_onDocUpdate (rootDoc : Doc) (callback : Callback) :
  keeps_room (guid rootDoc) (onDocUpdate rootDoc callback).
Proof.
  unfold onDocUpdate. room_seq.
Qed.

Lemma keeps_teardown (rootDoc : Doc) (callback : Callback) (w : World) :
  keeps_room (guid rootDoc) (fst (onDocUpdate rootDoc callback w)).
Proof. cbn. room_seq. Qed.

Lemma keeps_queryDocState (rootDoc : Doc) (g : string)
    (options : option Options) :
  keeps_room (guid rootDoc) (queryDocState rootDoc g options).
Proof.
  unfold queryDocState. destruct (options ≫= stateVector); room_seq.
Qed.

Lemma keeps_sendDocUpdate (rootDoc : Doc) (g : string) (update : bytes) :
  keeps_room (guid rootDoc) (sendDocUpdate rootDoc g update).
Proof. unfold sendDocUpdate. room_seq. Qed.

Lemma keeps_awarenessUpdate (rootDoc : Doc) (changes : AwarenessChanges)
    (origin : Origin) :
  keeps_room (guid rootDoc) (awarenessUpdate rootDoc changes origin).
Proof.
  unfold awarenessUpdate. destruct (is_server origin); [apply keeps_ret|].
  apply keeps_bind; [apply keeps_gets|]. intros w _.
  destruct (encodeAwarenessUpdate _ _); room_seq.
Qed.

Lemma keeps_notify (room : string) (l : list AwListener)
    (changes : AwarenessChanges) (origin : Origin) :
  Forall (fun x => guid (al_rootDoc x) = room) l ->
  keeps_room room (notify l changes origin).
Proof.
  induction 1 as [|x l Hx _ IH]; cbn [notify]; [apply keeps_ret|].
  apply keeps_bind; [rewrite <- Hx; apply keeps_awarenessUpdate|].
  intros w _. destruct (fst _); [exact IH|apply keeps_ret].
Qed.

Lemma keeps_awareness_emit_update (room : string)
    (changes : AwarenessChanges) (origin : Origin) :
  keeps_room room (awareness_emit_update changes origin).
Proof.
  intros w Hw. unfold awareness_emit_update.
  apply keeps_notify; [|exact Hw]. apply Hw.
Qed.

Lemma keeps_apply_awareness_update (room : string) (update : bytes)
    (origin : Origin) :
  keeps_room room (apply_awareness_update update origin).
Proof.
  unfold apply_awareness_update.
  apply keeps_bind; [apply keeps_gets|]. intros w _.
  apply keeps_then; [now apply keeps_trace|].
  destruct (applyAwarenessUpdate _ _) as [[e st']|[st' [changes|]]];
    (apply keeps_then; [apply keeps_set_states|]);
    [apply keeps_ret|apply keeps_awareness_emit_update|apply keeps_ret].
Qed.

Lemma keeps_newClientAwarenessInitHandler (rootDoc : Doc) :
  keeps_room (guid rootDoc) (newClientAwarenessInitHandler rootDoc).
Proof.
  unfold newClientAwarenessInitHandler.
  apply keeps_bind; [apply keeps_gets|]. intros w _.
  apply keeps_bind; [apply keeps_gets|]. intros w' _.
  destruct (encodeAwarenessUpdate _ _); room_seq.
Qed.

Lemma keeps_run_listener (c : SockCode) (m : Inbound) :
  keeps_room (guid (code_doc c)) (run_listener c m).
Proof.
  destruct c as [rootDoc callback|rootDoc|rootDoc], m as [ws g u|ws au|];
    cbn [run_listener code_doc]; try apply keeps_ret;
    try apply keeps_newClientAwarenessInitHandler.
  - unfold onUpdate. destruct (ws =? guid rootDoc); [|apply keeps_ret].
    destruct (base64ToUint8Array u); room_seq. now apply keeps_trace.
  - unfold awarenessBroadcast.
    destruct (negb (ws =? guid rootDoc)); [apply keeps_ret|].
    destruct (base64ToUint8Array au);
      [apply keeps_ret|apply keeps_apply_awareness_update].
Qed.

Lemma keeps_dispatch (room : string) (l : list SockListener) (m : Inbound) :
  Forall (of_room room) l ->
  keeps_room room (dispatch l m).
Proof.
  induction 1 as [|x l [Hx _] _ IH]; cbn [dispatch]; [apply keeps_ret|].
  destruct (sl_event x =? event_of m); [|exact IH].
  apply keeps_bind; [rewrite <- Hx; apply keeps_run_listener|].
  intros w _. destruct (fst _); [exact IH|apply keeps_ret].
Qed.

Lemma keeps_receive (room : string) (m : Inbound) :
  keeps_room room (receive m).
Proof.
  intros w Hw. unfold receive. apply keeps_dispatch; [|exact Hw]. apply Hw.
Qed.

Lemma keeps_ack_callback (room : string) (p : nat) (update : Ack) :
  keeps_room room (ack_callback p update).
Proof.
  destruct update as [e|s|]; cbn [ack_callback];
    try (apply keeps_then; [apply keeps_settle|apply keeps_ret]).
  destruct s as [|c s];
    [apply keeps_then; [apply keeps_settle|apply keeps_ret]|].
  destruct (base64ToUint8Array _);
    [apply keeps_ret|apply keeps_then; [apply keeps_settle|apply keeps_ret]].
Qed.

Lemma keeps_receive_ack (room : string) (a : nat) (update : Ack) :
  keeps_room room (receive_ack a update).
Proof.
  intros w Hw. unfold receive_ack.
  destruct (find_ack a (acks w)) as [p|]; [|now apply keeps_ret].
  now apply (keeps_ack_callback room p update (set_acks _ w)).
Qed.

Lemma keeps_complete (j : Job) : keeps_room (job_room j) (complete j).
Proof.
  destruct j as [field room update|p room g update|p room g sv];
    cbn [complete job_room]; destruct (uint8ArrayToBase64 _);
    room_seq; try (now apply keeps_trace); try apply keeps_settle.
  apply keeps_socket_emit. now destruct field.
Qed.

Lemma Forall_delete_job (P : Job -> Prop) (i : nat) (l : list Job) :
  Forall P l -> Forall P (delete i l).
Proof.
  intros H. revert i. induction H as [|x l Hx Hl IH]; intros [|i]; cbn;
    [constructor|constructor|exact Hl|constructor; [exact Hx|apply IH]].
Qed.

Lemma keeps_finish (room : string) (i : nat) : keeps_room room (finish i).
Proof.
  intros w Hw. unfold finish.
  destruct (jobs w !! i) as [j|] eqn:Hj; [|now apply keeps_ret].
  destruct Hw as (Hl & Ho & Hq).
  assert (Hr : job_room j = room).
  { rewrite Forall_lookup in Hq. exact (Hq i j Hj). }
  rewrite <- Hr.
  apply (keeps_complete j (set_jobs (delete i (jobs w)) w)). rewrite Hr.
  split; [exact Hl|]. split; [exact Ho|]. cbn.
  now apply Forall_delete_job.
Qed.

Lemma keeps_awareness_change (room : string) (st : AwState)
    (changes : AwarenessChanges) (origin : Origin) :
  keeps_room room (awareness_change st changes origin).
Proof.
  apply keeps_then;
    [apply keeps_set_states|apply keeps_awareness_emit_update].
Qed.

Lemma keeps_step_run (rootDoc : Doc) (teardowns : list (M unit)) (op : Op) :
  Forall (keeps_room (guid rootDoc)) teardowns ->
  keeps_room (guid rootDoc) (step (data_source rootDoc) teardowns op)
  /\ forall w, Forall (keeps_room (guid rootDoc))
                 (fst (step (data_source rootDoc) teardowns op w)).
Proof.
  intros Ht.
  destruct op as [g options|g update|callback|k|m|a update|i|st changes origin];
    cbn [step data_source ds_queryDocState ds_sendDocUpdate ds_onDocUpdate].
  - split; [apply keeps_then; [apply keeps_queryDocState|apply keeps_ret]|].
    intros w. unfold bind. now destruct (queryDocState _ _ _ _).
  - split; [apply keeps_then; [apply keeps_sendDocUpdate|apply keeps_ret]|].
    intros w. unfold bind. now destruct (sendDocUpdate _ _ _ _).
  - split.
    + apply keeps_bind; [apply keeps_onDocUpdate|]. intros w _.
      apply keeps_ret.
    + intros w. unfold bind.
      pose proof (keeps_teardown rootDoc callback w) as Hb.
      destruct (onDocUpdate rootDoc callback w) as [td w']. cbn.
      apply Forall_app. split; [exact Ht|]. now constructor.
  - destruct (teardowns !! k) as [td|] eqn:Hk.
    + assert (Hb : keeps_room (guid rootDoc) td).
      { rewrite Forall_lookup in Ht. exact (Ht k td Hk). }
      split; [apply keeps_then; [exact Hb|apply keeps_ret]|].
      intros w. unfold bind. now destruct (td w).
    + split; [apply keeps_ret|]. intros w. exact Ht.
  - split; [apply keeps_then; [apply keeps_receive|apply keeps_ret]|].
    intros w. unfold bind. now destruct (receive _ _).
  - split; [apply keeps_then; [apply keeps_receive_ack|apply keeps_ret]|].
    intros w. unfold bind. now destruct (receive_ack _ _ _).
  - split; [apply keeps_then; [apply keeps_finish|apply keeps_ret]|].
    intros w. unfold bind. now destruct (finish _ _).
  - split; [apply keeps_then; [apply keeps_awareness_change|apply keeps_ret]|].
    intros w. unfold bind. now destruct (awareness_change _ _ _ _).
Qed.

Lemma keeps_run (rootDoc : Doc) (ops : list Op) (teardowns : list (M unit)) :
  Forall (keeps_room (guid rootDoc)) teardowns ->
  keeps_room (guid rootDoc) (run (data_source rootDoc) teardowns ops).
Proof.
  revert teardowns. induction ops as [|op ops IH]; intros teardowns Ht;
    cbn [run]; [apply keeps_ret|].
  destruct (keeps_step_run rootDoc teardowns op Ht) as [Hs Hts].
  apply keeps_bind; [exact Hs|]. intros w _. apply IH, Hts.
Qed.

(** ** Freshness is an invariant of every session *)

Lemma steady_ret {A} (a : A) : steady (ret a).
Proof. now intros w. Qed.

Lemma steady_bind {A B} (c : M A) (k : A -> M B) :
  steady c -> (forall a, steady (k a)) -> steady (bind c k).
Proof.
  intros Hc Hk w. unfold bind. specialize (Hc w).
  destruct (c w) as [a w1]. cbn in Hc. specialize (Hk a w1).
  destruct Hc as (E1 & E2 & E3 & E4 & E5).
  rewrite <- E1, <- E2, <- E3, <- E4, <- E5. exact Hk.
Qed.

Lemma steady_trace (e : Effect) : steady (trace e).
Proof. now intros w. Qed.

Lemma steady_gets {A} (f : World -> A) : steady (gets f).
Proof. now intros w. Qed.

Lemma steady_set_states (st : AwState) : steady (modify (set_states st)).
Proof. now intros w. Qed.

Lemma steady_enqueue (j : Job) :
  job_promise j = None -> steady (enqueue j).
Proof.
  intros Hj w. repeat split. cbn. rewrite omap_app. cbn. rewrite Hj.
  apply app_nil_r.
Qed.

Lemma steady_invoke (callback : Callback) (g : string) (update : bytes) :
  steady (invoke callback g update).
Proof. now intros w. Qed.

Lemma steady_settle (p : nat) (s : PromiseState) : steady (settle p s).
Proof.
  intros w. unfold settle. now destruct (promises w !! p) as [[| |]|].
Qed.

Lemma steady_socket_emit (event : string) (payload : Payload) :
  steady (socket_emit event payload).
Proof. now intros w. Qed.

Create HintDb steady.

#[local] Hint Resolve steady_ret steady_trace steady_gets steady_set_states
  steady_enqueue steady_invoke steady_settle steady_socket_emit : steady.

Ltac steady_seq :=
  repeat (apply steady_bind; [auto with steady|intros ?; cbv beta]);
  auto with steady.

Lemma steady_awarenessUpdate (rootDoc : Doc) (changes : AwarenessChanges)
    (origin : Origin) :
  steady (awarenessUpdate rootDoc changes origin).
Proof.
  unfold awarenessUpdate. destruct (is_server origin); [apply steady_ret|].
  apply steady_bind; [apply steady_gets|]. intros st.
  destruct (encodeAwarenessUpdate st _); steady_seq.
Qed.

Lemma steady_notify (l : list AwListener) (changes : AwarenessChanges)
    (origin : Origin) :
  steady (notify l changes origin).
Proof.
  induction l as [|x l IH]; cbn [notify]; [apply steady_ret|].
  apply steady_bind; [apply steady_awarenessUpdate|].
  intros [|e]; [exact IH|apply steady_ret].
Qed.

Lemma steady_awareness_emit_update (changes : AwarenessChanges)
    (origin : Origin) :
  steady (awareness_emit_update changes origin).
Proof. intros w. apply steady_notify. Qed.

Lemma steady_apply_awareness_update (update : bytes) (origin : Origin) :
  steady (apply_awareness_update update origin).
Proof.
  unfold apply_awareness_update.
  apply steady_bind; [apply steady_gets|]. intros st.
  apply steady_bind; [apply steady_trace|]. intros _.
  destruct (applyAwarenessUpdate st update) as [[e st']|[st' [changes|]]];
    (apply steady_bind; [apply steady_set_states|]; intros _);
    [apply steady_ret|apply steady_awareness_emit_update|apply steady_ret].
Qed.

Lemma steady_newClientAwarenessInitHandler (rootDoc : Doc) :
  steady (newClientAwarenessInitHandler rootDoc).
Proof.
  unfold newClientAwarenessInitHandler.
  apply steady_bind; [apply steady_gets|]. intros st.
  apply steady_bind; [apply steady_gets|]. intros self.
  destruct (encodeAwarenessUpdate st _); steady_seq.
Qed.

Lemma steady_run_listener (c : SockCode) (m : Inbound) :
  steady (run_listener c m).
Proof.
  destruct c as [rootDoc callback|rootDoc|rootDoc], m as [ws g u|ws au|];
    cbn [run_listener]; try apply steady_ret;
    try apply steady_newClientAwarenessInitHandler.
  - unfold onUpdate. destruct (ws =? guid rootDoc); [|apply steady_ret].
    destruct (base64ToUint8Array u); steady_seq.
  - unfold awarenessBroadcast.
    destruct (negb (ws =? guid rootDoc)); [apply steady_ret|].
    destruct (base64ToUint8Array au);
      [apply steady_ret|apply steady_apply_awareness_update].
Qed.

Lemma steady_dispatch (l : list SockListener) (m : Inbound) :
  steady (dispatch l m).
Proof.
  induction l as [|x l IH]; cbn [dispatch]; [apply steady_ret|].
  destruct (sl_event x =? event_of m); [|exact IH].
  apply steady_bind; [apply steady_run_listener|].
  intros [|e]; [exact IH|apply steady_ret].
Qed.

Lemma steady_receive (m : Inbound) : steady (receive m).
Proof. intros w. apply steady_dispatch. Qed.

Lemma steady_ack_callback (p : nat) (update : Ack) :
  steady (ack_callback p update).
Proof.
  destruct update as [e|[|c s]|]; cbn [ack_callback];
    unfold reject, resolve; try steady_seq.
  destruct (base64ToUint8Array _); steady_seq.
Qed.

Lemma steady_awareness_change (st : AwState) (changes : AwarenessChanges)
    (origin : Origin) :
  steady (awareness_change st changes origin).
Proof.
  apply steady_bind; [apply steady_set_states|]. intros _.
  apply steady_awareness_emit_update.
Qed.

Lemma wf_steady {A} (c : M A) (w : World) :
  steady c -> wf w -> wf (snd (c w)).
Proof.
  intros Hc Hw. destruct (Hc w) as (El & Eo & Ea & Ef & _).
  unfold wf. now rewrite El, Eo, Ea, Ef.
Qed.

Lemma Forall_below_le {A} (f : A -> nat) (n m : nat) (l : list A) :
  n <= m -> Forall (fun x => f x < n) l -> Forall (fun x => f x < m) l.
Proof.
  intros Hle H. induction H as [|x l Hx _ IH]; constructor; [lia|exact IH].
Qed.

(** Allocating keeps what is registered below the next identity. *)
Lemma wf_grow (w w' : World) (n : nat) :
  wf w -> fresh w <= n ->
  listeners w' = listeners w -> observers w' = observers w ->
  acks w' = acks w -> fresh w' = n ->
  wf w'.
Proof.
  intros (Hl & Ho & Ha) Hn El Eo Ea Ef. unfold wf.
  rewrite El, Eo, Ea, Ef.
  split; [|split]; eapply Forall_below_le; eauto.
Qed.

Lemma wf_socket_emit_ack (event : string) (payload : Payload) (p : nat)
    (w : World) :
  wf w -> wf (snd (socket_emit_ack event payload p w)).
Proof.
  intros (Hl & Ho & Ha). cbn. split; [|split]; cbn.
  - eapply Forall_below_le; [|exact Hl]. lia.
  - eapply Forall_below_le; [|exact Ho]. lia.
  - apply Forall_app. split.
    + eapply Forall_below_le; [|exact Ha]. lia.
    + constructor; [cbn; lia|constructor].
Qed.

Lemma wf_queryDocState (rootDoc : Doc) (g : string)
    (options : option Options) (w : World) :
  wf w -> wf (snd (queryDocState rootDoc g options w)).
Proof.
  intros Hw. destruct (options ≫= stateVector) as [sv|] eqn:E.
  - rewrite (queryDocState_encoding _ _ _ _ _ E).
    apply (wf_grow w _ (S (fresh w)) Hw); [lia|reflexivity..].
  - rewrite (queryDocState_plain _ _ _ _ E).
    destruct Hw as (Hl & Ho & Ha). split; [|split]; cbn.
    + eapply Forall_below_le; [|exact Hl]. lia.
    + eapply Forall_below_le; [|exact Ho]. lia.
    + apply Forall_app. split.
      * eapply Forall_below_le; [|exact Ha]. lia.
      * constructor; [cbn; lia|constructor].
Qed.

Lemma wf_sendDocUpdate (rootDoc : Doc) (g : string) (update : bytes)
    (w : World) :
  wf w -> wf (snd (sendDocUpdate rootDoc g update w)).
Proof.
  intros Hw. rewrite sendDocUpdate_called.
  apply (wf_grow w _ (S (fresh w)) Hw); [lia|reflexivity..].
Qed.

Lemma wf_onDocUpdate (rootDoc : Doc) (callback : Callback) (w : World) :
  wf w -> wf (snd (onDocUpdate rootDoc callback w)).
Proof.
  intros Hw.
  destruct (onDocUpdate_registers rootDoc callback w Hw) as (El & Eo & Ef & _).
  destruct Hw as (Hl & Ho & Ha). unfold wf. rewrite El, Eo, Ef.
  split; [|split].
  - apply Forall_app. split.
    + eapply Forall_below_le; [|exact Hl]. lia.
    + repeat constructor; cbn; lia.
  - apply Forall_app. split.
    + eapply Forall_below_le; [|exact Ho]. lia.
    + repeat constructor; cbn; lia.
  - change (acks (snd (onDocUpdate rootDoc callback w))) with (acks w).
    eapply Forall_below_le; [|exact Ha]. lia.
Qed.

Lemma Forall_filter_observers (P : AwListener -> Prop) (id : nat)
    (l : list AwListener) :
  Forall P l -> Forall P (filter (fun x => al_id x <> id) l).
Proof.
  induction 1 as [|x l Hx _ IH]; [constructor|].
  destruct (decide (al_id x <> id)) as [Hd|Hd].
  - rewrite filter_cons_True by exact Hd. now constructor.
  - now rewrite filter_cons_False by exact Hd.
Qed.

Lemma wf_teardown (rootDoc : Doc) (callback : Callback) (w w' : World) :
  wf w' -> wf (snd (fst (onDocUpdate rootDoc callback w) w')).
Proof.
  intros (Hl & Ho & Ha).
  destruct (teardown_state rootDoc callback w w') as (El & Eo & _ & Ef).
  cbv zeta in *. unfold wf. rewrite El, Eo, Ef. split; [|split].
  - do 3 apply Forall_remove_listener. exact Hl.
  - apply Forall_filter_observers. exact Ho.
  - exact Ha.
Qed.

Lemma wf_receive_ack (a : nat) (update : Ack) (w : World) :
  wf w -> wf (snd (receive_ack a update w)).
Proof.
  intros Hw. unfold receive_ack.
  destruct (find_ack a (acks w)) as [p|]; [|exact Hw].
  apply wf_steady; [apply steady_ack_callback|].
  destruct Hw as (Hl & Ho & Ha). split; [exact Hl|]. split; [exact Ho|].
  cbn. clear Hl Ho. induction Ha as [|x l Hx _ IH]; [constructor|].
  destruct (decide (fst x <> a)) as [Hd|Hd].
  - rewrite filter_cons_True by exact Hd. now constructor.
  - now rewrite filter_cons_False by exact Hd.
Qed.

Lemma wf_complete (j : Job) (w : World) : wf w -> wf (snd (complete j w)).
Proof.
  intros Hw.
  destruct j as [field room update|p room g update|p room g sv];
    cbn [complete]; destruct (uint8ArrayToBase64 _).
  - now apply wf_steady; [apply steady_trace|].
  - now apply wf_steady; [apply steady_socket_emit|].
  - now apply wf_steady; [apply steady_settle|].
  - apply wf_steady; [|exact Hw]. unfold resolve. steady_seq.
  - now apply wf_steady; [apply steady_settle|].
  - unfold bind.
    pose proof (wf_socket_emit_ack "doc-load"
                  (PDocLoad room g (Some s)) p w Hw) as H.
    now destruct (socket_emit_ack _ _ _ w).
Qed.

Lemma wf_finish (i : nat) (w : World) : wf w -> wf (snd (finish i w)).
Proof.
  intros Hw. unfold finish. destruct (jobs w !! i) as [j|]; [|exact Hw].
  apply wf_complete. exact Hw.
Qed.

(** Every event of a session keeps the world well formed, and so does
    every teardown closure the application holds. *)
Lemma wf_step (rootDoc : Doc) (teardowns : list (M unit)) (op : Op)
    (w : World) :
  Forall (fun td : M unit => forall x, wf x -> wf (snd (td x))) teardowns ->
  wf w ->
  wf (snd (step (data_source rootDoc) teardowns op w))
  /\ Forall (fun td : M unit => forall x, wf x -> wf (snd (td x)))
       (fst (step (data_source rootDoc) teardowns op w)).
Proof.
  intros Ht Hw.
  destruct op as [g options|g update|callback|k|m|a update|i|st changes origin];
    cbn [step data_source ds_queryDocState ds_sendDocUpdate ds_onDocUpdate];
    unfold bind.
  - pose proof (wf_queryDocState rootDoc g options w Hw) as H.
    now destruct (queryDocState _ _ _ _).
  - pose proof (wf_sendDocUpdate rootDoc g update w Hw) as H.
    now destruct (sendDocUpdate _ _ _ _).
  - pose proof (wf_onDocUpdate rootDoc callback w Hw) as H.
    pose proof (wf_teardown rootDoc callback w) as Htd.
    destruct (onDocUpdate rootDoc callback w) as [td w']. cbn in *.
    split; [exact H|]. apply Forall_app. split; [exact Ht|].
    now constructor.
  - destruct (teardowns !! k) as [td|] eqn:Hk; [|now split].
    assert (Hb : forall x, wf x -> wf (snd (td x))).
    { rewrite Forall_lookup in Ht. exact (Ht k td Hk). }
    specialize (Hb w Hw). now destruct (td w).
  - pose proof (wf_steady _ w (steady_receive m) Hw) as H.
    now destruct (receive _ _).
  - pose proof (wf_receive_ack a update w Hw) as H.
    now destruct (receive_ack _ _ _).
  - pose proof (wf_finish i w Hw) as H. now destruct (finish _ _).
  - pose proof (wf_steady _ w (steady_awareness_change st changes origin) Hw)
      as H.
    now destruct (awareness_change _ _ _ _).
Qed.

Lemma wf_run (rootDoc : Doc) (ops : list Op) (teardowns : list (M unit))
    (w : World) :
  Forall (fun td : M unit => forall x, wf x -> wf (snd (td x))) teardowns ->
  wf w ->
  wf (snd (run (data_source rootDoc) teardowns ops w)).
Proof.
  revert teardowns w. induction ops as [|op ops IH]; intros teardowns w Ht Hw;
    cbn [run]; [exact Hw|].
  unfold bind. destruct (wf_step rootDoc teardowns op w Ht Hw) as [H1 H2].
  destruct (step _ teardowns op w) as [tds w']. cbn in *. now apply IH.
Qed.

(** Every world a session reaches from a well-formed one is well
    formed. *)
Lemma wf_session (id : string) (rootDoc : Doc) (ops : list Op) (w : World) :
  wf w -> wf (snd (session id rootDoc ops w)).
Proof.
  intros Hw. unfold session, bind. rewrite createAffineDataSource_result.
  apply wf_run; [constructor|]. exact Hw.
Qed.

(** ** Promises referred to are fresh too *)

Lemma tidy_from (w w' : World) :
  tidy w ->
  wf w' ->
  fresh w <= fresh w' ->
  (forall x, x ∈ acks w' -> x ∈ acks w \/ snd x < fresh w') ->
  (forall q, q ∈ omap job_promise (jobs w') ->
             q ∈ omap job_promise (jobs w) \/ q < fresh w') ->
  tidy w'.
Proof.
  intros (_ & Ha & Hj) Hw Hf Hacks Hjobs. split; [exact Hw|]. split.
  - apply Forall_forall. intros x Hx.
    destruct (Hacks x Hx) as [H|H]; [|exact H].
    rewrite Forall_forall in Ha. specialize (Ha x H). lia.
  - apply Forall_forall. intros q Hq.
    destruct (Hjobs q Hq) as [H|H]; [|exact H].
    rewrite Forall_forall in Hj. specialize (Hj q H). lia.
Qed.

Lemma tidy_steady {A} (c : M A) (w : World) :
  steady c -> tidy w -> tidy (snd (c w)).
Proof.
  intros Hc Hw. destruct (Hc w) as (_ & _ & Ea & Ef & Ej).
  apply (tidy_from w); [exact Hw|apply wf_steady; [exact Hc|apply Hw]|lia| |].
  - intros x Hx. left. now rewrite <- Ea.
  - intros q Hq. left. now rewrite <- Ej.
Qed.

Lemma tidy_queryDocState (rootDoc : Doc) (g : string)
    (options : option Options) (w : World) :
  tidy w -> tidy (snd (queryDocState rootDoc g options w)).
Proof.
  intros Hw.
  apply (tidy_from w); [exact Hw|apply wf_queryDocState, Hw| | |];
    destruct (options ≫= stateVector) as [sv|] eqn:E;
    rewrite ?(queryDocState_encoding _ _ _ _ _ E),
            ?(queryDocState_plain _ _ _ _ E); cbn; try lia.
  - intros x Hx. now left.
  - intros x Hx. apply elem_of_app in Hx as [Hx|Hx]; [now left|].
    apply list_elem_of_singleton in Hx. subst x. right. cbn. lia.
  - intros q Hq. rewrite omap_app in Hq.
    apply elem_of_app in Hq as [Hq|Hq]; [now left|].
    apply list_elem_of_singleton in Hq. subst q. right. lia.
  - intros q Hq. now left.
Qed.

Lemma tidy_sendDocUpdate (rootDoc : Doc) (g : string) (update : bytes)
    (w : World) :
  tidy w -> tidy (snd (sendDocUpdate rootDoc g update w)).
Proof.
  intros Hw.
  apply (tidy_from w); [exact Hw|apply wf_sendDocUpdate, Hw| | |];
    rewrite sendDocUpdate_called; cbn; try lia.
  - intros x Hx. now left.
  - intros q Hq. rewrite omap_app in Hq.
    apply elem_of_app in Hq as [Hq|Hq]; [now left|].
    apply list_elem_of_singleton in Hq. subst q. right. lia.
Qed.

Lemma tidy_onDocUpdate (rootDoc : Doc) (callback : Callback) (w : World) :
  tidy w -> tidy (snd (onDocUpdate rootDoc callback w)).
Proof.
  intros Hw.
  apply (tidy_from w); [exact Hw|apply wf_onDocUpdate, Hw| | |].
  - change (fresh (snd (onDocUpdate rootDoc callback w)))
      with (S (S (S (S (fresh w))))). lia.
  - intros x Hx. now left.
  - intros q Hq. now left.
Qed.

Lemma tidy_teardown (rootDoc : Doc) (callback : Callback) (w w' : World) :
  tidy w' -> tidy (snd (fst (onDocUpdate rootDoc callback w) w')).
Proof.
  intros Hw.
  apply (tidy_from w'); [exact Hw|apply wf_teardown, Hw| | |].
  - change (fresh (snd (fst (onDocUpdate rootDoc callback w) w')))
      with (fresh w'). lia.
  - intros x Hx. now left.
  - intros q Hq. now left.
Qed.

Lemma tidy_receive_ack (a : nat) (update : Ack) (w : World) :
  tidy w -> tidy (snd (receive_ack a update w)).
Proof.
  intros Hw. pose proof (wf_receive_ack a update w (proj1 Hw)) as Hwf.
  unfold receive_ack in *.
  destruct (find_ack a (acks w)) as [p|]; [|exact Hw].
  destruct (steady_ack_callback p update
              (set_acks (filter (fun x => fst x <> a) (acks w)) w))
    as (_ & _ & Ea & Ef & Ej).
  apply (tidy_from w); [exact Hw|exact Hwf| | |].
  - rewrite Ef. cbn. lia.
  - intros x Hx. rewrite Ea in Hx. cbn in Hx.
    apply list_elem_of_filter in Hx. left. apply Hx.
  - intros q Hq. rewrite Ej in Hq. now left.
Qed.

Lemma omap_delete_job (i : nat) (l : list Job) (q : nat) :
  q ∈ omap job_promise (delete i l) -> q ∈ omap job_promise l.
Proof.
  rewrite !list_elem_of_omap. intros (j & Hj & E). exists j.
  split; [|exact E]. eapply list_elem_of_delete_inv. exact Hj.
Qed.

Lemma tidy_finish (i : nat) (w : World) : tidy w -> tidy (snd (finish i w)).
Proof.
  intros Hw. pose proof (wf_finish i w (proj1 Hw)) as Hwf.
  unfold finish in *.
  destruct (jobs w !! i) as [j|] eqn:Hi; [|exact Hw].
  assert (Hj : forall p, job_promise j = Some p -> p < fresh w).
  { intros p Hp. destruct Hw as (_ & _ & Hq). rewrite Forall_forall in Hq.
    apply Hq. apply list_elem_of_omap. exists j. split; [|exact Hp].
    eapply list_elem_of_lookup_2. exact Hi. }
  apply (tidy_from w); [exact Hw|exact Hwf| | |];
    destruct j as [field room update|p room g update|p room g sv];
    cbn [complete] in *; destruct (uint8ArrayToBase64 _);
    unfold reject, resolve, bind, socket_emit, socket_emit_ack, trace, settle,
      alloc, ret; cbn;
    repeat match goal with
           | |- context [promises ?x !! ?p] =>
               destruct (promises x !! p) as [[| |]|]; cbn
           end;
    try lia; try (intros x Hx; now left);
    try (intros q Hq; left; now apply (omap_delete_job i)).
  intros x Hx. apply elem_of_app in Hx as [Hx|Hx]; [now left|].
  apply list_elem_of_singleton in Hx. subst x. right. cbn.
  specialize (Hj p eq_refl). lia.
Qed.

Lemma tidy_step (rootDoc : Doc) (teardowns : list (M unit)) (op : Op)
    (w : World) :
  Forall (fun td : M unit => forall x, tidy x -> tidy (snd (td x)))
         teardowns ->
  tidy w ->
  tidy (snd (step (data_source rootDoc) teardowns op w))
  /\ Forall (fun td : M unit => forall x, tidy x -> tidy (snd (td x)))
       (fst (step (data_source rootDoc) teardowns op w)).
Proof.
  intros Ht Hw.
  destruct op as [g options|g update|callback|k|m|a update|i|st changes origin];
    cbn [step data_source ds_queryDocState ds_sendDocUpdate ds_onDocUpdate];
    unfold bind.
  - pose proof (tidy_queryDocState rootDoc g options w Hw) as H.
    now destruct (queryDocState _ _ _ _).
  - pose proof (tidy_sendDocUpdate rootDoc g update w Hw) as H.
    now destruct (sendDocUpdate _ _ _ _).
  - pose proof (tidy_onDocUpdate rootDoc callback w Hw) as H.
    pose proof (tidy_teardown rootDoc callback w) as Htd.
    destruct (onDocUpdate rootDoc callback w) as [td w']. cbn in *.
    split; [exact H|]. apply Forall_app. split; [exact Ht|].
    now constructor.
  - destruct (teardowns !! k) as [td|] eqn:Hk; [|now split].
    assert (Hb : forall x, tidy x -> tidy (snd (td x))).
    { rewrite Forall_lookup in Ht. exact (Ht k td Hk). }
    specialize (Hb w Hw). now destruct (td w).
  - pose proof (tidy_steady _ w (steady_receive m) Hw) as H.
    now destruct (receive _ _).
  - pose proof (tidy_receive_ack a update w Hw) as H.
    now destruct (receive_ack _ _ _).
  - pose proof (tidy_finish i w Hw) as H. now destruct (finish _ _).
  - pose proof (tidy_steady _ w (steady_awareness_change st changes origin) Hw)
      as H.
    now destruct (awareness_change _ _ _ _).
Qed.

Lemma tidy_run (rootDoc : Doc) (ops : list Op) (teardowns : list (M unit))
    (w : World) :
  Forall (fun td : M unit => forall x, tidy x -> tidy (snd (td x)))
         teardowns ->
  tidy w ->
  tidy (snd (run (data_source rootDoc) teardowns ops w)).
Proof.
  revert teardowns w. induction ops as [|op ops IH]; intros teardowns w Ht Hw;
    cbn [run]; [exact Hw|].
  unfold bind. destruct (tidy_step rootDoc teardowns op w Ht Hw) as [H1 H2].
  destruct (step _ teardowns op w) as [tds w']. cbn in *. now apply IH.
Qed.

(** Every world a session reaches from a tidy one is tidy. *)
Lemma tidy_session (id : string) (rootDoc : Doc) (ops : list Op) (w : World) :
  tidy w -> tidy (snd (session id rootDoc ops w)).
Proof.
  intros Hw. unfold session, bind. rewrite createAffineDataSource_result.
  apply tidy_run; [constructor|]. exact Hw.
Qed.

(** ** A request in flight stays in flight *)

(** Handlers settle no promise. *)
Definition keeps_promises {A} (c : M A) : Prop :=
  forall w, promises (snd (c w)) = promises w.

Lemma promises_ret {A} (a : A) : keeps_promises (ret a).
Proof. now intros w. Qed.

Lemma promises_bind {A B} (c : M A) (k : A -> M B) :
  keeps_promises c -> (forall a, keeps_promises (k a)) ->
  keeps_promises (bind c k).
Proof.
  intros Hc Hk w. unfold bind. specialize (Hc w).
  destruct (c w) as [a w1]. cbn in Hc. rewrite <- Hc. apply Hk.
Qed.

Lemma promises_trace (e : Effect) : keeps_promises (trace e).
Proof. now intros w. Qed.

Lemma promises_gets {A} (f : World -> A) : keeps_promises (gets f).
Proof. now intros w. Qed.

Lemma promises_set_states (st : AwState) :
  keeps_promises (modify (set_states st)).
Proof. now intros w. Qed.

Lemma promises_enqueue (j : Job) : keeps_promises (enqueue j).
Proof. now intros w. Qed.

Lemma promises_invoke (callback : Callback) (g : string) (update : bytes) :
  keeps_promises (invoke callback g update).
Proof. now intros w. Qed.

Create HintDb promises.

#[local] Hint Resolve promises_ret promises_trace promises_gets
  promises_set_states promises_enqueue promises_invoke : promises.

Ltac promises_seq :=
  repeat (apply promises_bind; [auto with promises|intros ?; cbv beta]);
  auto with promises.

Lemma promises_awarenessUpdate (rootDoc : Doc) (changes : AwarenessChanges)
    (origin : Origin) :
  keeps_promises (awarenessUpdate rootDoc changes origin).
Proof.
  unfold awarenessUpdate. destruct (is_server origin); [apply promises_ret|].
  apply promises_bind; [apply promises_gets|]. intros st.
  destruct (encodeAwarenessUpdate st _); promises_seq.
Qed.

Lemma promises_notify (l : list AwListener) (changes : AwarenessChanges)
    (origin : Origin) :
  keeps_promises (notify l changes origin).
Proof.
  induction l as [|x l IH]; cbn [notify]; [apply promises_ret|].
  apply promises_bind; [apply promises_awarenessUpdate|].
  intros [|e]; [exact IH|apply promises_ret].
Qed.

Lemma promises_awareness_emit_update (changes : AwarenessChanges)
    (origin : Origin) :
  keeps_promises (awareness_emit_update changes origin).
Proof. intros w. apply promises_notify. Qed.

Lemma promises_apply_awareness_update (update : bytes) (origin : Origin) :
  keeps_promises (apply_awareness_update update origin).
Proof.
  unfold apply_awareness_update.
  apply promises_bind; [apply promises_gets|]. intros st.
  apply promises_bind; [apply promises_trace|]. intros _.
  destruct (applyAwarenessUpdate st update) as [[e st']|[st' [changes|]]];
    (apply promises_bind; [apply promises_set_states|]; intros _);
    [apply promises_ret|apply promises_awareness_emit_update|apply promises_ret].
Qed.

Lemma promises_newClientAwarenessInitHandler (rootDoc : Doc) :
  keeps_promises (newClientAwarenessInitHandler rootDoc).
Proof.
  unfold newClientAwarenessInitHandler.
  apply promises_bind; [apply promises_gets|]. intros st.
  apply promises_bind; [apply promises_gets|]. intros self.
  destruct (encodeAwarenessUpdate st _); promises_seq.
Qed.

Lemma promises_run_listener (c : SockCode) (m : Inbound) :
  keeps_promises (run_listener c m).
Proof.
  destruct c as [rootDoc callback|rootDoc|rootDoc], m as [ws g u|ws au|];
    cbn [run_listener]; try apply promises_ret;
    try apply promises_newClientAwarenessInitHandler.
  - unfold onUpdate. destruct (ws =? guid rootDoc); [|apply promises_ret].
    destruct (base64ToUint8Array u); promises_seq.
  - unfold awarenessBroadcast.
    destruct (negb (ws =? guid rootDoc)); [apply promises_ret|].
    destruct (base64ToUint8Array au);
      [apply promises_ret|apply promises_apply_awareness_update].
Qed.

Lemma promises_dispatch (l : list SockListener) (m : Inbound) :
  keeps_promises (dispatch l m).
Proof.
  induction l as [|x l IH]; cbn [dispatch]; [apply promises_ret|].
  destruct (sl_event x =? event_of m); [|exact IH].
  apply promises_bind; [apply promises_run_listener|].
  intros [|e]; [exact IH|apply promises_ret].
Qed.

Lemma promises_receive (m : Inbound) : keeps_promises (receive m).
Proof. intros w. apply promises_dispatch. Qed.

Lemma promises_awareness_change (st : AwState) (changes : AwarenessChanges)
    (origin : Origin) :
  keeps_promises (awareness_change st changes origin).
Proof.
  apply promises_bind; [apply promises_set_states|]. intros _.
  apply promises_awareness_emit_update.
Qed.

(** Settling another promise leaves this one alone. *)
Lemma settle_other (q p : nat) (s : PromiseState) (w : World) :
  q <> p -> promises (snd (settle q s w)) !! p = promises w !! p.
Proof.
  intros Hne. unfold settle.
  destruct (promises w !! q) as [[| |]|]; cbn; try reflexivity.
  now apply lookup_insert_ne.
Qed.

Lemma ack_callback_other (q p : nat) (update : Ack) (w : World) :
  q <> p ->
  promises (snd (ack_callback q update w)) !! p = promises w !! p.
Proof.
  intros Hne. destruct update as [e|[|c s]|]; cbn [ack_callback];
    unfold bind, reject, resolve, ret.
  - pose proof (settle_other q p (Rejected e) w Hne) as H.
    now destruct (settle q _ w).
  - pose proof (settle_other q p (Fulfilled VFalse) w Hne) as H.
    now destruct (settle q _ w).
  - destruct (base64ToUint8Array _) as [e|decoded]; [reflexivity|].
    pose proof (settle_other q p (Fulfilled (VBytes decoded)) w Hne) as H.
    now destruct (settle q _ w).
  - pose proof (settle_other q p (Fulfilled VFalse) w Hne) as H.
    now destruct (settle q _ w).
Qed.

Lemma find_ack_app (a : nat) (l l' : list (nat * nat)) (p : nat) :
  find_ack a l = Some p -> find_ack a (l ++ l') = Some p.
Proof.
  unfold find_ack. induction l as [|x l IH]; cbn; [discriminate|].
  destruct (fst x =? a)%nat; [trivial|exact IH].
Qed.

Lemma find_ack_elem (a q : nat) (l : list (nat * nat)) :
  find_ack a l = Some q -> (a, q) ∈ l.
Proof.
  unfold find_ack. induction l as [|[b r] l IH]; cbn; [discriminate|].
  destruct (b =? a)%nat eqn:E.
  - cbn. intros [= <-]. apply Nat.eqb_eq in E. subst b. constructor.
  - intros H. constructor. now apply IH.
Qed.

Lemma find_ack_filter (a b : nat) (l : list (nat * nat)) :
  a <> b ->
  find_ack a (filter (fun x => fst x <> b) l) = find_ack a l.
Proof.
  intros Hne. unfold find_ack. induction l as [|x l IH]; [reflexivity|].
  destruct (decide (fst x <> b)) as [Hd|Hd].
  - rewrite filter_cons_True by exact Hd. cbn.
    destruct (fst x =? a)%nat; [reflexivity|exact IH].
  - rewrite filter_cons_False by exact Hd. cbn.
    destruct (fst x =? a)%nat eqn:E; [|exact IH].
    apply Nat.eqb_eq in E. exfalso. apply Hd. congruence.
Qed.

Lemma awaiting_from (a p : nat) (w w' : World) :
  awaiting a p w ->
  fresh w <= fresh w' ->
  promises w' !! p = promises w !! p ->
  find_ack a (acks w') = find_ack a (acks w) ->
  (forall x, x ∈ acks w' -> x ∈ acks w \/ snd x <> p) ->
  (forall q, q ∈ omap job_promise (jobs w') ->
             q ∈ omap job_promise (jobs w) \/ q <> p) ->
  awaiting a p w'.
Proof.
  intros (Ha & Hp & Hs & Hf & Hu & Hj) Hfr Ep Ef Hacks Hjobs.
  split; [lia|]. split; [lia|]. split; [now rewrite Ep|].
  split; [now rewrite Ef|]. split.
  - apply Forall_forall. intros x Hx.
    destruct (Hacks x Hx) as [H|H]; [|intros E; contradiction].
    rewrite Forall_forall in Hu. now apply Hu.
  - apply Forall_forall. intros q Hq.
    destruct (Hjobs q Hq) as [H|H]; [|exact H].
    rewrite Forall_forall in Hj. now apply Hj.
Qed.

Lemma awaiting_steady {A} (a p : nat) (c : M A) (w : World) :
  steady c -> keeps_promises c ->
  awaiting a p w -> awaiting a p (snd (c w)).
Proof.
  intros Hc Hp Hw. destruct (Hc w) as (_ & _ & Ea & Ef & Ej).
  apply (awaiting_from a p w); [exact Hw|lia|now rewrite Hp|now rewrite Ea| |].
  - intros x Hx. left. now rewrite <- Ea.
  - intros q Hq. left. now rewrite <- Ej.
Qed.

Lemma awaiting_queryDocState (a p : nat) (rootDoc : Doc) (g : string)
    (options : option Options) (w : World) :
  awaiting a p w -> awaiting a p (snd (queryDocState rootDoc g options w)).
Proof.
  intros Hw. pose proof Hw as (Ha & Hp & _ & Hf & _).
  apply (awaiting_from a p w); [exact Hw| | | | |];
    destruct (options ≫= stateVector) as [sv|] eqn:E;
    rewrite ?(queryDocState_encoding _ _ _ _ _ E),
            ?(queryDocState_plain _ _ _ _ E); cbn -[find_ack]; try lia;
    try (apply lookup_insert_ne; lia); try reflexivity.
  - rewrite Hf. now apply find_ack_app.
  - intros x Hx. now left.
  - intros x Hx. apply elem_of_app in Hx as [Hx|Hx]; [now left|].
    apply list_elem_of_singleton in Hx. subst x. right. cbn. lia.
  - intros q Hq. rewrite omap_app in Hq.
    apply elem_of_app in Hq as [Hq|Hq]; [now left|].
    apply list_elem_of_singleton in Hq. subst q. right. lia.
  - intros q Hq. now left.
Qed.

Lemma awaiting_sendDocUpdate (a p : nat) (rootDoc : Doc) (g : string)
    (update : bytes) (w : World) :
  awaiting a p w -> awaiting a p (snd (sendDocUpdate rootDoc g update w)).
Proof.
  intros Hw. pose proof Hw as (Ha & Hp & _).
  apply (awaiting_from a p w); [exact Hw| | | | |];
    rewrite sendDocUpdate_called; cbn; try lia; try reflexivity.
  - apply lookup_insert_ne. lia.
  - intros x Hx. now left.
  - intros q Hq. rewrite omap_app in Hq.
    apply elem_of_app in Hq as [Hq|Hq]; [now left|].
    apply list_elem_of_singleton in Hq. subst q. right. lia.
Qed.

Lemma awaiting_onDocUpdate (a p : nat) (rootDoc : Doc) (callback : Callback)
    (w : World) :
  awaiting a p w -> awaiting a p (snd (onDocUpdate rootDoc callback w)).
Proof.
  intros Hw.
  apply (awaiting_from a p w); [exact Hw| |reflexivity|reflexivity| |].
  - change (fresh (snd (onDocUpdate rootDoc callback w)))
      with (S (S (S (S (fresh w))))). lia.
  - intros x Hx. now left.
  - intros q Hq. now left.
Qed.

Lemma awaiting_teardown (a p : nat) (rootDoc : Doc) (callback : Callback)
    (w w' : World) :
  awaiting a p w' ->
  awaiting a p (snd (fst (onDocUpdate rootDoc callback w) w')).
Proof.
  intros Hw.
  apply (awaiting_from a p w');
    [exact Hw|reflexivity|reflexivity|reflexivity| |].
  - intros x Hx. now left.
  - intros q Hq. now left.
Qed.

(** Another acknowledgement settles another promise. *)
Lemma awaiting_receive_ack (a p b : nat) (update : Ack) (w : World) :
  a <> b ->
  awaiting a p w -> awaiting a p (snd (receive_ack b update w)).
Proof.
  intros Hne Hw. unfold receive_ack.
  destruct (find_ack b (acks w)) as [q|] eqn:Hb; [|exact Hw].
  assert (Hq : q <> p).
  { intros ->. apply find_ack_elem in Hb.
    destruct Hw as (_ & _ & _ & _ & Hu & _). rewrite Forall_forall in Hu.
    specialize (Hu (b, p) Hb eq_refl). cbn in Hu. congruence. }
  destruct (steady_ack_callback q update
              (set_acks (filter (fun x => fst x <> b) (acks w)) w))
    as (_ & _ & Ea & Ef & Ej).
  apply (awaiting_from a p w); [exact Hw| | | | |].
  - rewrite Ef. cbn. lia.
  - now rewrite ack_callback_other.
  - rewrite Ea. cbn. now apply find_ack_filter.
  - intros x Hx. rewrite Ea in Hx. cbn in Hx.
    apply list_elem_of_filter in Hx. left. apply Hx.
  - intros r Hr. rewrite Ej in Hr. now left.
Qed.

Lemma awaiting_finish (a p i : nat) (w : World) :
  awaiting a p w -> awaiting a p (snd (finish i w)).
Proof.
  intros Hw. unfold finish.
  destruct (jobs w !! i) as [j|] eqn:Hi; [|exact Hw].
  assert (Hj : forall q, job_promise j = Some q -> q <> p).
  { intros q Hq. destruct Hw as (_ & _ & _ & _ & _ & Hjobs).
    rewrite Forall_forall in Hjobs. apply Hjobs.
    apply list_elem_of_omap. exists j. split; [|exact Hq].
    eapply list_elem_of_lookup_2. exact Hi. }
  pose proof Hw as (Ha & Hp & _ & Hf & _).
  destruct j as [field room update|q room g update|q room g sv];
    cbn [complete]; destruct (uint8ArrayToBase64 _) as [e|encoded].
  - apply (awaiting_from a p w);
      [exact Hw|cbn; lia|reflexivity|reflexivity| |].
    + intros x Hx. now left.
    + intros r Hr. left. now apply (omap_delete_job i).
  - apply (awaiting_from a p w);
      [exact Hw|cbn; lia|reflexivity|reflexivity| |].
    + intros x Hx. now left.
    + intros r Hr. left. now apply (omap_delete_job i).
  - unfold reject.
    pose proof (settle_other q p (Rejected e)
                  (set_jobs (delete i (jobs w)) w) (Hj q eq_refl)) as Hs.
    destruct (steady_settle q (Rejected e) (set_jobs (delete i (jobs w)) w))
      as (_ & _ & Ea & Ef & Ej).
    apply (awaiting_from a p w); [exact Hw| | | | |].
    * rewrite Ef. cbn. lia.
    * exact Hs.
    * now rewrite Ea.
    * intros x Hx. rewrite Ea in Hx. now left.
    * intros r Hr. rewrite Ej in Hr. left. now apply (omap_delete_job i).
  - unfold bind, socket_emit, trace, resolve.
    pose proof (settle_other q p (Fulfilled VUndefined)
                  (set_log
                     (log w ++
                      [EEmit "client-update" (PClientUpdate room g encoded)
                         None])
                     (set_jobs (delete i (jobs w)) w)) (Hj q eq_refl)) as Hs.
    destruct (steady_settle q (Fulfilled VUndefined)
                (set_log
                   (log w ++
                    [EEmit "client-update" (PClientUpdate room g encoded)
                       None])
                   (set_jobs (delete i (jobs w)) w)))
      as (_ & _ & Ea & Ef & Ej).
    apply (awaiting_from a p w); [exact Hw| | | | |].
    * cbn in Ef |- *. rewrite Ef. lia.
    * exact Hs.
    * cbn in Ea |- *. now rewrite Ea.
    * intros x Hx. cbn in Ea, Hx. rewrite Ea in Hx. now left.
    * intros r Hr. cbn in Ej, Hr. rewrite Ej in Hr. left.
      now apply (omap_delete_job i).
  - unfold reject.
    pose proof (settle_other q p (Rejected e)
                  (set_jobs (delete i (jobs w)) w) (Hj q eq_refl)) as Hs.
    destruct (steady_settle q (Rejected e) (set_jobs (delete i (jobs w)) w))
      as (_ & _ & Ea & Ef & Ej).
    apply (awaiting_from a p w); [exact Hw| | | | |].
    * rewrite Ef. cbn. lia.
    * exact Hs.
    * now rewrite Ea.
    * intros x Hx. rewrite Ea in Hx. now left.
    * intros r Hr. rewrite Ej in Hr. left. now apply (omap_delete_job i).
  - apply (awaiting_from a p w);
      [exact Hw|cbn; lia|reflexivity| | |]; cbn -[find_ack].
    + rewrite Hf. now apply find_ack_app.
    + intros x Hx. apply elem_of_app in Hx as [Hx|Hx]; [now left|].
      apply list_elem_of_singleton in Hx. subst x. right. cbn.
      exact (Hj q eq_refl).
    + intros r Hr. left. now apply (omap_delete_job i).
Qed.

(** Every event other than its acknowledgement leaves the request in
    flight, and so does every teardown closure handed out since. *)
Lemma awaiting_step (a p : nat) (rootDoc : Doc) (teardowns : list (M unit))
    (op : Op) (w : World) :
  Forall (fun td : M unit =>
            forall x, awaiting a p x -> awaiting a p (snd (td x)))
         teardowns ->
  acknowledges a op = false ->
  awaiting a p w ->
  awaiting a p (snd (step (data_source rootDoc) teardowns op w))
  /\ Forall (fun td : M unit =>
               forall x, awaiting a p x -> awaiting a p (snd (td x)))
       (fst (step (data_source rootDoc) teardowns op w)).
Proof.
  intros Ht Hop Hw.
  destruct op as [g options|g update|callback|k|m|b update|i|st changes origin];
    cbn [step data_source ds_queryDocState ds_sendDocUpdate ds_onDocUpdate];
    unfold bind.
  - pose proof (awaiting_queryDocState a p rootDoc g options w Hw) as H.
    now destruct (queryDocState _ _ _ _).
  - pose proof (awaiting_sendDocUpdate a p rootDoc g update w Hw) as H.
    now destruct (sendDocUpdate _ _ _ _).
  - pose proof (awaiting_onDocUpdate a p rootDoc callback w Hw) as H.
    pose proof (awaiting_teardown a p rootDoc callback w) as Htd.
    destruct (onDocUpdate rootDoc callback w) as [td w']. cbn in *.
    split; [exact H|]. apply Forall_app. split; [exact Ht|].
    now constructor.
  - destruct (teardowns !! k) as [td|] eqn:Hk; [|now split].
    assert (Hb : forall x, awaiting a p x -> awaiting a p (snd (td x))).
    { rewrite Forall_lookup in Ht. exact (Ht k td Hk). }
    specialize (Hb w Hw). now destruct (td w).
  - pose proof (awaiting_steady a p _ w (steady_receive m)
                  (promises_receive m) Hw) as H.
    now destruct (receive _ _).
  - cbn in Hop. apply Nat.eqb_neq in Hop.
    pose proof (awaiting_receive_ack a p b update w Hop Hw) as H.
    now destruct (receive_ack _ _ _).
  - pose proof (awaiting_finish a p i w Hw) as H. now destruct (finish _ _).
  - pose proof (awaiting_steady a p _ w
                  (steady_awareness_change st changes origin)
                  (promises_awareness_change st changes origin) Hw) as H.
    now destruct (awareness_change _ _ _ _).
Qed.

Lemma awaiting_run (a p : nat) (rootDoc : Doc) (ops : list Op)
    (teardowns : list (M unit)) (w : World) :
  Forall (fun td : M unit =>
            forall x, awaiting a p x -> awaiting a p (snd (td x)))
         teardowns ->
  Forall (fun op => acknowledges a op = false) ops ->
  awaiting a p w ->
  awaiting a p (snd (run (data_source rootDoc) teardowns ops w)).
Proof.
  revert teardowns w.
  induction ops as [|op ops IH]; intros teardowns w Ht Hops Hw;
    cbn [run]; [exact Hw|].
  apply Forall_cons in Hops as [Hop Hops].
  unfold bind.
  destruct (awaiting_step a p rootDoc teardowns op w Ht Hop Hw) as [H1 H2].
  destruct (step _ teardowns op w) as [tds w']. cbn in *. now apply IH.
Qed.

(** Once a request has left a tidy world, it is in flight. *)
Lemma awaiting_requested (rootDoc : Doc) (g : string) (sv : option string)
    (w : World) :
  tidy w ->
  awaiting (S (fresh w)) (fresh w) (requested rootDoc g sv w).
Proof.
  intros ((_ & _ & Ha) & Hs & Hj). unfold awaiting, requested. cbn.
  split; [lia|]. split; [lia|]. split; [apply lookup_insert_eq|].
  split; [apply find_ack_last; eapply Forall_below_ne; [|exact Ha]; lia|].
  split.
  - apply Forall_app. split; [|now repeat constructor].
    eapply Forall_impl; [exact Hs|]. cbn. intros x Hx E. lia.
  - eapply Forall_impl; [exact Hj|]. cbn. intros q Hq. lia.
Qed.

(** The acknowledgement of a request in flight settles its promise. *)
Lemma receive_ack_awaited (a p : nat) (update : Ack) (w : World) :
  awaiting a p w ->
  let w' := snd (receive_ack a update w) in
  match update with
  | AckError e => promises w' !! p = Some (Rejected e)
  | AckNull => promises w' !! p = Some (Fulfilled VFalse)
  | AckString s =>
      (s = "" -> promises w' !! p = Some (Fulfilled VFalse))
      /\ (s <> "" ->
          forall decoded : bytes,
            base64ToUint8Array s = inr decoded ->
            promises w' !! p = Some (Fulfilled (VBytes decoded)))
  end.
Proof.
  intros (_ & _ & Hs & Hf & _). unfold receive_ack. rewrite Hf.
  apply ack_callback_settles. exact Hs.
Qed.

(** C1. A [queryDocState] whose state vector, if given, encodes, sends
    one doc-load for the room and leaves its promise pending. Whatever
    happens between the request and its acknowledgement (other calls,
    other messages, other acknowledgements, in any order), the promise
    is still pending when the acknowledgement arrives, and the
    acknowledgement settles it: an [Error] rejects it with that error,
    [null] (and the empty string) fulfils it with [false], and a
    non-empty string that decodes fulfils it with the decoded bytes. *)
Theorem queryDocState_result (rootDoc : Doc) (g : string)
    (options : option Options) (update : Ack) (w : World)
    (between : list Op) :
  tidy w ->
  (forall sv, options ≫= stateVector = Some sv ->
              exists s, uint8ArrayToBase64 sv = inr s) ->
  Forall (fun op => acknowledges (S (fresh w)) op = false) between ->
  let p := fst (queryDocState rootDoc g options w) in
  let w1 :=
    snd (finish (length (jobs w))
           (snd (queryDocState rootDoc g options w))) in
  let a := S (fresh w) in
  let w2 := snd (run (data_source rootDoc) [] between w1) in
  let w3 := snd (receive_ack a update w2) in
  (exists sv' : option string,
     log w1 =
       log w ++
       [EEmit "doc-load" (PDocLoad (guid rootDoc) g sv') (Some a)])
  /\ promises w1 !! p = Some Pending
  /\ promises w2 !! p = Some Pending
  /\ match update with
     | AckError e => promises w3 !! p = Some (Rejected e)
     | AckNull => promises w3 !! p = Some (Fulfilled VFalse)
     | AckString s =>
         (s = "" -> promises w3 !! p = Some (Fulfilled VFalse))
         /\ (s <> "" ->
             forall decoded : bytes,
               base64ToUint8Array s = inr decoded ->
               promises w3 !! p = Some (Fulfilled (VBytes decoded)))
     end.
Proof.
  intros Hw Henc Hbetween. cbv zeta.
  destruct (queryDocState_requested rootDoc g options w Henc)
    as (-> & sv' & ->).
  split; [exists sv'; reflexivity|].
  split; [apply lookup_insert_eq|].
  pose proof (awaiting_run (S (fresh w)) (fresh w) rootDoc between []
                (requested rootDoc g sv' w) (List.Forall_nil _) Hbetween
                (awaiting_requested rootDoc g sv' w Hw)) as Hrun.
  split; [apply Hrun|].
  now apply receive_ack_awaited.
Qed.

(** ** A session under any room name *)

(** C10. The room name [id] reaches nothing but the warning: whatever
    the application and the server then do, the world a session ends in
    is the same for every [id], and so is everything that was logged
    (hence every message emitted and every listener called), the warning
    of [createAffineDataSource] apart, which is there exactly when [id]
    differs from the guid of the root document. When the handlers found
    on the socket and on the replica are those of this room, every
    message of the session is sent under the guid of the root document
    and every handler left compares with it. *)
Theorem id_only_warns (rootDoc : Doc) (ops : list Op) (w : World) :
  exists (rest : list Effect) (final : World),
    (forall id : string,
       snd (session id rootDoc ops w) =
         set_log (log w ++ warning id rootDoc ++ rest) final
       /\ fst (createAffineDataSource id rootDoc w) = data_source rootDoc)
    /\ (in_room (guid rootDoc) w ->
        Forall (for_room (guid rootDoc)) rest
        /\ in_room (guid rootDoc) final).
Proof.
  pose (r := run (data_source rootDoc) [] ops (set_log [] w)).
  exists (log (snd r)), (snd r). split.
  - intros id. unfold session, bind. rewrite createAffineDataSource_result.
    split; [|reflexivity].
    rewrite (blind_run rootDoc ops [] (List.Forall_nil _)).
    unfold relog. cbn [snd log set_log].
    change (set_log [] (set_log _ w)) with (set_log [] w). fold r.
    now rewrite <- app_assoc.
  - intros Hw.
    destruct (keeps_run rootDoc ops [] (List.Forall_nil _) (set_log [] w) Hw)
      as (Hf & sfx & Hlog & Hsfx).
    fold r in Hf, Hlog. cbn in Hlog. rewrite Hlog. now split.
Qed.

(** * Further properties of the data source *)

(** ** Broadcasts from the server *)

(** [awarenessBroadcast], in any world: a broadcast for another
    workspace is dropped, one that does not decode throws, one that
    decodes is handed to the engine as coming from the server, which
    applies it or throws, and the observers it is announced to send
    nothing back. *)
Lemma awarenessBroadcast_outcome (rootDoc : Doc) (ws au : string) (w : World) :
  awarenessBroadcast rootDoc ws au w =
    if negb (ws =? guid rootDoc) then (Normal, w)
    else match base64ToUint8Array au with
         | inl e => (Throws e, w)
         | inr update =>
             (ending (applyAwarenessUpdate (states w) update),
              set_states
                (state_after (applyAwarenessUpdate (states w) update))
                (set_log
                   (log w ++ [EApplyAwareness update (OriginStr "server")])
                   w))
         end.
Proof.
  unfold awarenessBroadcast.
  destruct (negb (ws =? guid rootDoc)); [reflexivity|].
  destruct (base64ToUint8Array au) as [e|update]; [reflexivity|].
  apply apply_awareness_update_server.
Qed.

(** The listeners of a bridge, called with a broadcast. *)
Lemma dispatch_bridge_broadcast (rootDoc : Doc) (b n : nat) (ws au : string)
    (w : World) :
  dispatch
    [ {| sl_event := "server-awareness-broadcast"; sl_id := b;
         sl_code := CodeAwarenessBroadcast rootDoc |};
      {| sl_event := "new-client-awareness-init"; sl_id := n;
         sl_code := CodeNewClientAwarenessInit rootDoc |} ]
    (ServerAwarenessBroadcast ws au) w =
  awarenessBroadcast rootDoc ws au w.
Proof.
  cbn [dispatch sl_event sl_code event_of run_listener].
  change ("server-awareness-broadcast" =? "server-awareness-broadcast")
    with true.
  change ("new-client-awareness-init" =? "server-awareness-broadcast")
    with false.
  cbv iota. unfold bind.
  destruct (awarenessBroadcast rootDoc ws au w) as [[|e] w']; reflexivity.
Qed.

(** X1. With the bridge set up and no other listener of
    server-awareness-broadcast on the socket, a broadcast for another
    workspace changes nothing at all. One for the room whose payload
    decodes is handed to the engine once, with origin "server". When
    the engine applies it, the handler returns with the replica in the
    new state, and nothing is queued or sent in return, whatever
    observes the replica. When the engine throws, on bytes that are not
    an awareness update, the exception is thrown into the dispatch of
    the socket, with the replica as the engine left it. *)
Theorem broadcast_applied (rootDoc : Doc) (w : World) (ws au : string) :
  Forall (fun x => sl_event x <> "server-awareness-broadcast") (listeners w) ->
  let w1 := snd (setupAffineAwareness rootDoc w) in
  (ws <> guid rootDoc ->
   receive (ServerAwarenessBroadcast ws au) w1 = (Normal, w1))
  /\ (ws = guid rootDoc ->
      forall update : bytes,
        base64ToUint8Array au = inr update ->
        let called :=
          set_log (log w1 ++ [EApplyAwareness update (OriginStr "server")])
            w1 in
        (forall (st' : AwState) (announced : option AwarenessChanges),
           applyAwarenessUpdate (states w1) update = inr (st', announced) ->
           receive (ServerAwarenessBroadcast ws au) w1 =
             (Normal, set_states st' called))
        /\ (forall (e : JsError) (st' : AwState),
              applyAwarenessUpdate (states w1) update = inl (e, st') ->
              receive (ServerAwarenessBroadcast ws au) w1 =
                (Throws e, set_states st' called))).
Proof.
  intros Hl w1. unfold receive.
  rewrite (setupAffineAwareness_listeners rootDoc w : listeners w1 = _).
  rewrite dispatch_skip by exact Hl.
  rewrite dispatch_bridge_broadcast, awarenessBroadcast_outcome.
  clearbody w1. split.
  - intros Hne. apply String.eqb_neq in Hne. now rewrite Hne.
  - intros -> update Hd. rewrite String.eqb_refl, Hd. cbn [negb]. split.
    + intros st' announced Ha. rewrite Ha. reflexivity.
    + intros e st' Ha. rewrite Ha. reflexivity.
Qed.

(** ** Payloads that do not decode *)

(** [onUpdate], in any world. It is an async function: when the
    decoder throws, the call still returns normally. *)
Lemma onUpdate_outcome (rootDoc : Doc) (callback : Callback)
    (ws g payload : string) (w : World) :
  onUpdate rootDoc callback ws g payload w =
    if ws =? guid rootDoc then
      match base64ToUint8Array payload with
      | inr decoded =>
          (Normal,
           set_env (callback g decoded (env w))
             (set_log (log w ++ [ECallback g decoded]) w))
      | inl e => (Normal, set_log (log w ++ [EUnhandledRejection e]) w)
      end
    else (Normal, w).
Proof.
  unfold onUpdate. destruct (ws =? guid rootDoc); [|reflexivity].
  now destruct (base64ToUint8Array payload).
Qed.

(** The listeners of an activation, called with a document update. *)
Lemma dispatch_activation_update (rootDoc : Doc) (callback : Callback)
    (u b n : nat) (ws g payload : string) (w : World) :
  dispatch
    [ {| sl_event := "server-update"; sl_id := u;
         sl_code := CodeOnUpdate rootDoc callback |};
      {| sl_event := "server-awareness-broadcast"; sl_id := b;
         sl_code := CodeAwarenessBroadcast rootDoc |};
      {| sl_event := "new-client-awareness-init"; sl_id := n;
         sl_code := CodeNewClientAwarenessInit rootDoc |} ]
    (ServerUpdate ws g payload) w =
  onUpdate rootDoc callback ws g payload w.
Proof.
  cbn [dispatch sl_event sl_code event_of run_listener].
  change ("server-update" =? "server-update") with true.
  change ("server-awareness-broadcast" =? "server-update") with false.
  change ("new-client-awareness-init" =? "server-update") with false.
  cbv iota. unfold bind. rewrite onUpdate_outcome.
  destruct (ws =? guid rootDoc); [|reflexivity].
  now destruct (base64ToUint8Array payload).
Qed.

(** The listeners of an activation, called with a broadcast. *)
Lemma dispatch_activation_broadcast (rootDoc : Doc) (callback : Callback)
    (u b n : nat) (ws au : string) (w : World) :
  dispatch
    [ {| sl_event := "server-update"; sl_id := u;
         sl_code := CodeOnUpdate rootDoc callback |};
      {| sl_event := "server-awareness-broadcast"; sl_id := b;
         sl_code := CodeAwarenessBroadcast rootDoc |};
      {| sl_event := "new-client-awareness-init"; sl_id := n;
         sl_code := CodeNewClientAwarenessInit rootDoc |} ]
    (ServerAwarenessBroadcast ws au) w =
  awarenessBroadcast rootDoc ws au w.
Proof.
  cbn [dispatch sl_event sl_code event_of run_listener].
  change ("server-update" =? "server-awareness-broadcast") with false.
  change ("server-awareness-broadcast" =? "server-awareness-broadcast")
    with true.
  change ("new-client-awareness-init" =? "server-awareness-broadcast")
    with false.
  cbv iota. unfold bind.
  destruct (awarenessBroadcast rootDoc ws au w) as [[|e] w']; reflexivity.
Qed.

(** X2. After [onDocUpdate], with no other listener of the two events
    on the socket, a message for the room whose payload does not decode
    ends differently on the two paths. A server-update does not reach
    the callback and leaves the caller's state alone; its listener
    returns normally and the error surfaces as an unhandled rejection.
    A server-awareness-broadcast throws the error into the dispatch of
    the socket and leaves the world, the replica included, as it is. *)
Theorem undecodable_payloads (rootDoc : Doc) (callback : Callback)
    (w : World) (g payload : string) (e : JsError) :
  Forall (fun x => sl_event x <> "server-update") (listeners w) ->
  Forall (fun x => sl_event x <> "server-awareness-broadcast") (listeners w) ->
  base64ToUint8Array payload = inl e ->
  let w1 := snd (onDocUpdate rootDoc callback w) in
  receive (ServerUpdate (guid rootDoc) g payload) w1 =
    (Normal, set_log (log w1 ++ [EUnhandledRejection e]) w1)
  /\ receive (ServerAwarenessBroadcast (guid rootDoc) payload) w1 =
       (Throws e, w1).
Proof.
  intros Hu Hb Hd w1. unfold receive.
  rewrite (onDocUpdate_listeners rootDoc callback w : listeners w1 = _).
  rewrite !dispatch_skip by assumption.
  rewrite dispatch_activation_update, dispatch_activation_broadcast.
  rewrite onUpdate_outcome, awarenessBroadcast_outcome.
  clearbody w1. now rewrite String.eqb_refl, Hd.
Qed.

(** ** A query whose state vector does not encode *)

(** X3. When the state vector handed to [queryDocState] does not
    encode, the promise is rejected with the error of the encoder, no
    doc-load leaves, and the socket is left holding no acknowledgement
    callback for the call. *)
Theorem queryDocState_unencodable (rootDoc : Doc) (g : string)
    (options : option Options) (sv : bytes) (e : JsError) (w : World) :
  options ≫= stateVector = Some sv ->
  uint8ArrayToBase64 sv = inl e ->
  let p := fst (queryDocState rootDoc g options w) in
  let w1 := snd (queryDocState rootDoc g options w) in
  let w2 := snd (finish (length (jobs w)) w1) in
  promises w1 !! p = Some Pending
  /\ promises w2 !! p = Some (Rejected e)
  /\ log w2 = log w
  /\ acks w2 = acks w
  /\ jobs w2 = jobs w.
Proof.
  intros Hsv He. cbv zeta.
  rewrite (queryDocState_encoding _ _ _ _ _ Hsv). cbn [fst snd].
  split; [apply lookup_insert_eq|].
  rewrite finish_last. cbn [complete]. rewrite He.
  unfold reject. rewrite settle_pending by apply lookup_insert_eq.
  cbn [snd promises set_promises set_jobs log acks jobs set_fresh].
  split; [apply lookup_insert_eq|]. repeat split; reflexivity.
Qed.

(** ** An acknowledgement that does not decode *)

(** Nothing in the world can settle promise [p] any more: it is
    pending, and no acknowledgement callback and no encoding in flight
    refers to it. *)
Definition stranded (p : nat) (w : World) : Prop :=
  p < fresh w
  /\ promises w !! p = Some Pending
  /\ Forall (fun x => snd x <> p) (acks w)
  /\ Forall (fun q => q <> p) (omap job_promise (jobs w)).

Lemma stranded_from (p : nat) (w w' : World) :
  stranded p w ->
  fresh w <= fresh w' ->
  promises w' !! p = promises w !! p ->
  (forall x, x ∈ acks w' -> x ∈ acks w \/ snd x <> p) ->
  (forall q, q ∈ omap job_promise (jobs w') ->
             q ∈ omap job_promise (jobs w) \/ q <> p) ->
  stranded p w'.
Proof.
  intros (Hp & Hs & Ha & Hj) Hfr Ep Hacks Hjobs.
  split; [lia|]. split; [now rewrite Ep|]. split.
  - apply Forall_forall. intros x Hx.
    destruct (Hacks x Hx) as [H|H]; [|exact H].
    rewrite Forall_forall in Ha. now apply Ha.
  - apply Forall_forall. intros q Hq.
    destruct (Hjobs q Hq) as [H|H]; [|exact H].
    rewrite Forall_forall in Hj. now apply Hj.
Qed.

Lemma stranded_steady {A} (p : nat) (c : M A) (w : World) :
  steady c -> keeps_promises c ->
  stranded p w -> stranded p (snd (c w)).
Proof.
  intros Hc Hp Hw. destruct (Hc w) as (_ & _ & Ea & Ef & Ej).
  apply (stranded_from p w); [exact Hw|lia|now rewrite Hp| |].
  - intros x Hx. left. now rewrite <- Ea.
  - intros q Hq. left. now rewrite <- Ej.
Qed.

Lemma stranded_queryDocState (p : nat) (rootDoc : Doc) (g : string)
    (options : option Options) (w : World) :
  stranded p w -> stranded p (snd (queryDocState rootDoc g options w)).
Proof.
  intros Hw. pose proof Hw as (Hp & _).
  apply (stranded_from p w); [exact Hw| | | |];
    destruct (options ≫= stateVector) as [sv|] eqn:E;
    rewrite ?(queryDocState_encoding _ _ _ _ _ E),
            ?(queryDocState_plain _ _ _ _ E); cbn; try lia;
    try (apply lookup_insert_ne; lia).
  - intros x Hx. now left.
  - intros x Hx. apply elem_of_app in Hx as [Hx|Hx]; [now left|].
    apply list_elem_of_singleton in Hx. subst x. right. cbn. lia.
  - intros q Hq. rewrite omap_app in Hq.
    apply elem_of_app in Hq as [Hq|Hq]; [now left|].
    apply list_elem_of_singleton in Hq. subst q. right. lia.
  - intros q Hq. now left.
Qed.

Lemma stranded_sendDocUpdate (p : nat) (rootDoc : Doc) (g : string)
    (update : bytes) (w : World) :
  stranded p w -> stranded p (snd (sendDocUpdate rootDoc g update w)).
Proof.
  intros Hw. pose proof Hw as (Hp & _).
  apply (stranded_from p w); [exact Hw| | | |];
    rewrite sendDocUpdate_called; cbn; try lia.
  - apply lookup_insert_ne. lia.
  - intros x Hx. now left.
  - intros q Hq. rewrite omap_app in Hq.
    apply elem_of_app in Hq as [Hq|Hq]; [now left|].
    apply list_elem_of_singleton in Hq. subst q. right. lia.
Qed.

Lemma stranded_onDocUpdate (p : nat) (rootDoc : Doc) (callback : Callback)
    (w : World) :
  stranded p w -> stranded p (snd (onDocUpdate rootDoc callback w)).
Proof.
  intros Hw.
  apply (stranded_from p w); [exact Hw| |reflexivity| |].
  - change (fresh (snd (onDocUpdate rootDoc callback w)))
      with (S (S (S (S (fresh w))))). lia.
  - intros x Hx. now left.
  - intros q Hq. now left.
Qed.

Lemma stranded_teardown (p : nat) (rootDoc : Doc) (callback : Callback)
    (w w' : World) :
  stranded p w' ->
  stranded p (snd (fst (onDocUpdate rootDoc callback w) w')).
Proof.
  intros Hw.
  apply (stranded_from p w'); [exact Hw|reflexivity|reflexivity| |].
  - intros x Hx. now left.
  - intros q Hq. now left.
Qed.

Lemma stranded_receive_ack (p b : nat) (update : Ack) (w : World) :
  stranded p w -> stranded p (snd (receive_ack b update w)).
Proof.
  intros Hw. unfold receive_ack.
  destruct (find_ack b (acks w)) as [q|] eqn:Hb; [|exact Hw].
  assert (Hq : q <> p).
  { apply find_ack_elem in Hb. destruct Hw as (_ & _ & Ha & _).
    rewrite Forall_forall in Ha. exact (Ha (b, q) Hb). }
  destruct (steady_ack_callback q update
              (set_acks (filter (fun x => fst x <> b) (acks w)) w))
    as (_ & _ & Ea & Ef & Ej).
  apply (stranded_from p w); [exact Hw| | | |].
  - rewrite Ef. cbn. lia.
  - now rewrite ack_callback_other.
  - intros x Hx. rewrite Ea in Hx. cbn in Hx.
    apply list_elem_of_filter in Hx. left. apply Hx.
  - intros r Hr. rewrite Ej in Hr. now left.
Qed.

Lemma stranded_finish (p i : nat) (w : World) :
  stranded p w -> stranded p (snd (finish i w)).
Proof.
  intros Hw. unfold finish.
  destruct (jobs w !! i) as [j|] eqn:Hi; [|exact Hw].
  assert (Hj : forall q, job_promise j = Some q -> q <> p).
  { intros q Hq. destruct Hw as (_ & _ & _ & Hjobs).
    rewrite Forall_forall in Hjobs. apply Hjobs.
    apply list_elem_of_omap. exists j. split; [|exact Hq].
    eapply list_elem_of_lookup_2. exact Hi. }
  pose proof Hw as (Hp & _).
  destruct j as [field room update|q room g update|q room g sv];
    cbn [complete]; destruct (uint8ArrayToBase64 _) as [e|encoded].
  - apply (stranded_from p w); [exact Hw|cbn; lia|reflexivity| |].
    + intros x Hx. now left.
    + intros r Hr. left. now apply (omap_delete_job i).
  - apply (stranded_from p w); [exact Hw|cbn; lia|reflexivity| |].
    + intros x Hx. now left.
    + intros r Hr. left. now apply (omap_delete_job i).
  - unfold reject.
    pose proof (settle_other q p (Rejected e)
                  (set_jobs (delete i (jobs w)) w) (Hj q eq_refl)) as Hs.
    destruct (steady_settle q (Rejected e) (set_jobs (delete i (jobs w)) w))
      as (_ & _ & Ea & Ef & Ej).
    apply (stranded_from p w); [exact Hw| | | |].
    * rewrite Ef. cbn. lia.
    * exact Hs.
    * intros x Hx. rewrite Ea in Hx. now left.
    * intros r Hr. rewrite Ej in Hr. left. now apply (omap_delete_job i).
  - unfold bind, socket_emit, trace, resolve.
    pose proof (settle_other q p (Fulfilled VUndefined)
                  (set_log
                     (log w ++
                      [EEmit "client-update" (PClientUpdate room g encoded)
                         None])
                     (set_jobs (delete i (jobs w)) w)) (Hj q eq_refl)) as Hs.
    destruct (steady_settle q (Fulfilled VUndefined)
                (set_log
                   (log w ++
                    [EEmit "client-update" (PClientUpdate room g encoded)
                       None])
                   (set_jobs (delete i (jobs w)) w)))
      as (_ & _ & Ea & Ef & Ej).
    apply (stranded_from p w); [exact Hw| | | |].
    * cbn in Ef |- *. rewrite Ef. lia.
    * exact Hs.
    * intros x Hx. cbn in Ea, Hx. rewrite Ea in Hx. now left.
    * intros r Hr. cbn in Ej, Hr. rewrite Ej in Hr. left.
      now apply (omap_delete_job i).
  - unfold reject.
    pose proof (settle_other q p (Rejected e)
                  (set_jobs (delete i (jobs w)) w) (Hj q eq_refl)) as Hs.
    destruct (steady_settle q (Rejected e) (set_jobs (delete i (jobs w)) w))
      as (_ & _ & Ea & Ef & Ej).
    apply (stranded_from p w); [exact Hw| | | |].
    * rewrite Ef. cbn. lia.
    * exact Hs.
    * intros x Hx. rewrite Ea in Hx. now left.
    * intros r Hr. rewrite Ej in Hr. left. now apply (omap_delete_job i).
  - apply (stranded_from p w); [exact Hw|cbn; lia|reflexivity| |]; cbn.
    + intros x Hx. apply elem_of_app in Hx as [Hx|Hx]; [now left|].
      apply list_elem_of_singleton in Hx. subst x. right. cbn.
      exact (Hj q eq_refl).
    + intros r Hr. left. now apply (omap_delete_job i).
Qed.

Lemma stranded_step (p : nat) (rootDoc : Doc) (teardowns : list (M unit))
    (op : Op) (w : World) :
  Forall (fun td : M unit =>
            forall x, stranded p x -> stranded p (snd (td x)))
         teardowns ->
  stranded p w ->
  stranded p (snd (step (data_source rootDoc) teardowns op w))
  /\ Forall (fun td : M unit =>
               forall x, stranded p x -> stranded p (snd (td x)))
       (fst (step (data_source rootDoc) teardowns op w)).
Proof.
  intros Ht Hw.
  destruct op as [g options|g update|callback|k|m|b update|i|st changes origin];
    cbn [step data_source ds_queryDocState ds_sendDocUpdate ds_onDocUpdate];
    unfold bind.
  - pose proof (stranded_queryDocState p rootDoc g options w Hw) as H.
    now destruct (queryDocState _ _ _ _).
  - pose proof (stranded_sendDocUpdate p rootDoc g update w Hw) as H.
    now destruct (sendDocUpdate _ _ _ _).
  - pose proof (stranded_onDocUpdate p rootDoc callback w Hw) as H.
    pose proof (stranded_teardown p rootDoc callback w) as Htd.
    destruct (onDocUpdate rootDoc callback w) as [td w']. cbn in *.
    split; [exact H|]. apply Forall_app. split; [exact Ht|].
    now constructor.
  - destruct (teardowns !! k) as [td|] eqn:Hk; [|now split].
    assert (Hb : forall x, stranded p x -> stranded p (snd (td x))).
    { rewrite Forall_lookup in Ht. exact (Ht k td Hk). }
    specialize (Hb w Hw). now destruct (td w).
  - pose proof (stranded_steady p _ w (steady_receive m)
                  (promises_receive m) Hw) as H.
    now destruct (receive _ _).
  - pose proof (stranded_receive_ack p b update w Hw) as H.
    now destruct (receive_ack _ _ _).
  - pose proof (stranded_finish p i w Hw) as H. now destruct (finish _ _).
  - pose proof (stranded_steady p _ w
                  (steady_awareness_change st changes origin)
                  (promises_awareness_change st changes origin) Hw) as H.
    now destruct (awareness_change _ _ _ _).
Qed.

Lemma stranded_run (p : nat) (rootDoc : Doc) (ops : list Op)
    (teardowns : list (M unit)) (w : World) :
  Forall (fun td : M unit =>
            forall x, stranded p x -> stranded p (snd (td x)))
         teardowns ->
  stranded p w ->
  stranded p (snd (run (data_source rootDoc) teardowns ops w)).
Proof.
  revert teardowns w.
  induction ops as [|op ops IH]; intros teardowns w Ht Hw;
    cbn [run]; [exact Hw|].
  unfold bind.
  destruct (stranded_step p rootDoc teardowns op w Ht Hw) as [H1 H2].
  destruct (step _ teardowns op w) as [tds w']. cbn in *. now apply IH.
Qed.

(** The acknowledgement of a request that left a tidy world, when it
    is a string the decoder refuses. *)
Lemma receive_ack_undecodable (rootDoc : Doc) (g : string)
    (sv : option string) (s : string) (e : JsError) (w : World) :
  tidy w ->
  s <> "" ->
  base64ToUint8Array s = inl e ->
  let r := receive_ack (S (fresh w)) (AckString s) (requested rootDoc g sv w) in
  fst r = Throws e /\ stranded (fresh w) (snd r).
Proof.
  intros ((_ & _ & Ha) & Hs & Hj) Hne Hd. cbv zeta.
  unfold receive_ack. cbn [acks requested set_log set_acks].
  rewrite find_ack_last by (eapply Forall_below_ne; [|exact Ha]; lia).
  destruct s as [|c s]; [congruence|]. cbn [ack_callback]. rewrite Hd.
  split; [reflexivity|]. unfold ret. cbn [snd].
  split; [cbn; lia|]. split; [apply lookup_insert_eq|]. split.
  - cbn. apply Forall_forall. intros x Hx.
    apply list_elem_of_filter in Hx as [Hx1 Hx2].
    apply elem_of_app in Hx2 as [Hx2|Hx2].
    + rewrite Forall_forall in Hs. specialize (Hs x Hx2). lia.
    + apply list_elem_of_singleton in Hx2. subst x. cbn in Hx1. congruence.
  - cbn. eapply Forall_impl; [exact Hj|]. cbn. intros q Hq. lia.
Qed.

(** X4. A doc-load acknowledged with a non-empty string that the
    decoder refuses settles nothing: the acknowledgement callback throws
    the error of the decoder before it resolves, and the promise of
    [queryDocState] is pending and stays pending whatever happens
    afterwards, as long as the request is not acknowledged a second
    time. *)
Theorem undecodable_ack_strands (rootDoc : Doc) (g : string)
    (options : option Options) (s : string) (e : JsError) (w : World)
    (afterwards : list Op) :
  tidy w ->
  (forall sv, options ≫= stateVector = Some sv ->
              exists encoded, uint8ArrayToBase64 sv = inr encoded) ->
  s <> "" ->
  base64ToUint8Array s = inl e ->
  Forall (fun op => acknowledges (S (fresh w)) op = false) afterwards ->
  let p := fst (queryDocState rootDoc g options w) in
  let w1 :=
    snd (finish (length (jobs w))
           (snd (queryDocState rootDoc g options w))) in
  let r := receive_ack (S (fresh w)) (AckString s) w1 in
  let w3 := snd (run (data_source rootDoc) [] afterwards (snd r)) in
  fst r = Throws e
  /\ promises (snd r) !! p = Some Pending
  /\ promises w3 !! p = Some Pending.
Proof.
  intros Hw Henc Hne Hd _. cbv zeta.
  destruct (queryDocState_requested rootDoc g options w Henc)
    as (-> & sv' & ->).
  destruct (receive_ack_undecodable rootDoc g sv' s e w Hw Hne Hd)
    as [Hthrow Hstr].
  split; [exact Hthrow|]. split; [apply Hstr|].
  apply (stranded_run (fresh w) rootDoc afterwards []); [constructor|].
  exact Hstr.
Qed.

(** ** What is registered, and the connection *)

(** A computation registers and releases nothing and leaves the
    connection as it is. *)
Definition hands_off {A} (c : M A) : Prop :=
  forall w, listeners (snd (c w)) = listeners w
            /\ observers (snd (c w)) = observers w
            /\ connected (snd (c w)) = connected w.

(** The events other than an activation and a teardown. *)
Definition quiet (op : Op) : bool :=
  match op with
  | CallOnDocUpdate _ | CallTeardown _ => false
  | _ => true
  end.

Lemma hands_off_ret {A} (a : A) : hands_off (ret a).
Proof. now intros w. Qed.

Lemma hands_off_bind {A B} (c : M A) (k : A -> M B) :
  hands_off c -> (forall a, hands_off (k a)) -> hands_off (bind c k).
Proof.
  intros Hc Hk w. unfold bind. destruct (Hc w) as (H1 & H2 & H3).
  destruct (c w) as [a w1]. cbn [snd] in *.
  destruct (Hk a w1) as (K1 & K2 & K3). rewrite K1, K2, K3. now split.
Qed.

Lemma hands_off_trace (e : Effect) : hands_off (trace e).
Proof. now intros w. Qed.

Lemma hands_off_alloc : hands_off alloc.
Proof. now intros w. Qed.

Lemma hands_off_gets {A} (f : World -> A) : hands_off (gets f).
Proof. now intros w. Qed.

Lemma hands_off_set_states (st : AwState) : hands_off (modify (set_states st)).
Proof. now intros w. Qed.

Lemma hands_off_enqueue (j : Job) : hands_off (enqueue j).
Proof. now intros w. Qed.

Lemma hands_off_invoke (callback : Callback) (g : string) (update : bytes) :
  hands_off (invoke callback g update).
Proof. now intros w. Qed.

Lemma hands_off_new_promise : hands_off new_promise.
Proof. now intros w. Qed.

Lemma hands_off_socket_emit (event : string) (payload : Payload) :
  hands_off (socket_emit event payload).
Proof. now intros w. Qed.

Lemma hands_off_socket_emit_ack (event : string) (payload : Payload)
    (p : nat) :
  hands_off (socket_emit_ack event payload p).
Proof. now intros w. Qed.

Lemma hands_off_settle (p : nat) (s : PromiseState) : hands_off (settle p s).
Proof.
  intros w. unfold settle. now destruct (promises w !! p) as [[| |]|].
Qed.

Create HintDb hands.

#[local] Hint Resolve hands_off_ret hands_off_trace hands_off_alloc
  hands_off_gets hands_off_set_states hands_off_enqueue hands_off_invoke
  hands_off_new_promise hands_off_socket_emit hands_off_socket_emit_ack
  hands_off_settle : hands.

Ltac hands_seq :=
  repeat (apply hands_off_bind; [auto with hands|intros ?; cbv beta]);
  auto with hands.

Lemma hands_off_awarenessUpdate (rootDoc : Doc) (changes : AwarenessChanges)
    (origin : Origin) :
  hands_off (awarenessUpdate rootDoc changes origin).
Proof.
  unfold awarenessUpdate. destruct (is_server origin); [apply hands_off_ret|].
  apply hands_off_bind; [apply hands_off_gets|]. intros st.
  destruct (encodeAwarenessUpdate st _); hands_seq.
Qed.

Lemma hands_off_notify (l : list AwListener) (changes : AwarenessChanges)
    (origin : Origin) :
  hands_off (notify l changes origin).
Proof.
  induction l as [|x l IH]; cbn [notify]; [apply hands_off_ret|].
  apply hands_off_bind; [apply hands_off_awarenessUpdate|].
  intros [|e]; [exact IH|apply hands_off_ret].
Qed.

Lemma hands_off_awareness_emit_update (changes : AwarenessChanges)
    (origin : Origin) :
  hands_off (awareness_emit_update changes origin).
Proof. intros w. apply hands_off_notify. Qed.

Lemma hands_off_apply_awareness_update (update : bytes) (origin : Origin) :
  hands_off (apply_awareness_update update origin).
Proof.
  unfold apply_awareness_update.
  apply hands_off_bind; [apply hands_off_gets|]. intros st.
  apply hands_off_bind; [apply hands_off_trace|]. intros _.
  destruct (applyAwarenessUpdate st update) as [[e st']|[st' [changes|]]];
    (apply hands_off_bind; [apply hands_off_set_states|]; intros _);
    [apply hands_off_ret|apply hands_off_awareness_emit_update|apply hands_off_ret].
Qed.

Lemma hands_off_newClientAwarenessInitHandler (rootDoc : Doc) :
  hands_off (newClientAwarenessInitHandler rootDoc).
Proof.
  unfold newClientAwarenessInitHandler.
  apply hands_off_bind; [apply hands_off_gets|]. intros st.
  apply hands_off_bind; [apply hands_off_gets|]. intros self.
  destruct (encodeAwarenessUpdate st _); hands_seq.
Qed.

Lemma hands_off_run_listener (c : SockCode) (m : Inbound) :
  hands_off (run_listener c m).
Proof.
  destruct c as [rootDoc callback|rootDoc|rootDoc], m as [ws g u|ws au|];
    cbn [run_listener]; try apply hands_off_ret;
    try apply hands_off_newClientAwarenessInitHandler.
  - unfold onUpdate. destruct (ws =? guid rootDoc); [|apply hands_off_ret].
    destruct (base64ToUint8Array u); hands_seq.
  - unfold awarenessBroadcast.
    destruct (negb (ws =? guid rootDoc)); [apply hands_off_ret|].
    destruct (base64ToUint8Array au);
      [apply hands_off_ret|apply hands_off_apply_awareness_update].
Qed.

Lemma hands_off_dispatch (l : list SockListener) (m : Inbound) :
  hands_off (dispatch l m).
Proof.
  induction l as [|x l IH]; cbn [dispatch]; [apply hands_off_ret|].
  destruct (sl_event x =? event_of m); [|exact IH].
  apply hands_off_bind; [apply hands_off_run_listener|].
  intros [|e]; [exact IH|apply hands_off_ret].
Qed.

Lemma hands_off_receive (m : Inbound) : hands_off (receive m).
Proof. intros w. apply hands_off_dispatch. Qed.

Lemma hands_off_awareness_change (st : AwState) (changes : AwarenessChanges)
    (origin : Origin) :
  hands_off (awareness_change st changes origin).
Proof.
  apply hands_off_bind; [apply hands_off_set_states|]. intros _.
  apply hands_off_awareness_emit_update.
Qed.

Lemma hands_off_ack_callback (p : nat) (update : Ack) :
  hands_off (ack_callback p update).
Proof.
  destruct update as [e|[|c s]|]; cbn [ack_callback];
    unfold reject, resolve; try hands_seq.
  destruct (base64ToUint8Array _); hands_seq.
Qed.

Lemma hands_off_receive_ack (a : nat) (update : Ack) :
  hands_off (receive_ack a update).
Proof.
  intros w. unfold receive_ack.
  destruct (find_ack a (acks w)) as [p|]; [|now split].
  apply (hands_off_ack_callback p update
           (set_acks (filter (fun x => fst x <> a) (acks w)) w)).
Qed.

Lemma hands_off_complete (j : Job) : hands_off (complete j).
Proof.
  destruct j as [field room update|p room g update|p room g sv];
    cbn [complete]; destruct (uint8ArrayToBase64 _);
    unfold reject, resolve; hands_seq.
Qed.

Lemma hands_off_finish (i : nat) : hands_off (finish i).
Proof.
  intros w. unfold finish. destruct (jobs w !! i) as [j|]; [|now split].
  apply (hands_off_complete j (set_jobs (delete i (jobs w)) w)).
Qed.

Lemma hands_off_queryDocState (rootDoc : Doc) (g : string)
    (options : option Options) :
  hands_off (queryDocState rootDoc g options).
Proof.
  unfold queryDocState. destruct (options ≫= stateVector); hands_seq.
Qed.

Lemma hands_off_sendDocUpdate (rootDoc : Doc) (g : string) (update : bytes) :
  hands_off (sendDocUpdate rootDoc g update).
Proof. unfold sendDocUpdate. hands_seq. Qed.

Lemma hands_off_step (rootDoc : Doc) (teardowns : list (M unit)) (op : Op) :
  quiet op = true ->
  hands_off (step (data_source rootDoc) teardowns op)
  /\ forall w, fst (step (data_source rootDoc) teardowns op w) = teardowns.
Proof.
  intros Hq.
  destruct op as [g options|g update|callback|k|m|a update|i|st changes origin];
    try discriminate Hq;
    cbn [step data_source ds_queryDocState ds_sendDocUpdate ds_onDocUpdate];
    (split; [apply hands_off_bind; [|intros ?; apply hands_off_ret]|
             intros w; unfold bind]).
  - apply hands_off_queryDocState.
  - now destruct (queryDocState _ _ _ _).
  - apply hands_off_sendDocUpdate.
  - now destruct (sendDocUpdate _ _ _ _).
  - apply hands_off_receive.
  - now destruct (receive _ _).
  - apply hands_off_receive_ack.
  - now destruct (receive_ack _ _ _).
  - apply hands_off_finish.
  - now destruct (finish _ _).
  - apply hands_off_awareness_change.
  - now destruct (awareness_change _ _ _ _).
Qed.

Lemma hands_off_run (rootDoc : Doc) (ops : list Op)
    (teardowns : list (M unit)) :
  Forall (fun op => quiet op = true) ops ->
  hands_off (run (data_source rootDoc) teardowns ops).
Proof.
  induction 1 as [|op ops Hop _ IH]; cbn [run]; [apply hands_off_ret|].
  destruct (hands_off_step rootDoc teardowns op Hop) as [Hs Ht].
  intros w. unfold bind. destruct (Hs w) as (H1 & H2 & H3).
  specialize (Ht w). destruct (step _ teardowns op w) as [tds w1].
  cbn [fst snd] in *. subst tds.
  destruct (IH w1) as (K1 & K2 & K3). rewrite K1, K2, K3. now split.
Qed.

(** X5. A data source registers nothing and does not open the
    connection of its own accord: in a session in which [onDocUpdate] is
    not called, whatever is queried, sent, received, acknowledged or
    changed, the listeners of the socket, the observers of the replica
    and the state of the connection are those found at the start. *)
Theorem registers_on_activation_only (id : string) (rootDoc : Doc)
    (ops : list Op) (w : World) :
  Forall (fun op => quiet op = true) ops ->
  let w' := snd (session id rootDoc ops w) in
  listeners w' = listeners w
  /\ observers w' = observers w
  /\ connected w' = connected w.
Proof.
  intros Hq. cbv zeta. unfold session, bind.
  rewrite createAffineDataSource_result. cbn [fst snd].
  destruct (hands_off_run rootDoc ops [] Hq
              (set_log (log w ++ warning id rootDoc) w)) as (H1 & H2 & H3).
  rewrite H1, H2, H3. now split.
Qed.

(** ** A teardown, later *)

(** The teardown of an activation, run in a world that has its three
    handlers and its observer where the activation left them, whatever
    was registered after them. *)
Lemma teardown_releases_later (rootDoc : Doc) (callback : Callback)
    (w w' : World) (ls : list SockListener) (os : list AwListener) :
  wf w ->
  let h := fresh w in
  let w1 := snd (onDocUpdate rootDoc callback w) in
  listeners w' = listeners w1 ++ ls ->
  observers w' = observers w1 ++ os ->
  Forall (fun x => al_id x <> S (S h)) os ->
  let w2 := snd (fst (onDocUpdate rootDoc callback w) w') in
  listeners w2 = listeners w ++ ls
  /\ observers w2 = observers w ++ os
  /\ connected w2 = false.
Proof.
  intros Hwf h w1 El Eo Hos w2.
  destruct (onDocUpdate_registers rootDoc callback w Hwf)
    as (Hl & Ho & _).
  destruct (teardown_state rootDoc callback w w') as (Tl & To & Tc & _).
  destruct Hwf as (Hwl & Hwo & _).
  fold w1 in Hl, Ho. fold w2 in Tl, To, Tc. fold h in Hl, Ho, Tl, To.
  rewrite Tl, To, Tc, El, Eo, Hl, Ho. repeat split.
  - rewrite <- !app_assoc.
    rewrite remove_listener_app
      by (eapply Forall_below_ne; [|exact Hwl]; lia).
    cbn [app]. rewrite remove_listener_hit.
    rewrite remove_listener_app
      by (eapply Forall_below_ne; [|exact Hwl]; lia).
    rewrite remove_listener_hit.
    rewrite remove_listener_app
      by (eapply Forall_below_ne; [|exact Hwl]; lia).
    now rewrite remove_listener_hit.
  - rewrite filter_app, filter_observers_last
      by (eapply Forall_below_ne; [|exact Hwo]; lia).
    now rewrite filter_observers_miss.
Qed.

Lemma dispatch_nil (m : Inbound) (w : World) :
  listeners w = [] -> receive m w = (Normal, w).
Proof. intros H. unfold receive. now rewrite H. Qed.

Lemma awareness_change_unobserved (st : AwState) (changes : AwarenessChanges)
    (origin : Origin) (w : World) :
  observers w = [] ->
  awareness_change st changes origin w = (Normal, set_states st w).
Proof.
  intros H. unfold awareness_change, awareness_emit_update, modify, bind.
  change (observers (set_states st w)) with (observers w). now rewrite H.
Qed.

(** X6. Between an activation and its teardown, events that neither
    activate nor tear down register and release nothing; the teardown,
    whenever it comes, releases what the activation registered, so that
    the listeners and observers are again those found before the
    activation, and calls [disconnect]. When there were none before, a
    message or a change of the replica that comes after the teardown
    reaches no handler. *)
Theorem teardown_after_events (rootDoc : Doc) (callback : Callback)
    (w : World) (between : list Op) :
  wf w ->
  Forall (fun op => quiet op = true) between ->
  let td := fst (onDocUpdate rootDoc callback w) in
  let w1 := snd (onDocUpdate rootDoc callback w) in
  let w2 := snd (run (data_source rootDoc) [td] between w1) in
  let w3 := snd (td w2) in
  listeners w2 = listeners w1
  /\ observers w2 = observers w1
  /\ listeners w3 = listeners w
  /\ observers w3 = observers w
  /\ connected w3 = false
  /\ (listeners w = [] -> observers w = [] ->
      forall (m : Inbound) (st : AwState) (changes : AwarenessChanges)
             (origin : Origin),
        receive m w3 = (Normal, w3)
        /\ awareness_change st changes origin w3 = (Normal, set_states st w3)).
Proof.
  intros Hwf Hq td w1 w2 w3.
  destruct (hands_off_run rootDoc between [td] Hq w1) as (H1 & H2 & H3).
  fold w2 in H1, H2, H3.
  destruct (teardown_releases_later rootDoc callback w w2 [] [] Hwf)
    as (R1 & R2 & R3).
  - fold w1. now rewrite app_nil_r.
  - fold w1. now rewrite app_nil_r.
  - constructor.
  - fold td w3 in R1, R2, R3. rewrite app_nil_r in R1, R2.
    split; [exact H1|]. split; [exact H2|].
    split; [exact R1|]. split; [exact R2|].
    split; [exact R3|]. intros Hl Ho m st changes origin. split.
    + apply dispatch_nil. now rewrite R1.
    + apply awareness_change_unobserved. now rewrite R2.
Qed.

(** X7. Activations share the socket. With two activations, the
    teardown of the first releases the handlers of the first and leaves
    those of the second registered, on the socket and on the replica,
    but disconnects the socket under them. *)
Theorem teardown_disconnects_shared_socket (rootDoc : Doc)
    (first second : Callback) (w : World) :
  wf w ->
  let td := fst (onDocUpdate rootDoc first w) in
  let w1 := snd (onDocUpdate rootDoc first w) in
  let w2 := snd (onDocUpdate rootDoc second w1) in
  let w3 := snd (td w2) in
  let h := fresh w1 in
  connected w2 = true
  /\ listeners w3 =
       listeners w ++
       [ {| sl_event := "server-update"; sl_id := h;
            sl_code := CodeOnUpdate rootDoc second |};
         {| sl_event := "server-awareness-broadcast"; sl_id := S h;
            sl_code := CodeAwarenessBroadcast rootDoc |};
         {| sl_event := "new-client-awareness-init"; sl_id := S (S (S h));
            sl_code := CodeNewClientAwarenessInit rootDoc |} ]
  /\ observers w3 =
       observers w ++ [ {| al_id := S (S h); al_rootDoc := rootDoc |} ]
  /\ connected w3 = false.
Proof.
  intros Hwf td w1 w2 w3 h.
  pose proof (wf_onDocUpdate rootDoc first w Hwf) as Hwf1. fold w1 in Hwf1.
  destruct (onDocUpdate_registers rootDoc second w1 Hwf1)
    as (Hl & Ho & _ & Hc).
  fold w2 h in Hl, Ho, Hc.
  destruct (onDocUpdate_registers rootDoc first w Hwf) as (_ & _ & Hf & _).
  fold w1 in Hf.
  destruct (teardown_releases_later rootDoc first w w2 _ _ Hwf Hl Ho)
    as (R1 & R2 & R3).
  - constructor; [|constructor]. subst h. rewrite Hf. cbn. lia.
  - fold td w3 in R1, R2, R3. now split.
Qed.

Lemma onDocUpdate_observes (rootDoc : Doc) (callback : Callback) (w : World) :
  observers w = [] ->
  observers (snd (onDocUpdate rootDoc callback w)) =
    [{| al_id := S (S (fresh w)); al_rootDoc := rootDoc |}]
  /\ jobs (snd (onDocUpdate rootDoc callback w)) = jobs w.
Proof. intros Ho. cbn. rewrite Ho. now split. Qed.

Lemma teardown_keeps_jobs (rootDoc : Doc) (callback : Callback)
    (w w' : World) :
  jobs (snd (fst (onDocUpdate rootDoc callback w) w')) = jobs w'
  /\ connected (snd (fst (onDocUpdate rootDoc callback w) w')) = false.
Proof. now split. Qed.

Lemma awareness_change_local_one (x : AwListener) (st : AwState)
    (changes : AwarenessChanges) (origin : Origin) (update : bytes)
    (w : World) :
  observers w = [x] ->
  origin <> OriginStr "server" ->
  encodeAwarenessUpdate st (changedClients changes) = inr update ->
  awareness_change st changes origin w =
    (Normal,
     set_jobs
       (jobs w ++
        [AwarenessEmitJob ByWorkspaceId (guid (al_rootDoc x)) update])
       (set_states st w)).
Proof.
  intros Ho Hne Hu. rewrite (awareness_change_one x st changes origin w Ho).
  apply (awarenessUpdate_local (al_rootDoc x) changes origin update
           (set_states st w)); [now apply is_server_false|exact Hu].
Qed.

(** The last encoding in flight, an awareness update, is done. *)
Lemma finish_awareness_last (w : World) (l : list Job) (field : ScopeField)
    (room : string) (update : bytes) (encoded : string) :
  jobs w = l ++ [AwarenessEmitJob field room update] ->
  uint8ArrayToBase64 update = inr encoded ->
  log (snd (finish (length l) w)) =
    log w ++
    [EEmit "awareness-update" (awareness_payload field room encoded) None]
  /\ connected (snd (finish (length l) w)) = connected w
  /\ jobs (snd (finish (length l) w)) = l.
Proof.
  intros Hj He. unfold finish. rewrite Hj.
  rewrite list_lookup_middle by reflexivity.
  rewrite (complete_awareness_encoded _ _ _ _ _ He).
  cbn [snd log set_log set_jobs connected jobs].
  now rewrite delete_middle, app_nil_r.
Qed.

Lemma encoding_after_teardown (rootDoc : Doc) (callback : Callback)
    (w w1 : World) (st : AwState) (changes : AwarenessChanges)
    (origin : Origin) (update : bytes) (encoded : string) :
  observers w1 = [{| al_id := S (S (fresh w)); al_rootDoc := rootDoc |}] ->
  jobs w1 = jobs w ->
  origin <> OriginStr "server" ->
  encodeAwarenessUpdate st (changedClients changes) = inr update ->
  uint8ArrayToBase64 update = inr encoded ->
  let td := fst (onDocUpdate rootDoc callback w) in
  let w2 := snd (awareness_change st changes origin w1) in
  let w3 := snd (td w2) in
  let w4 := snd (finish (length (jobs w)) w3) in
  log w2 = log w1
  /\ log w4 =
       log w1 ++
       [ EEmit "client-leave" (PRoom (guid rootDoc)) None;
         EOff "server-update" (fresh w);
         EAwarenessOff (S (S (fresh w)));
         EOff "server-awareness-broadcast" (S (fresh w));
         EOff "new-client-awareness-init" (S (S (S (fresh w))));
         EDisconnect;
         EEmit "awareness-update"
           (PAwareness (Some (guid rootDoc)) None encoded) None ]
  /\ connected w4 = false
  /\ jobs w4 = jobs w.
Proof.
  intros Ho1 Hj1 Hne Hu He. cbv zeta.
  rewrite (awareness_change_local_one _ st changes origin update w1
             Ho1 Hne Hu).
  cbn [snd al_rootDoc]. rewrite Hj1.
  split; [reflexivity|].
  destruct (teardown_keeps_jobs rootDoc callback w
              (set_jobs
                 (jobs w ++
                  [AwarenessEmitJob ByWorkspaceId (guid rootDoc) update])
                 (set_states st w1))) as [J3 C3].
  pose proof (teardown_log rootDoc callback w
              (set_jobs
                 (jobs w ++
                  [AwarenessEmitJob ByWorkspaceId (guid rootDoc) update])
                 (set_states st w1))) as E3.
  destruct (finish_awareness_last _ (jobs w) ByWorkspaceId (guid rootDoc)
              _ encoded J3 He) as (A & B & C).
  rewrite A.
  rewrite B.
  rewrite C.
  rewrite C3.
  rewrite E3.
  rewrite <- app_assoc.
  split; [reflexivity|].
  split; reflexivity.
Qed.

(** X8. A teardown does not cancel an encoding in flight. A local
    change made during an activation and still being encoded when the
    teardown runs is emitted all the same once the encoding is done:
    the awareness-update leaves after client-leave and after the
    disconnect. *)
Theorem encoding_outlives_teardown (rootDoc : Doc) (callback : Callback)
    (w : World) (st : AwState) (changes : AwarenessChanges)
    (origin : Origin) (update : bytes) (encoded : string) :
  observers w = [] ->
  origin <> OriginStr "server" ->
  encodeAwarenessUpdate st (changedClients changes) = inr update ->
  uint8ArrayToBase64 update = inr encoded ->
  let td := fst (onDocUpdate rootDoc callback w) in
  let w1 := snd (onDocUpdate rootDoc callback w) in
  let w2 := snd (awareness_change st changes origin w1) in
  let w3 := snd (td w2) in
  let w4 := snd (finish (length (jobs w)) w3) in
  log w2 = log w1
  /\ log w4 =
       log w1 ++
       [ EEmit "client-leave" (PRoom (guid rootDoc)) None;
         EOff "server-update" (fresh w);
         EAwarenessOff (S (S (fresh w)));
         EOff "server-awareness-broadcast" (S (fresh w));
         EOff "new-client-awareness-init" (S (S (S (fresh w))));
         EDisconnect;
         EEmit "awareness-update"
           (PAwareness (Some (guid rootDoc)) None encoded) None ]
  /\ connected w4 = false
  /\ jobs w4 = jobs w.
Proof.
  intros Ho Hne Hu He.
  destruct (onDocUpdate_observes rootDoc callback w Ho) as [Ho1 Hj1].
  exact (encoding_after_teardown rootDoc callback w _ st changes origin
           update encoded Ho1 Hj1 Hne Hu He).
Qed.

(** ** One encoding for each observer *)

Lemma notify_local (l : list AwListener) (changes : AwarenessChanges)
    (origin : Origin) (update : bytes) (w : World) :
  is_server origin = false ->
  encodeAwarenessUpdate (states w) (changedClients changes) = inr update ->
  notify l changes origin w =
    (Normal,
     set_jobs
       (jobs w ++
        map (fun x =>
               AwarenessEmitJob ByWorkspaceId (guid (al_rootDoc x)) update)
            l) w).
Proof.
  intros Hs Hu. revert w Hu. induction l as [|x l IH]; intros w Hu.
  - cbn [notify map]. rewrite app_nil_r, set_jobs_same. reflexivity.
  - cbn [notify map]. unfold bind.
    rewrite (awarenessUpdate_local _ _ _ update w Hs Hu), IH by exact Hu.
    cbn [jobs set_jobs states]. rewrite <- app_assoc. reflexivity.
Qed.

Lemma onDocUpdate_jobs (rootDoc : Doc) (callback : Callback) (w : World) :
  jobs (snd (onDocUpdate rootDoc callback w)) = jobs w.
Proof. reflexivity. Qed.

Lemma activations_observe (rootDoc : Doc) (callback : Callback) (w : World)
    (n : nat) :
  wf w ->
  let wn := Nat.iter n (fun x => snd (onDocUpdate rootDoc callback x)) w in
  wf wn
  /\ map al_rootDoc (observers wn) =
       map al_rootDoc (observers w) ++ repeat rootDoc n
  /\ jobs wn = jobs w.
Proof.
  intros Hwf. cbv zeta. induction n as [|n IH].
  - cbn [Nat.iter repeat]. split; [exact Hwf|]. rewrite app_nil_r.
    split; reflexivity.
  - rewrite Nat.iter_succ. destruct IH as (Hn & Hobs & Hj).
    split; [apply wf_onDocUpdate; exact Hn|].
    destruct (onDocUpdate_registers rootDoc callback _ Hn) as (_ & Ho & _).
    cbv zeta in Ho. rewrite Ho, map_app, Hobs, <- app_assoc, onDocUpdate_jobs.
    split; [|exact Hj].
    f_equal. cbn [map al_rootDoc repeat]. symmetry. apply repeat_cons.
Qed.

(** X9. The replica calls every observer it has, and every activation
    adds one: after [n] activations on a replica that had no observer,
    one local change queues [n] encodings of the same update, hence is
    sent [n] times; a change of origin "server" is sent by none. *)
Theorem local_change_per_activation (rootDoc : Doc) (callback : Callback)
    (w : World) (n : nat) (st : AwState) (changes : AwarenessChanges)
    (origin : Origin) (update : bytes) :
  wf w ->
  observers w = [] ->
  origin <> OriginStr "server" ->
  encodeAwarenessUpdate st (changedClients changes) = inr update ->
  let wn := Nat.iter n (fun x => snd (onDocUpdate rootDoc callback x)) w in
  awareness_change st changes origin wn =
    (Normal,
     set_jobs
       (jobs w ++
        repeat (AwarenessEmitJob ByWorkspaceId (guid rootDoc) update) n)
       (set_states st wn)).
Proof.
  intros Hwf Ho Hne Hu wn.
  destruct (activations_observe rootDoc callback w n Hwf) as (_ & Hobs & Hj).
  fold wn in Hobs, Hj. rewrite Ho in Hobs. cbn [map app] in Hobs.
  unfold awareness_change, awareness_emit_update, modify, bind.
  cbn [snd]. change (observers (set_states st wn)) with (observers wn).
  rewrite (notify_local _ changes origin update)
    by (try apply is_server_false; assumption).
  change (jobs (set_states st wn)) with (jobs wn).
  rewrite Hj. do 3 f_equal.
  rewrite <- (map_map al_rootDoc
     (fun d => AwarenessEmitJob ByWorkspaceId (guid d) update)).
  rewrite Hobs. clear. induction n as [|n IH]; [reflexivity|].
  cbn [repeat map]. now rewrite IH.
Qed.

(** ** Updates sent one after the other *)

(** The encoding of a [sendDocUpdate] is done, wherever it stands
    among the encodings in flight. *)
Lemma finish_client_update (w : World) (l l' : list Job) (p : nat)
    (room g : string) (update : bytes) (encoded : string) :
  jobs w = l ++ ClientUpdateJob p room g update :: l' ->
  uint8ArrayToBase64 update = inr encoded ->
  promises w !! p = Some Pending ->
  log (snd (finish (length l) w)) =
    log w ++ [EEmit "client-update" (PClientUpdate room g encoded) None]
  /\ promises (snd (finish (length l) w)) =
       <[p := Fulfilled VUndefined]> (promises w)
  /\ jobs (snd (finish (length l) w)) = l ++ l'.
Proof.
  intros Hj He Hp. unfold finish. rewrite Hj.
  rewrite list_lookup_middle by reflexivity.
  rewrite delete_middle. cbn [complete]. rewrite He.
  unfold bind, socket_emit, trace, resolve.
  rewrite settle_pending by exact Hp.
  split; [reflexivity|]. split; reflexivity.
Qed.

Lemma sendDocUpdate_twice (rootDoc : Doc) (g1 g2 : string) (u1 u2 : bytes)
    (w : World) :
  let w2 :=
    snd (sendDocUpdate rootDoc g2 u2 (snd (sendDocUpdate rootDoc g1 u1 w))) in
  fst (sendDocUpdate rootDoc g1 u1 w) = fresh w
  /\ fst (sendDocUpdate rootDoc g2 u2 (snd (sendDocUpdate rootDoc g1 u1 w))) =
       S (fresh w)
  /\ log w2 = log w
  /\ promises w2 = <[S (fresh w) := Pending]> (<[fresh w := Pending]> (promises w))
  /\ jobs w2 =
       jobs w ++
       [ClientUpdateJob (fresh w) (guid rootDoc) g1 u1;
        ClientUpdateJob (S (fresh w)) (guid rootDoc) g2 u2].
Proof.
  cbv zeta. rewrite !sendDocUpdate_called. cbn [fst snd].
  repeat (split; [reflexivity|]).
  cbn [jobs set_jobs]. now rewrite <- app_assoc.
Qed.

(** Two encodings of [sendDocUpdate] in flight, the last two, and the
    two orders in which they can finish. *)
Lemma finish_two_client_updates (w2 : World) (l : list Job) (p1 p2 : nat)
    (room g1 g2 : string) (u1 u2 : bytes) (e1 e2 : string) :
  p1 <> p2 ->
  jobs w2 = l ++ [ClientUpdateJob p1 room g1 u1; ClientUpdateJob p2 room g2 u2] ->
  promises w2 !! p1 = Some Pending ->
  promises w2 !! p2 = Some Pending ->
  uint8ArrayToBase64 u1 = inr e1 ->
  uint8ArrayToBase64 u2 = inr e2 ->
  let n := length l in
  let m1 := EEmit "client-update" (PClientUpdate room g1 e1) None in
  let m2 := EEmit "client-update" (PClientUpdate room g2 e2) None in
  let in_order := snd (finish n (snd (finish n w2))) in
  let reversed := snd (finish n (snd (finish (S n) w2))) in
  log in_order = log w2 ++ [m1; m2]
  /\ log reversed = log w2 ++ [m2; m1]
  /\ promises in_order !! p1 = Some (Fulfilled VUndefined)
  /\ promises in_order !! p2 = Some (Fulfilled VUndefined)
  /\ promises reversed !! p1 = Some (Fulfilled VUndefined)
  /\ promises reversed !! p2 = Some (Fulfilled VUndefined).
Proof.
  intros Hne Hj Hp1 Hp2 H1 H2. cbv zeta.
  destruct (finish_client_update w2 l [ClientUpdateJob p2 room g2 u2]
              p1 room g1 u1 e1 Hj H1 Hp1) as (A1 & A2 & A3).
  assert (A4 : promises (snd (finish (length l) w2)) !! p2 = Some Pending).
  { rewrite A2, lookup_insert_ne by exact Hne. exact Hp2. }
  destruct (finish_client_update (snd (finish (length l) w2)) l []
              p2 room g2 u2 e2 A3 H2 A4) as (B1 & B2 & _).
  assert (Hj' : jobs w2 =
                (l ++ [ClientUpdateJob p1 room g1 u1]) ++
                ClientUpdateJob p2 room g2 u2 :: []).
  { rewrite Hj, <- app_assoc. reflexivity. }
  assert (Hn : S (length l) = length (l ++ [ClientUpdateJob p1 room g1 u1])).
  { rewrite length_app. cbn. lia. }
  rewrite Hn.
  destruct (finish_client_update w2 _ [] p2 room g2 u2 e2 Hj' H2 Hp2)
    as (C1 & C2 & C3).
  rewrite app_nil_r in C3.
  assert (C4 : promises
                 (snd (finish
                         (length (l ++ [ClientUpdateJob p1 room g1 u1])) w2))
               !! p1 = Some Pending).
  { rewrite C2, lookup_insert_ne by (intros E; now apply Hne). exact Hp1. }
  destruct (finish_client_update _ l [] p1 room g1 u1 e1 C3 H1 C4)
    as (D1 & D2 & _).
  rewrite B1, A1, D1, C1, B2, A2, D2, C2, <- !app_assoc.
  split; [reflexivity|]. split; [reflexivity|].
  split; [rewrite lookup_insert_ne by (intros E; now apply Hne);
          apply lookup_insert_eq|].
  split; [apply lookup_insert_eq|].
  split; [apply lookup_insert_eq|].
  rewrite lookup_insert_ne by exact Hne. apply lookup_insert_eq.
Qed.

(** X10. [sendDocUpdate] emits when its own encoding is done, so two
    updates sent one after the other leave in the order in which their
    encodings finish: in the order of the calls when the first encoding
    finishes first, in the opposite order when the second does. Both
    promises are fulfilled either way. *)
Theorem sendDocUpdate_order (rootDoc : Doc) (g1 g2 : string)
    (u1 u2 : bytes) (e1 e2 : string) (w : World) :
  uint8ArrayToBase64 u1 = inr e1 ->
  uint8ArrayToBase64 u2 = inr e2 ->
  let p1 := fst (sendDocUpdate rootDoc g1 u1 w) in
  let w1 := snd (sendDocUpdate rootDoc g1 u1 w) in
  let p2 := fst (sendDocUpdate rootDoc g2 u2 w1) in
  let w2 := snd (sendDocUpdate rootDoc g2 u2 w1) in
  let n := length (jobs w) in
  let m1 := EEmit "client-update" (PClientUpdate (guid rootDoc) g1 e1) None in
  let m2 := EEmit "client-update" (PClientUpdate (guid rootDoc) g2 e2) None in
  let in_order := snd (finish n (snd (finish n w2))) in
  let reversed := snd (finish n (snd (finish (S n) w2))) in
  log in_order = log w ++ [m1; m2]
  /\ log reversed = log w ++ [m2; m1]
  /\ promises in_order !! p1 = Some (Fulfilled VUndefined)
  /\ promises in_order !! p2 = Some (Fulfilled VUndefined)
  /\ promises reversed !! p1 = Some (Fulfilled VUndefined)
  /\ promises reversed !! p2 = Some (Fulfilled VUndefined).
Proof.
  intros H1 H2. cbv zeta.
  destruct (sendDocUpdate_twice rootDoc g1 g2 u1 u2 w)
    as (-> & -> & El & Ep & Ej).
  rewrite <- El.
  apply (finish_two_client_updates _ (jobs w) (fresh w) (S (fresh w))
           (guid rootDoc) g1 g2 u1 u2 e1 e2); try assumption.
  - lia.
  - rewrite Ep, lookup_insert_ne by lia. apply lookup_insert_eq.
  - rewrite Ep. apply lookup_insert_eq.
Qed.

(** ** When the callback is called *)

Definition is_callback (e : Effect) : bool :=
  match e with
  | ECallback _ _ => true
  | _ => false
  end.

(** What the callbacks have been handed, and what they made of it. *)
Definition delivered (w : World) : U * list Effect :=
  (env w, List.filter is_callback (log w)).

Definition preserves {X A} (f : World -> X) (c : M A) : Prop :=
  forall w, f (snd (c w)) = f w.

(** The events that hand nothing to a callback of [rootDoc]: all but a
    server-update for its workspace that decodes. *)
Definition silent (rootDoc : Doc) (op : Op) : bool :=
  match op with
  | Receive (ServerUpdate ws _ u) =>
      negb (ws =? guid rootDoc)
      || match base64ToUint8Array u with
         | inl _ => true
         | inr _ => false
         end
  | _ => true
  end.

Lemma preserves_ret {X A} (f : World -> X) (a : A) : preserves f (ret a).
Proof. intros w. reflexivity. Qed.

Lemma preserves_bind {X A B} (f : World -> X) (c : M A) (k : A -> M B) :
  preserves f c -> (forall a, preserves f (k a)) -> preserves f (bind c k).
Proof.
  intros Hc Hk w. unfold bind. specialize (Hc w).
  destruct (c w) as [a w1]. cbn [snd] in Hc. rewrite <- Hc. apply Hk.
Qed.

Lemma delivered_trace (e : Effect) :
  is_callback e = false -> preserves delivered (trace e).
Proof.
  intros He w. unfold delivered, trace. cbn [snd env log set_log].
  rewrite List.filter_app. cbn [List.filter]. rewrite He.
  now rewrite app_nil_r.
Qed.

Lemma delivered_alloc : preserves delivered alloc.
Proof. intros w. reflexivity. Qed.

Lemma delivered_gets {A} (f : World -> A) : preserves delivered (gets f).
Proof. intros w. reflexivity. Qed.

Lemma delivered_set_states (st : AwState) :
  preserves delivered (modify (set_states st)).
Proof. intros w. reflexivity. Qed.

Lemma delivered_enqueue (j : Job) : preserves delivered (enqueue j).
Proof. intros w. reflexivity. Qed.

Lemma delivered_new_promise : preserves delivered new_promise.
Proof. intros w. reflexivity. Qed.

Lemma delivered_settle (p : nat) (s : PromiseState) :
  preserves delivered (settle p s).
Proof.
  intros w. unfold settle. destruct (promises w !! p) as [[| |]|]; reflexivity.
Qed.

Lemma delivered_socket_connect : preserves delivered socket_connect.
Proof.
  intros w. apply (delivered_trace EConnect eq_refl (set_connected true w)).
Qed.

Lemma delivered_socket_disconnect : preserves delivered socket_disconnect.
Proof.
  intros w.
  apply (delivered_trace EDisconnect eq_refl (set_connected false w)).
Qed.

Lemma delivered_socket_emit (event : string) (payload : Payload) :
  preserves delivered (socket_emit event payload).
Proof. apply (delivered_trace (EEmit event payload None) eq_refl). Qed.

Lemma delivered_socket_emit_ack (event : string) (payload : Payload)
    (p : nat) :
  preserves delivered (socket_emit_ack event payload p).
Proof.
  intros w.
  apply (delivered_trace (EEmit event payload (Some (fresh w))) eq_refl
           (set_acks (acks w ++ [(fresh w, p)]) (set_fresh (S (fresh w)) w))).
Qed.

Lemma delivered_socket_on (event : string) (id : nat) (code : SockCode) :
  preserves delivered (socket_on event id code).
Proof.
  intros w.
  apply (delivered_trace (EOn event id) eq_refl (set_listeners _ w)).
Qed.

Lemma delivered_socket_off (event : string) (id : nat) :
  preserves delivered (socket_off event id).
Proof.
  intros w.
  apply (delivered_trace (EOff event id) eq_refl (set_listeners _ w)).
Qed.

Lemma delivered_awareness_on (id : nat) (rootDoc : Doc) :
  preserves delivered (awareness_on id rootDoc).
Proof.
  intros w.
  apply (delivered_trace (EAwarenessOn id) eq_refl (set_observers _ w)).
Qed.

Lemma delivered_awareness_off (id : nat) :
  preserves delivered (awareness_off id).
Proof.
  intros w.
  apply (delivered_trace (EAwarenessOff id) eq_refl (set_observers _ w)).
Qed.

Create HintDb delivered.

#[local] Hint Resolve preserves_ret delivered_alloc delivered_gets
  delivered_set_states delivered_enqueue delivered_new_promise
  delivered_settle delivered_socket_connect delivered_socket_disconnect
  delivered_socket_emit delivered_socket_emit_ack delivered_socket_on
  delivered_socket_off delivered_awareness_on delivered_awareness_off
  : delivered.

Ltac delivered_seq :=
  repeat (apply preserves_bind; [auto with delivered|intros ?; cbv beta]);
  auto with delivered.

Lemma delivered_awarenessUpdate (rootDoc : Doc) (changes : AwarenessChanges)
    (origin : Origin) :
  preserves delivered (awarenessUpdate rootDoc changes origin).
Proof.
  unfold awarenessUpdate. destruct (is_server origin); [apply preserves_ret|].
  apply preserves_bind; [apply delivered_gets|]. intros st.
  destruct (encodeAwarenessUpdate st _); delivered_seq.
Qed.

Lemma delivered_notify (l : list AwListener) (changes : AwarenessChanges)
    (origin : Origin) :
  preserves delivered (notify l changes origin).
Proof.
  induction l as [|x l IH]; cbn [notify]; [apply preserves_ret|].
  apply preserves_bind; [apply delivered_awarenessUpdate|].
  intros [|e]; [exact IH|apply preserves_ret].
Qed.

Lemma delivered_awareness_emit_update (changes : AwarenessChanges)
    (origin : Origin) :
  preserves delivered (awareness_emit_update changes origin).
Proof. intros w. apply delivered_notify. Qed.

Lemma delivered_apply_awareness_update (update : bytes) (origin : Origin) :
  preserves delivered (apply_awareness_update update origin).
Proof.
  unfold apply_awareness_update.
  apply preserves_bind; [apply delivered_gets|]. intros st.
  apply preserves_bind; [now apply delivered_trace|]. intros _.
  destruct (applyAwarenessUpdate st update) as [[e st']|[st' [changes|]]];
    (apply preserves_bind; [apply delivered_set_states|]; intros _);
    [apply preserves_ret|apply delivered_awareness_emit_update
    |apply preserves_ret].
Qed.

Lemma delivered_awarenessBroadcast (rootDoc : Doc) (ws au : string) :
  preserves delivered (awarenessBroadcast rootDoc ws au).
Proof.
  unfold awarenessBroadcast.
  destruct (negb (ws =? guid rootDoc)); [apply preserves_ret|].
  destruct (base64ToUint8Array au);
    [apply preserves_ret|apply delivered_apply_awareness_update].
Qed.

Lemma delivered_newClientAwarenessInitHandler (rootDoc : Doc) :
  preserves delivered (newClientAwarenessInitHandler rootDoc).
Proof.
  unfold newClientAwarenessInitHandler.
  apply preserves_bind; [apply delivered_gets|]. intros st.
  apply preserves_bind; [apply delivered_gets|]. intros self.
  destruct (encodeAwarenessUpdate st _); delivered_seq.
Qed.

(** A handler of the room, called with a message that is silent. *)
Lemma delivered_run_listener (rootDoc : Doc) (c : SockCode) (m : Inbound) :
  guid (code_doc c) = guid rootDoc ->
  silent rootDoc (Receive m) = true ->
  preserves delivered (run_listener c m).
Proof.
  intros Hc Hm.
  destruct c as [d callback|d|d], m as [ws g u|ws au|];
    cbn [run_listener code_doc] in *; try apply preserves_ret;
    try apply delivered_awarenessBroadcast;
    try apply delivered_newClientAwarenessInitHandler.
  unfold onUpdate. rewrite Hc. cbn [silent] in Hm.
  destruct (ws =? guid rootDoc); [|apply preserves_ret].
  destruct (base64ToUint8Array u) as [e|decoded]; [|discriminate Hm].
  apply preserves_bind; [now apply delivered_trace|].
  intros _. apply preserves_ret.
Qed.

Lemma delivered_dispatch (rootDoc : Doc) (l : list SockListener)
    (m : Inbound) :
  Forall (of_room (guid rootDoc)) l ->
  silent rootDoc (Receive m) = true ->
  preserves delivered (dispatch l m).
Proof.
  intros Hl Hm. induction Hl as [|x l [Hx _] _ IH]; cbn [dispatch];
    [apply preserves_ret|].
  destruct (sl_event x =? event_of m); [|exact IH].
  apply preserves_bind; [now apply (delivered_run_listener rootDoc)|].
  intros [|e]; [exact IH|apply preserves_ret].
Qed.

Lemma delivered_ack_callback (p : nat) (update : Ack) :
  preserves delivered (ack_callback p update).
Proof.
  destruct update as [e|[|c s]|]; cbn [ack_callback];
    unfold reject, resolve; try delivered_seq.
  destruct (base64ToUint8Array _); delivered_seq.
Qed.

Lemma delivered_receive_ack (a : nat) (update : Ack) :
  preserves delivered (receive_ack a update).
Proof.
  intros w. unfold receive_ack.
  destruct (find_ack a (acks w)) as [p|]; [|reflexivity].
  apply (delivered_ack_callback p update
           (set_acks (filter (fun x => fst x <> a) (acks w)) w)).
Qed.

Lemma delivered_complete (j : Job) : preserves delivered (complete j).
Proof.
  destruct j as [field room update|p room g update|p room g sv];
    cbn [complete]; destruct (uint8ArrayToBase64 _);
    unfold reject, resolve; delivered_seq.
  now apply delivered_trace.
Qed.

Lemma delivered_finish (i : nat) : preserves delivered (finish i).
Proof.
  intros w. unfold finish. destruct (jobs w !! i) as [j|]; [|reflexivity].
  apply (delivered_complete j (set_jobs (delete i (jobs w)) w)).
Qed.

Lemma delivered_queryDocState (rootDoc : Doc) (g : string)
    (options : option Options) :
  preserves delivered (queryDocState rootDoc g options).
Proof.
  unfold queryDocState. destruct (options ≫= stateVector); delivered_seq.
Qed.

Lemma delivered_sendDocUpdate (rootDoc : Doc) (g : string) (update : bytes) :
  preserves delivered (sendDocUpdate rootDoc g update).
Proof. unfold sendDocUpdate. delivered_seq. Qed.

Lemma delivered_destroyAwareness (rootDoc : Doc) (w : World) :
  preserves delivered (fst (setupAffineAwareness rootDoc w)).
Proof. cbn. delivered_seq. Qed.

Lemma delivered_setupAffineAwareness (rootDoc : Doc) :
  preserves delivered (setupAffineAwareness rootDoc).
Proof. unfold setupAffineAwareness. delivered_seq. Qed.

Lemma delivered_onDocUpdate (rootDoc : Doc) (callback : Callback) :
  preserves delivered (onDocUpdate rootDoc callback).
Proof. unfold onDocUpdate. delivered_seq. Qed.

Lemma delivered_teardown (rootDoc : Doc) (callback : Callback) (w : World) :
  preserves delivered (fst (onDocUpdate rootDoc callback w)).
Proof. cbn. delivered_seq. Qed.

Lemma delivered_awareness_change (st : AwState) (changes : AwarenessChanges)
    (origin : Origin) :
  preserves delivered (awareness_change st changes origin).
Proof.
  apply preserves_bind; [apply delivered_set_states|]. intros _.
  apply delivered_awareness_emit_update.
Qed.

Lemma delivered_step (rootDoc : Doc) (teardowns : list (M unit)) (op : Op)
    (w : World) :
  Forall (preserves delivered) teardowns ->
  in_room (guid rootDoc) w ->
  silent rootDoc op = true ->
  delivered (snd (step (data_source rootDoc) teardowns op w)) = delivered w
  /\ Forall (preserves delivered)
       (fst (step (data_source rootDoc) teardowns op w)).
Proof.
  intros Ht Hw Hs.
  destruct op as [g options|g update|callback|k|m|a update|i|st changes origin];
    cbn [step data_source ds_queryDocState ds_sendDocUpdate ds_onDocUpdate];
    unfold bind.
  - pose proof (delivered_queryDocState rootDoc g options w) as H.
    destruct (queryDocState _ _ _ _). now split.
  - pose proof (delivered_sendDocUpdate rootDoc g update w) as H.
    destruct (sendDocUpdate _ _ _ _). now split.
  - pose proof (delivered_onDocUpdate rootDoc callback w) as H.
    pose proof (delivered_teardown rootDoc callback w) as Htd.
    destruct (onDocUpdate rootDoc callback w) as [td w']. cbn [fst snd] in *.
    split; [exact H|]. apply Forall_app. split; [exact Ht|].
    constructor; [exact Htd|constructor].
  - destruct (teardowns !! k) as [td|] eqn:Hk; [|now split].
    assert (Hb : preserves delivered td).
    { rewrite Forall_lookup in Ht. exact (Ht k td Hk). }
    specialize (Hb w). destruct (td w). now split.
  - pose proof (delivered_dispatch rootDoc (listeners w) m (proj1 Hw) Hs w)
      as H.
    unfold receive. destruct (dispatch _ _ _). now split.
  - pose proof (delivered_receive_ack a update w) as H.
    destruct (receive_ack _ _ _). now split.
  - pose proof (delivered_finish i w) as H. destruct (finish _ _).
    now split.
  - pose proof (delivered_awareness_change st changes origin w) as H.
    destruct (awareness_change _ _ _ _). now split.
Qed.

Lemma delivered_run (rootDoc : Doc) (ops : list Op)
    (teardowns : list (M unit)) (w : World) :
  Forall (preserves delivered) teardowns ->
  Forall (keeps_room (guid rootDoc)) teardowns ->
  in_room (guid rootDoc) w ->
  Forall (fun op => silent rootDoc op = true) ops ->
  delivered (snd (run (data_source rootDoc) teardowns ops w)) = delivered w.
Proof.
  intros Ht Hk Hw Hops. revert teardowns w Ht Hk Hw.
  induction Hops as [|op ops Hop _ IH]; intros teardowns w Ht Hk Hw;
    cbn [run]; [reflexivity|].
  destruct (delivered_step rootDoc teardowns op w Ht Hw Hop) as [H1 H2].
  destruct (keeps_step_run rootDoc teardowns op Hk) as [K1 K2].
  specialize (K2 w). destruct (K1 w Hw) as [K3 _].
  unfold bind. destruct (step _ teardowns op w) as [tds w1].
  cbn [fst snd] in *. rewrite <- H1. now apply IH.
Qed.

(** X18. The callbacks given to [onDocUpdate] are called for nothing
    but a server-update for the workspace of the root document whose
    payload decodes. In a world whose handlers are those of this
    workspace, whatever else the application and the server do
    (queries, updates, activations, teardowns, acknowledgements,
    awareness traffic, messages for other workspaces, messages that do
    not decode), no callback is called and what the callbacks keep is
    unchanged. *)
Theorem callback_only_on_server_update (rootDoc : Doc) (ops : list Op)
    (w : World) :
  in_room (guid rootDoc) w ->
  Forall (fun op => silent rootDoc op = true) ops ->
  let w' := snd (run (data_source rootDoc) [] ops w) in
  env w' = env w
  /\ List.filter is_callback (log w') = List.filter is_callback (log w).
Proof.
  intros Hw Hops. cbv zeta.
  pose proof (delivered_run rootDoc ops [] w (List.Forall_nil _)
                (List.Forall_nil _) Hw Hops) as H.
  unfold delivered in H. injection H as H1 H2. split; assumption.
Qed.

(** ** The state vector of a query *)

(** X22. What [queryDocState] asks for. Without a state vector the
    doc-load leaves within the call, with no state vector in it. With
    one, an empty one included, nothing leaves within the call; the
    doc-load leaves when the encoding is done and carries the encoded
    state vector. Either way it is for the workspace of the root
    document and the guid asked for, and asks for an acknowledgement. *)
Theorem queryDocState_state_vector (rootDoc : Doc) (g : string)
    (options : option Options) (w : World) :
  let w1 := snd (queryDocState rootDoc g options w) in
  let a := S (fresh w) in
  (options ≫= stateVector = None ->
   log w1 =
     log w ++ [EEmit "doc-load" (PDocLoad (guid rootDoc) g None) (Some a)]
   /\ jobs w1 = jobs w)
  /\ (forall (sv : bytes) (encoded : string),
        options ≫= stateVector = Some sv ->
        uint8ArrayToBase64 sv = inr encoded ->
        log w1 = log w
        /\ acks w1 = acks w
        /\ log (snd (finish (length (jobs w)) w1)) =
             log w ++
             [EEmit "doc-load" (PDocLoad (guid rootDoc) g (Some encoded))
                (Some a)]
        /\ jobs (snd (finish (length (jobs w)) w1)) = jobs w).
Proof.
  cbv zeta. split.
  - intros H. rewrite (queryDocState_plain _ _ _ _ H). split; reflexivity.
  - intros sv encoded H He.
    rewrite (queryDocState_encoding _ _ _ _ _ H). cbn [snd].
    split; [reflexivity|]. split; [reflexivity|].
    rewrite finish_last. cbn [complete]. rewrite He.
    split; reflexivity.
Qed.

(** ** Messages under several activations *)

Lemma dispatch_app (l l' : list SockListener) (m : Inbound) (w : World) :
  dispatch (l ++ l') m w =
    match dispatch l m w with
    | (Normal, w') => dispatch l' m w'
    | (Throws e, w') => (Throws e, w')
    end.
Proof.
  revert w. induction l as [|x l IH]; intros w; [reflexivity|].
  cbn [app dispatch]. destruct (sl_event x =? event_of m); [|apply IH].
  unfold bind. destruct (run_listener (sl_code x) m w) as [[|e] w1];
    [apply IH|reflexivity].
Qed.

Lemma onDocUpdate_twice_listeners (rootDoc : Doc) (first second : Callback)
    (w : World) :
  let h := fresh w in
  listeners (snd (onDocUpdate rootDoc second
                    (snd (onDocUpdate rootDoc first w)))) =
    (listeners w ++
     [ {| sl_event := "server-update"; sl_id := h;
          sl_code := CodeOnUpdate rootDoc first |};
       {| sl_event := "server-awareness-broadcast"; sl_id := S h;
          sl_code := CodeAwarenessBroadcast rootDoc |};
       {| sl_event := "new-client-awareness-init"; sl_id := S (S (S h));
          sl_code := CodeNewClientAwarenessInit rootDoc |} ]) ++
    [ {| sl_event := "server-update"; sl_id := 4 + h;
         sl_code := CodeOnUpdate rootDoc second |};
      {| sl_event := "server-awareness-broadcast"; sl_id := S (4 + h);
         sl_code := CodeAwarenessBroadcast rootDoc |};
      {| sl_event := "new-client-awareness-init";
         sl_id := S (S (S (4 + h)));
         sl_code := CodeNewClientAwarenessInit rootDoc |} ].
Proof.
  cbv zeta. rewrite onDocUpdate_listeners, onDocUpdate_listeners.
  reflexivity.
Qed.

(** A world with the listeners of two activations, in any state. *)
Lemma served_twice (rootDoc : Doc) (first second : Callback)
    (w2 : World) (l : list SockListener) (u1 b1 n1 u2 b2 n2 : nat)
    (g payload au : string) (decoded update : bytes) :
  listeners w2 =
    (l ++
     [ {| sl_event := "server-update"; sl_id := u1;
          sl_code := CodeOnUpdate rootDoc first |};
       {| sl_event := "server-awareness-broadcast"; sl_id := b1;
          sl_code := CodeAwarenessBroadcast rootDoc |};
       {| sl_event := "new-client-awareness-init"; sl_id := n1;
          sl_code := CodeNewClientAwarenessInit rootDoc |} ]) ++
    [ {| sl_event := "server-update"; sl_id := u2;
         sl_code := CodeOnUpdate rootDoc second |};
      {| sl_event := "server-awareness-broadcast"; sl_id := b2;
         sl_code := CodeAwarenessBroadcast rootDoc |};
      {| sl_event := "new-client-awareness-init"; sl_id := n2;
         sl_code := CodeNewClientAwarenessInit rootDoc |} ] ->
  Forall (fun x => sl_event x <> "server-update") l ->
  Forall (fun x => sl_event x <> "server-awareness-broadcast") l ->
  base64ToUint8Array payload = inr decoded ->
  base64ToUint8Array au = inr update ->
  receive (ServerUpdate (guid rootDoc) g payload) w2 =
    (Normal,
     set_env (second g decoded (first g decoded (env w2)))
       (set_log (log w2 ++ [ECallback g decoded; ECallback g decoded]) w2))
  /\ (forall (once twice : AwState) (a1 a2 : option AwarenessChanges),
        applyAwarenessUpdate (states w2) update = inr (once, a1) ->
        applyAwarenessUpdate once update = inr (twice, a2) ->
        receive (ServerAwarenessBroadcast (guid rootDoc) au) w2 =
          (Normal,
           set_states twice
             (set_log
                (log w2 ++
                 [EApplyAwareness update (OriginStr "server");
                  EApplyAwareness update (OriginStr "server")]) w2)))
  /\ (forall (e : JsError) (left : AwState),
        applyAwarenessUpdate (states w2) update = inl (e, left) ->
        receive (ServerAwarenessBroadcast (guid rootDoc) au) w2 =
          (Throws e,
           set_states left
             (set_log
                (log w2 ++ [EApplyAwareness update (OriginStr "server")])
                w2))).
Proof.
  intros Hl Hu Hb Hp Ha. unfold receive. rewrite Hl, <- app_assoc.
  split; [|split].
  - rewrite dispatch_skip by exact Hu.
    rewrite dispatch_app, dispatch_activation_update, onUpdate_outcome.
    rewrite String.eqb_refl, Hp.
    rewrite dispatch_activation_update, onUpdate_outcome.
    rewrite String.eqb_refl, Hp.
    cbn [env log set_env set_log]. rewrite <- app_assoc. reflexivity.
  - intros once twice a1 a2 H1 H2.
    rewrite dispatch_skip by exact Hb.
    rewrite dispatch_app, dispatch_activation_broadcast.
    rewrite awarenessBroadcast_outcome, String.eqb_refl, Ha. cbn [negb].
    rewrite H1. cbn [ending state_after].
    rewrite dispatch_activation_broadcast.
    rewrite awarenessBroadcast_outcome, String.eqb_refl, Ha. cbn [negb].
    cbn [states log set_states set_log]. rewrite H2.
    cbn [ending state_after]. rewrite <- app_assoc. reflexivity.
  - intros e left H1.
    rewrite dispatch_skip by exact Hb.
    rewrite dispatch_app, dispatch_activation_broadcast.
    rewrite awarenessBroadcast_outcome, String.eqb_refl, Ha. cbn [negb].
    rewrite H1. reflexivity.
Qed.

(** X23. Every activation is served, unless one before it throws.
    After two calls of [onDocUpdate], with no other listener of the two
    events on the socket, a server-update for the workspace that decodes
    is handed to the callback of the first activation and then to that
    of the second. A broadcast for the workspace that decodes is handed
    to the engine by each activation in turn: when the engine applies
    it both times, it is applied twice in all; when the engine throws
    at the first, the exception is thrown into the dispatch of the
    socket and the handler of the second activation is not called. *)
Theorem every_activation_is_served (rootDoc : Doc) (first second : Callback)
    (w : World) (g payload au : string) (decoded update : bytes) :
  Forall (fun x => sl_event x <> "server-update") (listeners w) ->
  Forall (fun x => sl_event x <> "server-awareness-broadcast") (listeners w) ->
  base64ToUint8Array payload = inr decoded ->
  base64ToUint8Array au = inr update ->
  let w2 :=
    snd (onDocUpdate rootDoc second (snd (onDocUpdate rootDoc first w))) in
  let applied := EApplyAwareness update (OriginStr "server") in
  receive (ServerUpdate (guid rootDoc) g payload) w2 =
    (Normal,
     set_env (second g decoded (first g decoded (env w2)))
       (set_log (log w2 ++ [ECallback g decoded; ECallback g decoded]) w2))
  /\ (forall (once twice : AwState) (a1 a2 : option AwarenessChanges),
        applyAwarenessUpdate (states w2) update = inr (once, a1) ->
        applyAwarenessUpdate once update = inr (twice, a2) ->
        receive (ServerAwarenessBroadcast (guid rootDoc) au) w2 =
          (Normal,
           set_states twice (set_log (log w2 ++ [applied; applied]) w2)))
  /\ (forall (e : JsError) (left : AwState),
        applyAwarenessUpdate (states w2) update = inl (e, left) ->
        receive (ServerAwarenessBroadcast (guid rootDoc) au) w2 =
          (Throws e, set_states left (set_log (log w2 ++ [applied]) w2))).
Proof.
  intros Hu Hb Hp Ha.
  exact (served_twice rootDoc first second _ (listeners w) _ _ _ _ _ _
           g payload au decoded update
           (onDocUpdate_twice_listeners rootDoc first second w)
           Hu Hb Hp Ha).
Qed.

End DataSource.

(** * A concrete instance

    The theorems above hold for every codec and every awareness engine.
    Here they are run on one: base64 proper, a replica that records the
    updates it is handed, and presence kept as one payload per client. *)

Module Demo.

Local Open Scope N_scope.

Definition alphabet : list Ascii.ascii :=
  list_ascii_of_string
    "ABCDEFGHIJKLMNOPQRSTUVWXYZabcdefghijklmnopqrstuvwxyz0123456789+/".

Definition pad : Ascii.ascii := "="%char.

Definition digit (n : N) : Ascii.ascii := nth (N.to_nat n) alphabet pad.

Fixpoint encode_groups (l : list N) : list Ascii.ascii :=
  match l with
  | [] => []
  | [a] => [digit (a / 4); digit (a mod 4 * 16); pad; pad]
  | [a; b] =>
      [digit (a / 4); digit (a mod 4 * 16 + b / 16);
       digit (b mod 16 * 4); pad]
  | a :: b :: c :: rest =>
      digit (a / 4) :: digit (a mod 4 * 16 + b / 16)
      :: digit (b mod 16 * 4 + c / 64) :: digit (c mod 64)
      :: encode_groups rest
  end.

(** An encoder that always succeeds. *)
Definition encode (b : bytes) : JsError + string :=
  inr (string_of_list_ascii (encode_groups (map Byte.to_N b))).

(** An encoder whose promise always rejects. *)
Definition broken_encode (b : bytes) : JsError + string :=
  inl "EncodingError"%string.

Fixpoint position (c : Ascii.ascii) (l : list Ascii.ascii) : option N :=
  match l with
  | [] => None
  | x :: rest =>
      if Ascii.eqb x c then Some 0 else N.succ <$> position c rest
  end.

Definition value (c : Ascii.ascii) : option N := position c alphabet.

Fixpoint decode_groups (l : list Ascii.ascii) : option (list N) :=
  match l with
  | [] => Some []
  | a :: b :: c :: d :: rest =>
      va ← value a; vb ← value b;
      if Ascii.eqb c pad && Ascii.eqb d pad then
        match rest with
        | [] => Some [va * 4 + vb / 16]
        | _ => None
        end
      else
        vc ← value c;
        if Ascii.eqb d pad then
          match rest with
          | [] => Some [va * 4 + vb / 16; vb mod 16 * 16 + vc / 4]
          | _ => None
          end
        else
          vd ← value d; tl ← decode_groups rest;
          Some (va * 4 + vb / 16 :: vb mod 16 * 16 + vc / 4
                :: vc mod 4 * 64 + vd :: tl)
  | _ => None
  end.

(** A decoder that throws on what is not base64. *)
Definition decode (s : string) : JsError + bytes :=
  match decode_groups (list_ascii_of_string s) ≫= mapM Byte.of_N with
  | Some b => inr b
  | None => inl "InvalidCharacterError"%string
  end.

(** The caller's replica: the updates applied, by guid, in order. *)
Definition Replica := list (string * bytes).

Definition record : @Callback Replica :=
  fun g update replica => replica ++ [(g, update)].

(** Presence: one payload per client. *)
Definition Presence := list (N * bytes).

Definition payload_of (st : Presence) (client : N) : option bytes :=
  match List.find (fun x => N.eqb (fst x) client) st with
  | Some (_, payload) => Some payload
  | None => None
  end.

(** Each client as a length-prefixed entry. The engine throws on a
    client the replica holds nothing of. *)
Fixpoint encodeAwareness (st : Presence) (clients : list N)
    : JsError + bytes :=
  match clients with
  | [] => inr []
  | client :: rest =>
      match payload_of st client with
      | None => inl "TypeError"%string
      | Some payload =>
          match encodeAwareness st rest with
          | inl e => inl e
          | inr entries =>
              match Byte.of_N (client mod 256),
                    Byte.of_N (N.of_nat (length payload) mod 256) with
              | Some c, Some n => inr (c :: n :: payload ++ entries)
              | _, _ => inr entries
              end
          end
      end
  end.

(** An update is the entry of one client. The engine throws on bytes
    that are not one, and leaves the replica as it is. *)
Definition applyAwareness (st : Presence) (update : bytes)
    : (JsError * Presence) + (Presence * option AwarenessChanges) :=
  match update with
  | c :: n :: payload =>
      if N.eqb (Byte.to_N n) (N.of_nat (length payload)) then
        let client := Byte.to_N c in
        let known := existsb (fun x => N.eqb (fst x) client) st in
        inr ((client, payload)
               :: List.filter (fun x => negb (N.eqb (fst x) client)) st,
             Some {| added := if known then [] else [client];
                     updated := if known then [client] else [];
                     removed := [] |})
      else inl ("Unexpected end of array"%string, st)
  | _ => inl ("Unexpected end of array"%string, st)
  end.

Definition hello : bytes := list_byte_of_string "hello".

(** Nothing connected, nothing registered. *)
Definition start : @World Replica Presence :=
  {| connected := false; listeners := []; acks := [];
     clientID := 7; states := [(7, list_byte_of_string "me")];
     observers := []; env := []; promises := ∅; jobs := [];
     fresh := 0%nat; log := [] |}.

Definition workspace : Doc := {| guid := "workspace-1" |}.

Definition moved : AwarenessChanges :=
  {| added := []; updated := [7]; removed := [] |}.

(** One session, to be run under two room names. *)
Definition script : list (@Op Replica Presence) :=
  [ CallOnDocUpdate record;
    Receive (ServerUpdate "workspace-1" "doc-a" "aGVsbG8=");
    Receive NewClientAwarenessInit;
    Finish 0;
    CallSendDocUpdate "doc-a" hello;
    Finish 0;
    CallQueryDocState "doc-b" None;
    ReceiveAck 6 AckNull;
    CallTeardown 0 ].

(** What goes on while the first query waits for its acknowledgement:
    a second query, acknowledged first, a document update, a message. *)
Definition meanwhile : list (@Op Replica Presence) :=
  [ CallQueryDocState "doc-b" None;
    ReceiveAck 3 AckNull;
    CallSendDocUpdate "doc-a" hello;
    Finish 0;
    Receive (ServerUpdate "workspace-1" "doc-a" "aGVsbG8=") ].

Example encode_hello : encode hello = inr "aGVsbG8="%string.
Proof. reflexivity. Qed.

Example decode_hello : decode "aGVsbG8=" = inr hello.
Proof. reflexivity. Qed.

Example decode_garbage : decode "a?" = inl "InvalidCharacterError"%string.
Proof. reflexivity. Qed.

Lemma wf_start : wf start.
Proof. repeat split; constructor. Qed.

Lemma tidy_start : tidy start.
Proof. repeat split; constructor. Qed.

(** A query with a state vector, acknowledged with an update after
    the events above. *)
Lemma queryDocState_result_witness :
  let r :=
    queryDocState workspace "doc-a"
      (Some {| stateVector := Some hello |}) start in
  let w1 := snd (finish encode (length (jobs start)) (snd r)) in
  let w2 :=
    snd (run encode decode encodeAwareness applyAwareness
           (data_source workspace) [] meanwhile w1) in
  tidy start
  /\ Forall (fun op => acknowledges 1 op = false) meanwhile
  /\ promises (snd (receive_ack decode 1 (AckString "aGVsbG8=") w2)) !! fst r =
       Some (Fulfilled (VBytes hello)).
Proof.
  assert (Hm : Forall (fun op : @Op Replica Presence =>
                         acknowledges 1 op = false) meanwhile)
    by (repeat constructor).
  split; [exact tidy_start|]. split; [exact Hm|].
  destruct (queryDocState_result encode decode encodeAwareness applyAwareness
              workspace "doc-a"
              (Some {| stateVector := Some hello |})
              (AckString "aGVsbG8=") start meanwhile tidy_start)
    as (_ & _ & _ & _ & H).
  - intros sv _. eexists. reflexivity.
  - exact Hm.
  - apply H; [discriminate|reflexivity].
Defined.

(** The second run of a teardown emits client-leave again. *)
Lemma teardown_twice_witness :
  let td := fun x => snd (fst (onDocUpdate workspace record start) x) in
  let w1 := snd (onDocUpdate workspace record start) in
  wf start
  /\ count_emits "client-leave" (log (td (td w1))) =
       (count_emits "client-leave" (log w1) + 2)%nat
  /\ listeners (td (td w1)) = listeners (td w1)
  /\ connected (td (td w1)) = false.
Proof.
  split; [exact wf_start|].
  destruct (teardown_twice workspace record start 2 wf_start)
    as (_ & H2 & _ & _ & _ & Hl & _ & Hc).
  split; [exact H2|]. split; [exact Hl|exact Hc].
Defined.

(** Two runs of the teardown: two client-leave, not one. *)
Lemma teardown_twice_leaves_twice :
  let td := fun x => snd (fst (onDocUpdate workspace record start) x) in
  let w1 := snd (onDocUpdate workspace record start) in
  count_emits "client-leave" (log (td (td w1))) = 2%nat
  /\ count_emits "client-leave" (log (td (td w1))) <> 1%nat.
Proof. split; [reflexivity|]. intros H. vm_compute in H. discriminate. Qed.

(** A message for another workspace, then one for this one. *)
Lemma server_update_filter_witness :
  let w1 := snd (onDocUpdate workspace record start) in
  let deliver ws :=
    receive decode encodeAwareness applyAwareness
      (ServerUpdate ws "doc-a" "aGVsbG8=") w1 in
  Forall (fun x => sl_event x <> "server-update"%string) (listeners start)
  /\ deliver "other"%string = (Normal, w1)
  /\ env (snd (deliver "workspace-1"%string)) = [("doc-a"%string, hello)].
Proof.
  split; [constructor|]. split.
  - destruct (server_update_filter decode encodeAwareness applyAwareness
                workspace record start "other" "doc-a" "aGVsbG8="
                (List.Forall_nil _)) as [H _].
    apply H. discriminate.
  - destruct (server_update_filter decode encodeAwareness applyAwareness
                workspace record start "workspace-1" "doc-a" "aGVsbG8="
                (List.Forall_nil _)) as (_ & H & _).
    cbv zeta. rewrite (H eq_refl hello eq_refl). reflexivity.
Defined.

(** The entry of client 7 once it holds [hello], and as it is at the
    start. *)
Definition greeting : bytes := Byte.x07 :: Byte.x05 :: hello.

Definition myself : bytes :=
  Byte.x07 :: Byte.x02 :: list_byte_of_string "me".

(** A change applied from the server, then a local one. *)
Lemma local_change_emission_witness :
  let w1 := snd (setupAffineAwareness workspace start) in
  let st := [(7, hello)] in
  observers start = []
  /\ OriginStr "local" <> OriginStr "server"
  /\ encodeAwareness st (added moved ++ updated moved ++ removed moved) =
       inr greeting
  /\ awareness_change encodeAwareness st moved (OriginStr "server") w1 =
       (Normal, set_states st w1)
  /\ finish encode (length (jobs w1))
       (snd (awareness_change encodeAwareness st moved
               (OriginStr "local") w1)) =
       (tt,
        set_log
          (log w1 ++
           [EEmit "awareness-update"
              (PAwareness (Some "workspace-1"%string) None "BwVoZWxsbw==")
              None])
          (set_states st w1)).
Proof.
  split; [reflexivity|]. split; [discriminate|]. split; [reflexivity|].
  split.
  - destruct (local_change_emission encode decode encodeAwareness
                applyAwareness workspace start
                [(7, hello)] moved (OriginStr "server") eq_refl) as [H _].
    apply H. reflexivity.
  - destruct (local_change_emission encode decode encodeAwareness
                applyAwareness workspace start
                [(7, hello)] moved (OriginStr "local") eq_refl)
      as (_ & H & _).
    destruct (H ltac:(discriminate) greeting eq_refl) as [_ H2].
    apply H2. reflexivity.
Defined.

(** A new client joins: the local entry alone is sent again. *)
Lemma new_client_reannounce_witness :
  let w1 := snd (setupAffineAwareness workspace start) in
  Forall (fun x => sl_event x <> "new-client-awareness-init"%string)
         (listeners start)
  /\ encodeAwareness (states w1) [clientID w1] = inr myself
  /\ finish encode (length (jobs w1))
       (snd (receive decode encodeAwareness applyAwareness
               NewClientAwarenessInit w1)) =
       (tt,
        set_log
          (log w1 ++
           [EEmit "awareness-update"
              (PAwareness None (Some "workspace-1"%string) "BwJtZQ==") None])
          w1).
Proof.
  split; [constructor|]. split; [reflexivity|].
  destruct (new_client_reannounce encode decode encodeAwareness
              applyAwareness workspace start (List.Forall_nil _)
              myself eq_refl) as [_ H].
  apply H. reflexivity.
Defined.

(** A change that names a client the replica holds nothing of. *)
Definition stranger : AwarenessChanges :=
  {| added := [9]; updated := []; removed := [] |}.

(** With an encoder that fails, presence is lost with a logged error
    and the document update is refused to its caller; with an engine
    that throws, the exception leaves the handler. *)
Lemma encoding_failures_witness :
  let sent := sendDocUpdate workspace "doc-a" hello start in
  OriginStr "local" <> OriginStr "server"
  /\ encodeAwareness (states start) (changedClients moved) = inr myself
  /\ encodeAwareness (states start) [clientID start] = inr myself
  /\ broken_encode myself = inl "EncodingError"%string
  /\ encodeAwareness (states start) (changedClients stranger) =
       inl "TypeError"%string
  /\ finish broken_encode 0
       (snd (awarenessUpdate encodeAwareness workspace moved
               (OriginStr "local") start)) =
       (tt, set_log [EError "EncodingError"] start)
  /\ finish broken_encode 0
       (snd (newClientAwarenessInitHandler encodeAwareness workspace start)) =
       (tt, set_log [EError "EncodingError"] start)
  /\ awarenessUpdate encodeAwareness workspace stranger (OriginStr "local")
       start = (Throws "TypeError", start)
  /\ promises (snd (finish broken_encode 0 (snd sent))) !! fst sent =
       Some (Rejected "EncodingError").
Proof.
  split; [discriminate|]. split; [reflexivity|]. split; [reflexivity|].
  split; [reflexivity|]. split; [reflexivity|].
  destruct (encoding_failures broken_encode decode encodeAwareness
              applyAwareness workspace start)
    as (H1 & H2 & H3 & _ & _ & _ & H4).
  split.
  - exact (proj2 (H1 moved (OriginStr "local") myself "EncodingError"%string
                    ltac:(discriminate) eq_refl eq_refl)).
  - split; [exact (proj2 (H2 myself "EncodingError"%string
                            eq_refl eq_refl))|].
    split; [exact (H3 stranger (OriginStr "local") "TypeError"%string
                     ltac:(discriminate) eq_refl)|].
    exact (proj1 (H4 "doc-a"%string hello "EncodingError"%string eq_refl)).
Defined.

(** An exception of the engine is neither caught nor logged: on the
    path of a local change it reaches the caller that changed the
    replica, on the path of the re-announcement the dispatch of the
    socket. *)
Lemma encoding_failures_engine_throws :
  let w1 := snd (setupAffineAwareness workspace start) in
  let lost := set_states [] w1 in
  let changed :=
    awareness_change encodeAwareness [(7, hello)] stranger
      (OriginStr "local") w1 in
  let joined :=
    receive decode encodeAwareness applyAwareness
      NewClientAwarenessInit lost in
  changed = (Throws "TypeError", set_states [(7, hello)] w1)
  /\ joined = (Throws "TypeError", lost)
  /\ List.filter
       (fun e => match e with EError _ => true | _ => false end)
       (log (snd changed) ++ log (snd joined)) = []
  /\ fst changed <> Normal
  /\ fst joined <> Normal.
Proof.
  split; [vm_compute; reflexivity|].
  split; [vm_compute; reflexivity|].
  split; [vm_compute; reflexivity|].
  split; intros H; vm_compute in H; discriminate.
Qed.

(** The bridge set up and torn down: the releases are not the
    registrations in reverse. *)
Lemma awareness_teardown_not_reversed :
  let w1 := snd (setupAffineAwareness workspace start) in
  let destroy := fst (setupAffineAwareness workspace start) in
  releases w1 (snd (destroy w1)) =
    [ OnAwareness 1;
      OnSocket "server-awareness-broadcast" 0;
      OnSocket "new-client-awareness-init" 2 ]
  /\ rev (registrations start w1) =
       [ OnAwareness 1;
         OnSocket "new-client-awareness-init" 2;
         OnSocket "server-awareness-broadcast" 0 ]
  /\ releases w1 (snd (destroy w1)) <> rev (registrations start w1).
Proof.
  split; [reflexivity|]. split; [reflexivity|].
  intros H. vm_compute in H. discriminate.
Qed.

Lemma id_only_warns_witness :
  in_room "workspace-1" start
  /\ exists rest : list Effect,
       Forall (for_room "workspace-1") rest
       /\ log (snd (session encode decode encodeAwareness applyAwareness
                      "workspace-1" workspace script start)) = rest
       /\ log (snd (session encode decode encodeAwareness applyAwareness
                      "my-workspace" workspace script start)) =
            EWarn "important!! please use doc.guid as roomName" :: rest.
Proof.
  assert (Hs : in_room "workspace-1" start) by (repeat split; constructor).
  split; [exact Hs|].
  destruct (id_only_warns encode decode encodeAwareness applyAwareness
              workspace script start) as (rest & final & Hid & Hroom).
  exists rest. split; [exact (proj1 (Hroom Hs))|].
  split.
  - rewrite (proj1 (Hid "workspace-1"%string)). reflexivity.
  - rewrite (proj1 (Hid "my-workspace"%string)). reflexivity.
Defined.

(** ** The further properties, on the same session *)

Definition world : bytes := list_byte_of_string "world".

(** The entry of client 8, as the server broadcasts it. *)
Definition peer : bytes := [Byte.x08; Byte.x02; Byte.x68; Byte.x69].

Lemma quiet_meanwhile :
  Forall (fun op : @Op Replica Presence => quiet op = true) meanwhile.
Proof. repeat constructor. Qed.

(** A broadcast for another workspace, one for this one, and one for
    this one whose bytes are no awareness update. *)
Lemma broadcast_applied_witness :
  let w1 := snd (setupAffineAwareness workspace start) in
  let deliver ws au :=
    receive decode encodeAwareness applyAwareness
      (ServerAwarenessBroadcast ws au) w1 in
  Forall (fun x => sl_event x <> "server-awareness-broadcast"%string)
         (listeners start)
  /\ decode "CAJoaQ==" = inr peer
  /\ decode "aGVsbG8=" = inr hello
  /\ deliver "other"%string "CAJoaQ=="%string = (Normal, w1)
  /\ deliver "workspace-1"%string "CAJoaQ=="%string =
       (Normal,
        set_states [(8, list_byte_of_string "hi"); (7, list_byte_of_string "me")]
          (set_log (log w1 ++ [EApplyAwareness peer (OriginStr "server")]) w1))
  /\ deliver "workspace-1"%string "aGVsbG8="%string =
       (Throws "Unexpected end of array",
        set_states [(7, list_byte_of_string "me")]
          (set_log (log w1 ++ [EApplyAwareness hello (OriginStr "server")])
             w1)).
Proof.
  split; [constructor|]. split; [reflexivity|]. split; [reflexivity|].
  split; [|split].
  - destruct (broadcast_applied decode encodeAwareness applyAwareness
                workspace start "other" "CAJoaQ==" (List.Forall_nil _))
      as [H _].
    apply H. discriminate.
  - destruct (broadcast_applied decode encodeAwareness applyAwareness
                workspace start "workspace-1" "CAJoaQ==" (List.Forall_nil _))
      as [_ H].
    destruct (H eq_refl peer eq_refl) as [H1 _].
    exact (H1 _ _ eq_refl).
  - destruct (broadcast_applied decode encodeAwareness applyAwareness
                workspace start "workspace-1" "aGVsbG8=" (List.Forall_nil _))
      as [_ H].
    destruct (H eq_refl hello eq_refl) as [_ H2].
    exact (H2 _ _ eq_refl).
Defined.

(** What is not base64, as a document update and as a broadcast. *)
Lemma undecodable_payloads_witness :
  let w1 := snd (onDocUpdate workspace record start) in
  Forall (fun x => sl_event x <> "server-update"%string) (listeners start)
  /\ Forall (fun x => sl_event x <> "server-awareness-broadcast"%string)
       (listeners start)
  /\ decode "a?" = inl "InvalidCharacterError"%string
  /\ receive decode encodeAwareness applyAwareness
       (ServerUpdate "workspace-1" "doc-a" "a?") w1 =
       (Normal,
        set_log (log w1 ++ [EUnhandledRejection "InvalidCharacterError"]) w1)
  /\ receive decode encodeAwareness applyAwareness
       (ServerAwarenessBroadcast "workspace-1" "a?") w1 =
       (Throws "InvalidCharacterError", w1).
Proof.
  split; [constructor|]. split; [constructor|]. split; [reflexivity|].
  exact (undecodable_payloads decode encodeAwareness applyAwareness
           workspace record start "doc-a" "a?" "InvalidCharacterError"
           (List.Forall_nil _) (List.Forall_nil _) eq_refl).
Defined.

(** A query with a state vector, under the encoder that fails. *)
Lemma queryDocState_unencodable_witness :
  let options := Some {| stateVector := Some hello |} in
  let r := queryDocState workspace "doc-a" options start in
  let w2 := snd (finish broken_encode (length (jobs start)) (snd r)) in
  options ≫= stateVector = Some hello
  /\ broken_encode hello = inl "EncodingError"%string
  /\ promises w2 !! fst r = Some (Rejected "EncodingError")
  /\ log w2 = log start
  /\ acks w2 = acks start.
Proof.
  split; [reflexivity|]. split; [reflexivity|].
  destruct (queryDocState_unencodable broken_encode workspace "doc-a"
              (Some {| stateVector := Some hello |}) hello "EncodingError"
              start eq_refl eq_refl) as (_ & H1 & H2 & H3 & _).
  split; [exact H1|]. split; [exact H2|exact H3].
Defined.

(** A query acknowledged with what is not base64, and the events
    above after it. *)
Lemma undecodable_ack_strands_witness :
  let r := queryDocState workspace "doc-a" None start in
  let w1 := snd (finish encode (length (jobs start)) (snd r)) in
  let a := receive_ack decode 1 (AckString "a?") w1 in
  let w3 :=
    snd (run encode decode encodeAwareness applyAwareness
           (data_source workspace) [] meanwhile (snd a)) in
  tidy start
  /\ "a?"%string <> ""%string
  /\ decode "a?" = inl "InvalidCharacterError"%string
  /\ Forall (fun op => acknowledges 1 op = false) meanwhile
  /\ fst a = Throws "InvalidCharacterError"
  /\ promises (snd a) !! fst r = Some Pending
  /\ promises w3 !! fst r = Some Pending.
Proof.
  split; [exact tidy_start|]. split; [discriminate|]. split; [reflexivity|].
  assert (Hm : Forall (fun op : @Op Replica Presence =>
                         acknowledges 1 op = false) meanwhile)
    by (repeat constructor).
  split; [exact Hm|].
  destruct (undecodable_ack_strands encode decode encodeAwareness
              applyAwareness workspace "doc-a" None "a?"
              "InvalidCharacterError" start meanwhile tidy_start)
    as (H1 & H2 & H3).
  - intros sv H. discriminate H.
  - discriminate.
  - reflexivity.
  - exact Hm.
  - split; [exact H1|]. split; [exact H2|exact H3].
Defined.

(** Queries, updates and messages without an activation. *)
Lemma registers_on_activation_only_witness :
  let w' :=
    snd (session encode decode encodeAwareness applyAwareness
           "workspace-1" workspace meanwhile start) in
  Forall (fun op : @Op Replica Presence => quiet op = true) meanwhile
  /\ listeners w' = []
  /\ observers w' = []
  /\ connected w' = false.
Proof.
  split; [exact quiet_meanwhile|].
  exact (registers_on_activation_only encode decode encodeAwareness
           applyAwareness "workspace-1" workspace meanwhile start
           quiet_meanwhile).
Defined.

(** The events above between an activation and its teardown, and a
    document update after it. *)
Lemma teardown_after_events_witness :
  let td := fst (onDocUpdate workspace record start) in
  let w1 := snd (onDocUpdate workspace record start) in
  let w2 :=
    snd (run encode decode encodeAwareness applyAwareness
           (data_source workspace) [td] meanwhile w1) in
  let w3 := snd (td w2) in
  wf start
  /\ Forall (fun op : @Op Replica Presence => quiet op = true) meanwhile
  /\ listeners w2 = listeners w1
  /\ observers w2 = observers w1
  /\ listeners w3 = []
  /\ observers w3 = []
  /\ connected w3 = false
  /\ receive decode encodeAwareness applyAwareness
       (ServerUpdate "workspace-1" "doc-a" "aGVsbG8=") w3 = (Normal, w3).
Proof.
  split; [exact wf_start|]. split; [exact quiet_meanwhile|].
  destruct (teardown_after_events encode decode encodeAwareness
              applyAwareness workspace record start meanwhile wf_start
              quiet_meanwhile) as (H1 & H2 & H3 & H4 & H5 & H6).
  split; [exact H1|]. split; [exact H2|]. split; [exact H3|].
  split; [exact H4|]. split; [exact H5|].
  destruct (H6 eq_refl eq_refl
              (ServerUpdate "workspace-1" "doc-a" "aGVsbG8=")
              [] moved OriginOther) as [H _].
  exact H.
Defined.

(** Two activations, the first torn down. *)
Lemma teardown_disconnects_shared_socket_witness :
  let td := fst (onDocUpdate workspace record start) in
  let w1 := snd (onDocUpdate workspace record start) in
  let w2 := snd (onDocUpdate workspace record w1) in
  let w3 := snd (td w2) in
  wf start
  /\ connected w2 = true
  /\ map sl_id (listeners w3) = [4; 5; 7]%nat
  /\ map al_id (observers w3) = [6]%nat
  /\ connected w3 = false.
Proof.
  split; [exact wf_start|].
  destruct (teardown_disconnects_shared_socket workspace record record
              start wf_start) as (H1 & H2 & H3 & H4).
  split; [exact H1|]. split; [rewrite H2; reflexivity|].
  split; [rewrite H3; reflexivity|exact H4].
Defined.

(** A local change, the teardown, and then the encoding is done. *)
Lemma encoding_outlives_teardown_witness :
  let st := [(7, hello)] in
  let td := fst (onDocUpdate workspace record start) in
  let w1 := snd (onDocUpdate workspace record start) in
  let w2 :=
    snd (awareness_change encodeAwareness st moved (OriginStr "local") w1) in
  let w4 := snd (finish encode (length (jobs start)) (snd (td w2))) in
  observers start = []
  /\ OriginStr "local" <> OriginStr "server"
  /\ encodeAwareness st (changedClients moved) = inr greeting
  /\ encode greeting = inr "BwVoZWxsbw=="%string
  /\ log w4 =
       log w1 ++
       [ EEmit "client-leave" (PRoom "workspace-1") None;
         EOff "server-update" 0;
         EAwarenessOff 2;
         EOff "server-awareness-broadcast" 1;
         EOff "new-client-awareness-init" 3;
         EDisconnect;
         EEmit "awareness-update"
           (PAwareness (Some "workspace-1"%string) None "BwVoZWxsbw==") None ]
  /\ connected w4 = false.
Proof.
  split; [reflexivity|]. split; [discriminate|]. split; [reflexivity|].
  split; [reflexivity|].
  destruct (encoding_outlives_teardown encode encodeAwareness workspace
              record start [(7, hello)] moved (OriginStr "local") greeting
              "BwVoZWxsbw==" eq_refl) as (_ & H1 & H2 & _).
  - discriminate.
  - reflexivity.
  - reflexivity.
  - split; [exact H1|exact H2].
Defined.

(** Two activations, one local change. *)
Lemma local_change_per_activation_witness :
  let st := [(7, hello)] in
  let w2 := Nat.iter 2 (fun x => snd (onDocUpdate workspace record x)) start in
  let job := AwarenessEmitJob ByWorkspaceId "workspace-1" greeting in
  wf start
  /\ observers start = []
  /\ OriginStr "local" <> OriginStr "server"
  /\ encodeAwareness st (changedClients moved) = inr greeting
  /\ awareness_change encodeAwareness st moved (OriginStr "local") w2 =
       (Normal, set_jobs [job; job] (set_states st w2)).
Proof.
  split; [exact wf_start|]. split; [reflexivity|]. split; [discriminate|].
  split; [reflexivity|].
  apply (local_change_per_activation encodeAwareness workspace record start
           2 [(7, hello)] moved (OriginStr "local") greeting wf_start
           eq_refl).
  - discriminate.
  - reflexivity.
Defined.

(** Two updates, the second encoded first. *)
Lemma sendDocUpdate_order_witness :
  let w1 := snd (sendDocUpdate workspace "doc-a" hello start) in
  let w2 := snd (sendDocUpdate workspace "doc-b" world w1) in
  let reversed := snd (finish encode 0 (snd (finish encode 1 w2))) in
  encode hello = inr "aGVsbG8="%string
  /\ encode world = inr "d29ybGQ="%string
  /\ log reversed =
       [ EEmit "client-update"
           (PClientUpdate "workspace-1" "doc-b" "d29ybGQ=") None;
         EEmit "client-update"
           (PClientUpdate "workspace-1" "doc-a" "aGVsbG8=") None ].
Proof.
  split; [reflexivity|]. split; [reflexivity|].
  destruct (sendDocUpdate_order encode workspace "doc-a" "doc-b" hello world
              "aGVsbG8=" "d29ybGQ=" start eq_refl eq_refl)
    as (_ & H & _).
  exact H.
Defined.

(** A session in which no update for the workspace arrives intact. *)
Definition elsewhere : list (@Op Replica Presence) :=
  [ CallOnDocUpdate record;
    Receive (ServerUpdate "other" "doc-a" "aGVsbG8=");
    Receive (ServerUpdate "workspace-1" "doc-a" "a?");
    Receive (ServerAwarenessBroadcast "workspace-1" "CAJoaQ==");
    Receive NewClientAwarenessInit;
    Finish 0;
    CallSendDocUpdate "doc-a" hello;
    CallTeardown 0 ].

Lemma callback_only_on_server_update_witness :
  let w' :=
    snd (run encode decode encodeAwareness applyAwareness
           (data_source workspace) [] elsewhere start) in
  in_room "workspace-1" start
  /\ Forall (fun op => silent decode workspace op = true) elsewhere
  /\ env w' = []
  /\ List.filter is_callback (log w') = [].
Proof.
  assert (Hs : in_room "workspace-1" start) by (repeat split; constructor).
  assert (He : Forall (fun op : @Op Replica Presence =>
                         silent decode workspace op = true) elsewhere)
    by (repeat constructor).
  split; [exact Hs|]. split; [exact He|].
  exact (callback_only_on_server_update encode decode encodeAwareness
           applyAwareness workspace elsewhere start Hs He).
Defined.

(** A query with an empty state vector, and one with none. *)
Lemma queryDocState_state_vector_witness :
  let empty := Some {| stateVector := Some [] |} in
  let asked := snd (queryDocState workspace "doc-a" empty start) in
  empty ≫= stateVector = Some []
  /\ encode [] = inr ""%string
  /\ log asked = []
  /\ log (snd (finish encode 0 asked)) =
       [EEmit "doc-load" (PDocLoad "workspace-1" "doc-a" (Some ""%string))
          (Some 1%nat)]
  /\ log (snd (queryDocState workspace "doc-a" None start)) =
       [EEmit "doc-load" (PDocLoad "workspace-1" "doc-a" None) (Some 1%nat)].
Proof.
  split; [reflexivity|]. split; [reflexivity|].
  destruct (queryDocState_state_vector encode workspace "doc-a"
              (Some {| stateVector := Some [] |}) start) as [_ H].
  destruct (H [] ""%string eq_refl eq_refl) as (H1 & _ & H2 & _).
  split; [exact H1|]. split; [exact H2|].
  destruct (queryDocState_state_vector encode workspace "doc-a" None start)
    as [H3 _].
  exact (proj1 (H3 eq_refl)).
Defined.

(** Two activations, then an update, a broadcast, and a broadcast
    whose bytes are no awareness update. *)
Lemma every_activation_is_served_witness :
  let w2 :=
    snd (onDocUpdate workspace record
           (snd (onDocUpdate workspace record start))) in
  Forall (fun x => sl_event x <> "server-update"%string) (listeners start)
  /\ Forall (fun x => sl_event x <> "server-awareness-broadcast"%string)
       (listeners start)
  /\ decode "aGVsbG8=" = inr hello
  /\ decode "CAJoaQ==" = inr peer
  /\ env (snd (receive decode encodeAwareness applyAwareness
                 (ServerUpdate (guid workspace) "doc-a" "aGVsbG8=") w2)) =
       [("doc-a"%string, hello); ("doc-a"%string, hello)]
  /\ log (snd (receive decode encodeAwareness applyAwareness
                 (ServerAwarenessBroadcast (guid workspace) "CAJoaQ==") w2)) =
       log w2 ++
       [EApplyAwareness peer (OriginStr "server");
        EApplyAwareness peer (OriginStr "server")]
  /\ receive decode encodeAwareness applyAwareness
       (ServerAwarenessBroadcast (guid workspace) "aGVsbG8=") w2 =
       (Throws "Unexpected end of array",
        set_states [(7, list_byte_of_string "me")]
          (set_log (log w2 ++ [EApplyAwareness hello (OriginStr "server")])
             w2)).
Proof.
  split; [constructor|]. split; [constructor|].
  split; [reflexivity|]. split; [reflexivity|].
  destruct (every_activation_is_served decode encodeAwareness applyAwareness
              workspace record record start "doc-a" "aGVsbG8=" "CAJoaQ=="
              hello peer (List.Forall_nil _) (List.Forall_nil _)
              eq_refl eq_refl) as (H1 & H2 & _).
  destruct (every_activation_is_served decode encodeAwareness applyAwareness
              workspace record record start "doc-a" "aGVsbG8=" "aGVsbG8="
              hello hello (List.Forall_nil _) (List.Forall_nil _)
              eq_refl eq_refl) as (_ & _ & H3).
  cbv zeta in H1, H2, H3 |- *.
  rewrite H1, (H2 _ _ _ _ eq_refl eq_refl).
  split; [reflexivity|]. split; [reflexivity|].
  exact (H3 _ _ eq_refl).
Defined.

End Demo.

(** * The user resolver of the GraphQL server

    [UserResolver] answers the queries [currentUser] and [user] and the
    mutations [uploadAvatar], [updateUser] and [deleteAccount] through
    the Prisma client and the storage service. Both are services of the
    server: their operations are variables of the section, and every
    call made on them is recorded. *)

Module UserResolver.

(** JavaScript truthiness of a string, and of one that may be absent
    ([undefined] or [null]). *)
Definition truthy_string (s : string) : bool := negb (s =? "").

Definition truthy (s : option string) : bool :=
  match s with
  | Some s => truthy_string s
  | None => false
  end.

(** Truthiness of an object that may be absent. *)
Definition present {A} (o : option A) : bool :=
  match o with
  | Some _ => true
  | None => false
  end.

Inductive Exception :=
| BadRequestException (message : string)
| Thrown (e : JsError).

(** The [where] of a [findUnique] on users. *)
Inductive UserWhere :=
| WhereId (id : string)
| WhereEmail (email : string).

(** The [data] of an [update] on users: the columns it names, with
    their values. *)
Record UserUpdateInput := {
  data_avatarUrl : option (option string);
  data_name : option string;
  data_password : option (option string);
  data_email : option string
}.

Record DeleteAccount := { success : bool }.

Section Resolver.

Context {Date File DB Storage : Type}.

(** The row of a user. *)
Record User := {
  id : string;
  name : string;
  email : string;
  emailVerified : Date;
  avatarUrl : option string;
  createdAt : Date;
  password : option string
}.

(** The GraphQL object [UserType]. *)
Record UserType := {
  type_id : string;
  type_name : string;
  type_email : string;
  type_emailVerified : Date;
  type_avatarUrl : option string;
  type_createdAt : Date;
  hasPassword : bool
}.

(** [prisma.user.findUnique], [prisma.user.update], [prisma.user.delete]
    and [prisma.session.deleteMany] on the database, and
    [storage.uploadFile]; an operation that fails leaves its service as
    it was. *)
Variable prisma_user_findUnique : UserWhere -> DB -> Exception + option User.
Variable prisma_user_update :
  string -> UserUpdateInput -> DB -> Exception + (User * DB).
Variable prisma_user_delete : string -> DB -> Exception + (User * DB).
Variable prisma_session_deleteMany : string -> DB -> Exception + (nat * DB).
Variable storage_uploadFile :
  string -> File -> Storage -> Exception + (string * Storage).

Inductive Call :=
| FindUnique (selection : UserWhere)
| Update (user : string) (data : UserUpdateInput)
| Delete (user : string)
| DeleteMany (userId : string)
| UploadFile (key : string) (file : File).

Record Services := {
  db : DB;
  storage : Storage;
  calls : list Call
}.

Definition set_db (d : DB) (s : Services) : Services :=
  {| db := d; storage := storage s; calls := calls s |}.

Definition set_storage (st : Storage) (s : Services) : Services :=
  {| db := db s; storage := st; calls := calls s |}.

Definition set_calls (l : list Call) (s : Services) : Services :=
  {| db := db s; storage := storage s; calls := l |}.

(** ** Awaited calls in sequence *)

Definition P (A : Type) : Type := Services -> (Exception + A) * Services.

Definition ret {A} (a : A) : P A := fun s => (inr a, s).

Definition throw {A} (e : Exception) : P A := fun s => (inl e, s).

Definition bind {A B} (c : P A) (k : A -> P B) : P B :=
  fun s =>
    match c s with
    | (inr a, s') => k a s'
    | (inl e, s') => (inl e, s')
    end.

Definition catch {A} (c : P A) (handler : Exception -> P A) : P A :=
  fun s =>
    match c s with
    | (inr a, s') => (inr a, s')
    | (inl e, s') => handler e s'
    end.

Notation "x <- c ;; k" := (bind c (fun x => k))
  (at level 100, c at next level, k at level 200, right associativity).
Notation "c ;; k" := (bind c (fun _ => k))
  (at level 100, k at level 200, right associativity).

Definition called (c : Call) : P unit :=
  fun s => (inr tt, set_calls (calls s ++ [c]) s).

Definition findUnique (selection : UserWhere) : P (option User) :=
  called (FindUnique selection) ;;
  fun s => (prisma_user_findUnique selection (db s), s).

Definition update (user : string) (data : UserUpdateInput) : P User :=
  called (Update user data) ;;
  fun s =>
    match prisma_user_update user data (db s) with
    | inr (row, d) => (inr row, set_db d s)
    | inl e => (inl e, s)
    end.

Definition delete (user : string) : P User :=
  called (Delete user) ;;
  fun s =>
    match prisma_user_delete user (db s) with
    | inr (row, d) => (inr row, set_db d s)
    | inl e => (inl e, s)
    end.

Definition deleteMany (userId : string) : P nat :=
  called (DeleteMany userId) ;;
  fun s =>
    match prisma_session_deleteMany userId (db s) with
    | inr (count, d) => (inr count, set_db d s)
    | inl e => (inl e, s)
    end.

Definition uploadFile (key : string) (file : File) : P string :=
  called (UploadFile key file) ;;
  fun s =>
    match storage_uploadFile key file (storage s) with
    | inr (url, st) => (inr url, set_storage st s)
    | inl e => (inl e, s)
    end.

(** ** The resolver *)

Definition currentUser (user : User) : P UserType :=
  ret {| type_id := id user;
         type_name := name user;
         type_email := email user;
         type_emailVerified := emailVerified user;
         type_avatarUrl := avatarUrl user;
         type_createdAt := createdAt user;
         hasPassword := truthy (password user) |}.

Definition user (email : string) : P (option User) :=
  catch (findUnique (WhereEmail email)) (fun _ => ret None).

Definition uploadAvatar (id : string) (avatar : File) : P User :=
  user <- findUnique (WhereId id) ;;
  match user with
  | None => throw (BadRequestException ("User " ++ id ++ " not found"))
  | Some _ =>
      url <- uploadFile (id ++ "-avatar") avatar ;;
      update id
        {| data_avatarUrl := Some (Some url); data_name := None;
           data_password := None; data_email := None |}
  end.

Definition updateUser (id : string) (name password email : option string)
    (avatar : option File) : P User :=
  user <- findUnique (WhereId id) ;;
  match user with
  | None => throw (BadRequestException ("User " ++ id ++ " not found"))
  | Some user =>
      if negb (truthy name) && negb (present avatar)
         && negb (truthy password) && negb (truthy email)
      then ret user
      else
        url <- match avatar with
               | Some avatar =>
                   url <- uploadFile (id ++ "-avatar") avatar ;; ret (Some url)
               | None => ret None
               end ;;
        update id
          {| data_avatarUrl :=
               Some (if truthy url then url else avatarUrl user);
             data_name :=
               Some (match name with
                     | Some n => if truthy_string n then n else Resolver.name user
                     | None => Resolver.name user
                     end);
             data_password :=
               Some (if truthy password then password
                     else Resolver.password user);
             data_email :=
               Some (match email with
                     | Some e => if truthy_string e then e else Resolver.email user
                     | None => Resolver.email user
                     end) |}
  end.

Definition deleteAccount (user : UserType) : P DeleteAccount :=
  delete (type_id user) ;;
  deleteMany (type_id user) ;;
  ret {| success := true |}.

(** ** What the properties are stated with *)

(** The calls made from [s] to [s']. *)
Definition made (s s' : Services) : list Call :=
  drop (length (calls s)) (calls s').

(** The message of the exception for a user that is not there. *)
Definition not_found (id : string) : Exception :=
  BadRequestException ("User " ++ id ++ " not found").

(** ** A user that is not there *)

Lemma findUnique_result (selection : UserWhere) (s : Services) :
  findUnique selection s =
    (prisma_user_findUnique selection (db s),
     set_calls (calls s ++ [FindUnique selection]) s).
Proof. reflexivity. Qed.

(** X11. [updateUser] and [uploadAvatar] on an id that [findUnique]
    does not find throw the BadRequestException naming the id, after
    the lookup and nothing else: nothing is uploaded and nothing is
    written. *)
Theorem unknown_user_is_bad_request (id : string)
    (name password email : option string) (avatar : option File)
    (file : File) (s : Services) :
  prisma_user_findUnique (WhereId id) (db s) = inr None ->
  let looked_up := set_calls (calls s ++ [FindUnique (WhereId id)]) s in
  updateUser id name password email avatar s = (inl (not_found id), looked_up)
  /\ uploadAvatar id file s = (inl (not_found id), looked_up).
Proof.
  intros Hf. cbv zeta. unfold updateUser, uploadAvatar, bind.
  rewrite findUnique_result, Hf. split; reflexivity.
Qed.

(** ** Updates *)

(** X12. [updateUser] with no avatar and with every other argument
    absent or the empty string returns the stored row as it is, after
    the lookup alone: an empty string counts as not given, and nothing
    is written. *)
Theorem updateUser_nothing_given (id : string)
    (name password email : option string) (row : User) (s : Services) :
  prisma_user_findUnique (WhereId id) (db s) = inr (Some row) ->
  truthy name = false ->
  truthy password = false ->
  truthy email = false ->
  updateUser id name password email None s =
    (inr row, set_calls (calls s ++ [FindUnique (WhereId id)]) s).
Proof.
  intros Hf Hn Hp He. unfold updateUser, bind.
  rewrite findUnique_result, Hf, Hn, Hp, He. reflexivity.
Qed.

Lemma made_app (s s' : Services) (l : list Call) :
  calls s' = calls s ++ l -> made s s' = l.
Proof. intros H. unfold made. rewrite H. apply drop_app_length. Qed.

(** The row [updateUser] writes over [row]. *)
Lemma updateUser_writes (id : string) (name password email : option string)
    (avatar : option File) (row : User) (s : Services)
    (i : string) (data : UserUpdateInput) :
  prisma_user_findUnique (WhereId id) (db s) = inr (Some row) ->
  Update i data ∈ made s (snd (updateUser id name password email avatar s)) ->
  i = id
  /\ exists url : option string,
       data =
         {| data_avatarUrl :=
              Some (if truthy url then url else avatarUrl row);
            data_name :=
              Some (match name with
                    | Some n => if truthy_string n then n else Resolver.name row
                    | None => Resolver.name row
                    end);
            data_password :=
              Some (if truthy password then password
                    else Resolver.password row);
            data_email :=
              Some (match email with
                    | Some e =>
                        if truthy_string e then e else Resolver.email row
                    | None => Resolver.email row
                    end) |}.
Proof.
  intros Hf. unfold updateUser, bind.
  rewrite findUnique_result, Hf.
  destruct (negb (truthy name) && negb (present avatar)
            && negb (truthy password) && negb (truthy email)).
  - cbn [snd]. rewrite (made_app s _ [FindUnique (WhereId id)]) by reflexivity.
    intros H. apply list_elem_of_singleton in H. discriminate H.
  - destruct avatar as [file|].
    + unfold uploadFile, called, bind, ret. cbn [calls set_calls storage db].
      destruct (storage_uploadFile _ file (storage s)) as [e|[url st]].
      * cbn [snd].
        rewrite (made_app s _ [FindUnique (WhereId id);
                                UploadFile (id ++ "-avatar") file]);
          [|cbn; now rewrite <- app_assoc].
        intros H. apply elem_of_cons in H as [H|H]; [discriminate H|].
        apply list_elem_of_singleton in H. discriminate H.
      * unfold update, called, bind. cbn [calls set_calls set_storage db].
        match goal with
        | |- Update i data ∈ made s (snd ?r) -> _ =>
            assert (Hm : made s (snd r) =
                         [FindUnique (WhereId id);
                          UploadFile (id ++ "-avatar") file;
                          Update id
                            {| data_avatarUrl :=
                                 Some (if truthy (Some url) then Some url
                                       else avatarUrl row);
                               data_name :=
                                 Some (match name with
                                       | Some n =>
                                           if truthy_string n then n
                                           else Resolver.name row
                                       | None => Resolver.name row
                                       end);
                               data_password :=
                                 Some (if truthy password then password
                                       else Resolver.password row);
                               data_email :=
                                 Some (match email with
                                       | Some e =>
                                           if truthy_string e then e
                                           else Resolver.email row
                                       | None => Resolver.email row
                                       end) |}])
        end.
        { apply made_app.
          destruct (prisma_user_update _ _ _) as [e|[row' d]];
            cbn; now rewrite <- !app_assoc. }
        rewrite Hm. intros H.
        apply elem_of_cons in H as [H|H]; [discriminate H|].
        apply elem_of_cons in H as [H|H]; [discriminate H|].
        apply list_elem_of_singleton in H. injection H as -> ->.
        split; [reflexivity|]. now exists (Some url).
    + unfold update, called, bind, ret. cbn [calls set_calls db].
      match goal with
      | |- Update i data ∈ made s (snd ?r) -> _ =>
          assert (Hm : made s (snd r) =
                       [FindUnique (WhereId id);
                        Update id
                          {| data_avatarUrl :=
                               Some (if truthy None then None
                                     else avatarUrl row);
                             data_name :=
                               Some (match name with
                                     | Some n =>
                                         if truthy_string n then n
                                         else Resolver.name row
                                     | None => Resolver.name row
                                     end);
                             data_password :=
                               Some (if truthy password then password
                                     else Resolver.password row);
                             data_email :=
                               Some (match email with
                                     | Some e =>
                                         if truthy_string e then e
                                         else Resolver.email row
                                     | None => Resolver.email row
                                     end) |}])
      end.
      { apply made_app.
        destruct (prisma_user_update _ _ _) as [e|[row' d]];
          cbn; now rewrite <- !app_assoc. }
      rewrite Hm. intros H.
      apply elem_of_cons in H as [H|H]; [discriminate H|].
      apply list_elem_of_singleton in H. injection H as -> ->.
      split; [reflexivity|]. now exists None.
Qed.

(** X13. [updateUser] cannot clear a column. Whatever it is called
    with, an [update] it issues is for the id it was called with and
    names all four columns, and in each of them a stored value that is
    not empty is replaced, if at all, by one that is not empty: the name
    and the email are never written empty, and a password or an avatar
    url that is set stays set. *)
Theorem updateUser_clears_nothing (id : string)
    (name password email : option string) (avatar : option File)
    (row : User) (s : Services) (i : string) (data : UserUpdateInput) :
  prisma_user_findUnique (WhereId id) (db s) = inr (Some row) ->
  Update i data ∈ made s (snd (updateUser id name password email avatar s)) ->
  i = id
  /\ exists (a p : option string) (n e : string),
       data = {| data_avatarUrl := Some a; data_name := Some n;
                 data_password := Some p; data_email := Some e |}
       /\ (truthy (avatarUrl row) = true -> truthy a = true)
       /\ (truthy_string (Resolver.name row) = true -> truthy_string n = true)
       /\ (truthy (Resolver.password row) = true -> truthy p = true)
       /\ (truthy_string (Resolver.email row) = true ->
           truthy_string e = true).
Proof.
  intros Hf Hin.
  destruct (updateUser_writes id name password email avatar row s i data
              Hf Hin) as (-> & url & ->).
  split; [reflexivity|]. do 4 eexists. split; [reflexivity|].
  split; [|split; [|split]].
  - destruct (truthy url) eqn:E; auto.
  - destruct name as [n|]; [|auto]. destruct (truthy_string n) eqn:E; auto.
  - destruct (truthy password) eqn:E; auto.
  - destruct email as [e|]; [|auto]. destruct (truthy_string e) eqn:E; auto.
Qed.

(** ** Mutations in two steps *)

Lemma delete_result (uid : string) (s : Services) :
  delete uid s =
    match prisma_user_delete uid (db s) with
    | inr (row, d) =>
        (inr row, set_db d (set_calls (calls s ++ [Delete uid]) s))
    | inl e => (inl e, set_calls (calls s ++ [Delete uid]) s)
    end.
Proof. reflexivity. Qed.

Lemma deleteMany_result (uid : string) (s : Services) :
  deleteMany uid s =
    match prisma_session_deleteMany uid (db s) with
    | inr (count, d) =>
        (inr count, set_db d (set_calls (calls s ++ [DeleteMany uid]) s))
    | inl e => (inl e, set_calls (calls s ++ [DeleteMany uid]) s)
    end.
Proof. reflexivity. Qed.

Lemma uploadFile_result (key : string) (file : File) (s : Services) :
  uploadFile key file s =
    match storage_uploadFile key file (storage s) with
    | inr (url, st) =>
        (inr url,
         set_storage st (set_calls (calls s ++ [UploadFile key file]) s))
    | inl e => (inl e, set_calls (calls s ++ [UploadFile key file]) s)
    end.
Proof. reflexivity. Qed.

Lemma update_result (uid : string) (data : UserUpdateInput) (s : Services) :
  update uid data s =
    match prisma_user_update uid data (db s) with
    | inr (row, d) =>
        (inr row, set_db d (set_calls (calls s ++ [Update uid data]) s))
    | inl e => (inl e, set_calls (calls s ++ [Update uid data]) s)
    end.
Proof. reflexivity. Qed.

(** X14. [deleteAccount] deletes the user first and the sessions of
    the user after, in two separate operations. When the first fails the
    second is not attempted; when the second fails the mutation fails
    with the user already deleted; when both succeed the answer is
    [success: true] whatever number of sessions was deleted. *)
Theorem deleteAccount_in_two_steps (user : UserType) (s : Services) :
  let uid := type_id user in
  let after := set_calls (calls s ++ [Delete uid; DeleteMany uid]) s in
  (forall e : Exception,
     prisma_user_delete uid (db s) = inl e ->
     deleteAccount user s = (inl e, set_calls (calls s ++ [Delete uid]) s))
  /\ (forall (row : User) (d : DB),
        prisma_user_delete uid (db s) = inr (row, d) ->
        (forall e : Exception,
           prisma_session_deleteMany uid d = inl e ->
           deleteAccount user s = (inl e, set_db d after))
        /\ (forall (count : nat) (d' : DB),
              prisma_session_deleteMany uid d = inr (count, d') ->
              deleteAccount user s =
                (inr {| success := true |}, set_db d' after))).
Proof.
  cbv zeta. unfold deleteAccount, bind. rewrite delete_result. split.
  - intros e He. rewrite He. reflexivity.
  - intros row d Hd. rewrite Hd, deleteMany_result.
    cbn [db calls set_db set_calls]. split.
    + intros e He. rewrite He. unfold set_db, set_calls. cbn.
      rewrite <- app_assoc. reflexivity.
    + intros count d' He. rewrite He. unfold set_db, set_calls, ret. cbn.
      rewrite <- app_assoc. reflexivity.
Qed.

(** X15. [uploadAvatar] for a user that is there uploads the file
    under the key [id ++ "-avatar"] and then writes the url it got as
    the avatar url, and no other column. When the upload fails nothing
    is written; when the write fails the file stays uploaded. *)
Theorem uploadAvatar_in_two_steps (id : string) (avatar : File) (row : User)
    (s : Services) :
  prisma_user_findUnique (WhereId id) (db s) = inr (Some row) ->
  let key := (id ++ "-avatar")%string in
  let lookup := FindUnique (WhereId id) in
  (forall e : Exception,
     storage_uploadFile key avatar (storage s) = inl e ->
     uploadAvatar id avatar s =
       (inl e, set_calls (calls s ++ [lookup; UploadFile key avatar]) s))
  /\ (forall (url : string) (st : Storage),
        storage_uploadFile key avatar (storage s) = inr (url, st) ->
        let data :=
          {| data_avatarUrl := Some (Some url); data_name := None;
             data_password := None; data_email := None |} in
        let after :=
          set_storage st
            (set_calls
               (calls s ++ [lookup; UploadFile key avatar; Update id data])
               s) in
        (forall e : Exception,
           prisma_user_update id data (db s) = inl e ->
           uploadAvatar id avatar s = (inl e, after))
        /\ (forall (row' : User) (d : DB),
              prisma_user_update id data (db s) = inr (row', d) ->
              uploadAvatar id avatar s = (inr row', set_db d after))).
Proof.
  intros Hf. cbv zeta. unfold uploadAvatar, bind.
  rewrite findUnique_result, Hf, uploadFile_result.
  cbn [db storage calls set_calls]. split.
  - intros e He. rewrite He. unfold set_calls. cbn.
    rewrite <- app_assoc. reflexivity.
  - intros url st Hu. rewrite Hu, update_result.
    cbn [db storage calls set_calls set_storage]. split.
    + intros e He. rewrite He. unfold set_storage, set_calls. cbn.
      rewrite <- !app_assoc. reflexivity.
    + intros row' d He. rewrite He. unfold set_db, set_storage, set_calls.
      cbn. rewrite <- !app_assoc. reflexivity.
Qed.

(** ** Queries *)

(** X16. [currentUser] answers with the columns of the row it is
    given, the password left out: in its place, [hasPassword] says
    whether the password is set to a string that is not empty. No
    service is called. *)
Theorem currentUser_hasPassword (row : User) (s : Services) :
  exists answer : UserType,
    currentUser row s = (inr answer, s)
    /\ (hasPassword answer = true <->
        exists pw : string, Resolver.password row = Some pw /\ pw <> "")
    /\ type_id answer = Resolver.id row
    /\ type_name answer = Resolver.name row
    /\ type_email answer = Resolver.email row
    /\ type_avatarUrl answer = avatarUrl row.
Proof.
  eexists. split; [reflexivity|]. split; [|repeat split].
  cbn [hasPassword]. split.
  - destruct (Resolver.password row) as [pw|]; [|discriminate].
    cbn. intros H. exists pw. split; [reflexivity|].
    intros ->. discriminate H.
  - intros (pw & -> & Hne). cbn. unfold truthy_string.
    destruct (String.eqb_spec pw ""); [contradiction|reflexivity].
Qed.

(** X17. [user] never throws: a lookup that fails is answered like a
    lookup that finds nobody, with [null]. *)
Theorem user_never_rejects (email : string) (s : Services) :
  user email s =
    (inr match prisma_user_findUnique (WhereEmail email) (db s) with
         | inr found => found
         | inl _ => None
         end,
     set_calls (calls s ++ [FindUnique (WhereEmail email)]) s).
Proof.
  unfold user, catch. rewrite findUnique_result.
  now destruct (prisma_user_findUnique _ _).
Qed.

End Resolver.

(** ** The services in memory *)

Module Memory.

(** Users and sessions as rows; the dates are day numbers. *)
Definition Row := @User nat.

Definition Session := (string * string)%type.

Definition Tables := (list Row * list Session)%type.

Definition Bucket := list (string * bytes).

Definition selects (selection : UserWhere) (row : Row) : bool :=
  match selection with
  | WhereId i => id row =? i
  | WhereEmail e => email row =? e
  end.

Definition findUnique (selection : UserWhere) (d : Tables)
    : Exception + option Row :=
  inr (List.find (selects selection) (fst d)).

Definition write (data : UserUpdateInput) (row : Row) : Row :=
  {| id := id row;
     name := default (name row) (data_name data);
     email := default (email row) (data_email data);
     emailVerified := emailVerified row;
     avatarUrl := default (avatarUrl row) (data_avatarUrl data);
     createdAt := createdAt row;
     password := default (password row) (data_password data) |}.

Definition update (uid : string) (data : UserUpdateInput) (d : Tables)
    : Exception + (Row * Tables) :=
  match List.find (selects (WhereId uid)) (fst d) with
  | Some row =>
      inr (write data row,
           (map (fun x => if id x =? uid then write data x else x) (fst d),
            snd d))
  | None => inl (Thrown "RecordNotFound")
  end.

Definition delete (uid : string) (d : Tables) : Exception + (Row * Tables) :=
  match List.find (selects (WhereId uid)) (fst d) with
  | Some row =>
      inr (row, (List.filter (fun x => negb (id x =? uid)) (fst d), snd d))
  | None => inl (Thrown "RecordNotFound")
  end.

Definition deleteMany (userId : string) (d : Tables)
    : Exception + (nat * Tables) :=
  inr (length (List.filter (fun x => snd x =? userId) (snd d)),
       (fst d, List.filter (fun x => negb (snd x =? userId)) (snd d))).

Definition uploadFile (key : string) (file : bytes) (b : Bucket)
    : Exception + (string * Bucket) :=
  inr (("https://storage/" ++ key)%string, b ++ [(key, file)]).

(** Services that are down. *)
Definition timeout {A} (d : Tables) : Exception + A :=
  inl (Thrown "Timeout").

Definition full (key : string) (file : bytes) (b : Bucket)
    : Exception + (string * Bucket) :=
  inl (Thrown "QuotaExceeded").

Definition alice : Row :=
  {| id := "u1"; name := "Alice"; email := "alice@example.org";
     emailVerified := 0; avatarUrl := None; createdAt := 120;
     password := Some "hash" |}.

Definition alice_type : @UserType nat :=
  {| type_id := "u1"; type_name := "Alice";
     type_email := "alice@example.org"; type_emailVerified := 0;
     type_avatarUrl := None; type_createdAt := 120;
     hasPassword := true |}.

Definition portrait : bytes := list_byte_of_string "png".

Definition start : @Services bytes Tables Bucket :=
  {| db := ([alice], [("token-1", "u1"); ("token-2", "u2")]);
     storage := [];
     calls := [] |}.

(** Nobody has the id u2. *)
Lemma unknown_user_is_bad_request_witness :
  findUnique (WhereId "u2") (db start) = inr None
  /\ updateUser findUnique update uploadFile "u2" (Some "Bob") None None
       (Some portrait) start =
       (inl (BadRequestException "User u2 not found"),
        set_calls [FindUnique (WhereId "u2")] start)
  /\ uploadAvatar findUnique update uploadFile "u2" portrait start =
       (inl (BadRequestException "User u2 not found"),
        set_calls [FindUnique (WhereId "u2")] start).
Proof.
  split; [reflexivity|].
  exact (unknown_user_is_bad_request findUnique update uploadFile "u2"
           (Some "Bob") None None (Some portrait) portrait start eq_refl).
Defined.

(** Empty strings for the name and the email, nothing else. *)
Lemma updateUser_nothing_given_witness :
  findUnique (WhereId "u1") (db start) = inr (Some alice)
  /\ truthy (Some "") = false
  /\ truthy None = false
  /\ updateUser findUnique update uploadFile "u1" (Some "") None (Some "")
       None start =
       (inr alice, set_calls [FindUnique (WhereId "u1")] start).
Proof.
  split; [reflexivity|]. split; [reflexivity|]. split; [reflexivity|].
  exact (updateUser_nothing_given findUnique update uploadFile "u1"
           (Some "") None (Some "") alice start
           eq_refl eq_refl eq_refl eq_refl).
Defined.

(** A new password and an empty name. *)
Definition rehash : UserUpdateInput :=
  {| data_avatarUrl := Some None; data_name := Some "Alice";
     data_password := Some (Some "hash-2");
     data_email := Some "alice@example.org" |}.

Lemma updateUser_clears_nothing_witness :
  let answer :=
    updateUser findUnique update uploadFile "u1" (Some "") (Some "hash-2")
      None None start in
  findUnique (WhereId "u1") (db start) = inr (Some alice)
  /\ Update "u1" rehash ∈ made start (snd answer)
  /\ exists (a p : option string) (n e : string),
       rehash = {| data_avatarUrl := Some a; data_name := Some n;
                   data_password := Some p; data_email := Some e |}
       /\ (truthy_string (name alice) = true -> truthy_string n = true)
       /\ (truthy (password alice) = true -> truthy p = true).
Proof.
  assert (Hin : Update "u1" rehash ∈
                made start
                  (snd (updateUser findUnique update uploadFile "u1"
                          (Some "") (Some "hash-2") None None start))).
  { apply list_elem_of_further, list_elem_of_here. }
  split; [reflexivity|]. split; [exact Hin|].
  destruct (updateUser_clears_nothing findUnique update uploadFile "u1"
              (Some "") (Some "hash-2") None None alice start "u1" rehash
              eq_refl Hin) as (_ & a & p & n & e & Hd & _ & Hn & Hp & _).
  exists a, p, n, e. split; [exact Hd|]. split; [exact Hn|exact Hp].
Defined.

(** The account of Alice, deleted; and deleted while the sessions
    cannot be reached. *)
Lemma deleteAccount_in_two_steps_witness :
  delete "u1" (db start) =
    inr (alice, ([], [("token-1", "u1"); ("token-2", "u2")]))
  /\ deleteAccount delete deleteMany alice_type start =
       (inr {| success := true |},
        {| db := ([], [("token-2", "u2")]); storage := [];
           calls := [Delete "u1"; DeleteMany "u1"] |})
  /\ deleteAccount delete (fun _ => timeout) alice_type start =
       (inl (Thrown "Timeout"),
        {| db := ([], [("token-1", "u1"); ("token-2", "u2")]); storage := [];
           calls := [Delete "u1"; DeleteMany "u1"] |}).
Proof.
  split; [reflexivity|]. split.
  - destruct (deleteAccount_in_two_steps delete deleteMany alice_type start)
      as [_ H].
    destruct (H alice ([], [("token-1", "u1"); ("token-2", "u2")]) eq_refl)
      as [_ H2].
    exact (H2 1 ([], [("token-2", "u2")]) eq_refl).
  - destruct (deleteAccount_in_two_steps delete (fun _ => timeout)
                alice_type start) as [_ H].
    destruct (H alice ([], [("token-1", "u1"); ("token-2", "u2")]) eq_refl)
      as [H1 _].
    exact (H1 (Thrown "Timeout") eq_refl).
Defined.

(** A portrait for Alice, with the storage up and with it full. *)
Lemma uploadAvatar_in_two_steps_witness :
  let url := "https://storage/u1-avatar"%string in
  let data :=
    {| data_avatarUrl := Some (Some url); data_name := None;
       data_password := None; data_email := None |} in
  findUnique (WhereId "u1") (db start) = inr (Some alice)
  /\ fst (uploadAvatar findUnique update uploadFile "u1" portrait start) =
       inr (write data alice)
  /\ uploadAvatar findUnique update full "u1" portrait start =
       (inl (Thrown "QuotaExceeded"),
        set_calls
          [FindUnique (WhereId "u1"); UploadFile "u1-avatar" portrait] start).
Proof.
  split; [reflexivity|]. split.
  - destruct (uploadAvatar_in_two_steps findUnique update uploadFile "u1"
                portrait alice start eq_refl) as [_ H].
    destruct (H "https://storage/u1-avatar"%string
                [("u1-avatar"%string, portrait)] eq_refl) as [_ H2].
    rewrite (H2 _ _ eq_refl). reflexivity.
  - destruct (uploadAvatar_in_two_steps findUnique update full "u1"
                portrait alice start eq_refl) as [H _].
    exact (H (Thrown "QuotaExceeded") eq_refl).
Defined.

End Memory.

End UserResolver.

(** * The build script of the desktop application

    [generate-assets.mjs] amends the [sourceMappingURL] comments of the
    exported web files with [content.replace] and a global regular
    expression: the marker [# sourceMappingURL=], a greedy group of any
    characters, and [.map]. The regular expression is embedded as the
    matcher it denotes. *)

Module GenerateAssets.

Local Open Scope N_scope.

(** A JavaScript string: its UTF-16 code units. *)
Definition text := list N.

Definition units (s : string) : text :=
  map N_of_ascii (list_ascii_of_string s).

(** LineTerminator, the characters [.] does not match: line feed,
    carriage return, line separator and paragraph separator. *)
Definition line_terminator (c : N) : bool :=
  (c =? 10) || (c =? 13) || (c =? 8232) || (c =? 8233).

(** The two literal parts of the regular expression. *)
Definition marker : text := units "# sourceMappingURL=".

Definition extension : text := units ".map".

(** [l] starts with [p]: what follows it. *)
Fixpoint after (p l : text) : option text :=
  match p, l with
  | [], _ => Some l
  | a :: p', b :: l' => if a =? b then after p' l' else None
  | _ :: _, [] => None
  end.

(** The group and [.map] at the start of [l]: the capture and what
    follows the match. The group is greedy and stays on the line: of
    the places on the line where [.map] follows, it stops at the
    last. *)
Fixpoint capture (l : text) : option (text * text) :=
  match l with
  | [] => None
  | c :: rest =>
      if line_terminator c then None
      else
        match capture rest with
        | Some (p1, tail) => Some (c :: p1, tail)
        | None =>
            match after extension l with
            | Some tail => Some ([], tail)
            | None => None
            end
        end
  end.

(** The whole expression at the start of [l]. *)
Definition exec (l : text) : option (text * text) :=
  match after marker l with
  | Some rest => capture rest
  | None => None
  end.

(** The replacer function. *)
Definition replacer (dir p1 : text) : text :=
  units "# sourceMappingURL=assets://./" ++ dir ++ units "/" ++ p1
  ++ units ".map".

(** [replace] with the [g] flag: every match from left to right, the
    search resuming behind each match. The fuel bounds the number of
    steps; the length of the text is enough. *)
Fixpoint replace_all (fuel : nat) (dir content : text) : text :=
  match fuel with
  | O => content
  | S fuel' =>
      match content with
      | [] => []
      | c :: rest =>
          match exec content with
          | Some (p1, tail) => replacer dir p1 ++ replace_all fuel' dir tail
          | None => c :: replace_all fuel' dir rest
          end
      end
  end.

Definition replace (dir content : text) : text :=
  replace_all (length content) dir content.

(** ** What the properties are stated with *)

Definition occurs (p l : text) : Prop := exists a b, l = a ++ p ++ b.

(** The characters of [l] before its first line terminator. *)
Fixpoint line_of (l : text) : text :=
  match l with
  | [] => []
  | c :: rest => if line_terminator c then [] else c :: line_of rest
  end.

Definition on_one_line (l : text) : Prop :=
  Forall (fun c => line_terminator c = false) l.

(** What the replacer puts between the marker and the capture. *)
Definition scheme (dir : text) : text :=
  units "assets://./" ++ dir ++ units "/".

(** ** The matcher *)

Lemma after_spec (p l r : text) : after p l = Some r <-> l = p ++ r.
Proof.
  revert l. induction p as [|a p IH]; intros l; cbn [after app].
  - split; [now intros [= ->]|now intros ->].
  - destruct l as [|b l]; [split; discriminate|].
    destruct (N.eqb_spec a b) as [->|Hne].
    + rewrite IH. split; [now intros ->|now intros [= ->]].
    + split; [discriminate|]. intros [= E _]. now destruct Hne.
Qed.

Lemma after_app (p r : text) : after p (p ++ r) = Some r.
Proof. now apply after_spec. Qed.

Lemma extension_on_one_line : on_one_line extension.
Proof. repeat constructor. Qed.

Lemma marker_on_one_line : on_one_line marker.
Proof. repeat constructor. Qed.

Lemma capture_sound (l p1 tail : text) :
  capture l = Some (p1, tail) ->
  l = p1 ++ extension ++ tail /\ on_one_line p1.
Proof.
  revert p1 tail. induction l as [|c rest IH]; intros p1 tail;
    cbn [capture]; [discriminate|].
  destruct (line_terminator c) eqn:Hc; [discriminate|].
  destruct (capture rest) as [[q t]|].
  - intros [= <- <-]. destruct (IH q t eq_refl) as [-> Hq].
    split; [reflexivity|]. now constructor.
  - destruct (after extension (c :: rest)) as [t|] eqn:Ha; [|discriminate].
    intros [= <- <-]. apply after_spec in Ha.
    split; [exact Ha|constructor].
Qed.

Lemma exec_sound (l p1 tail : text) :
  exec l = Some (p1, tail) ->
  l = marker ++ p1 ++ extension ++ tail /\ on_one_line p1.
Proof.
  unfold exec. destruct (after marker l) as [rest|] eqn:Ha; [|discriminate].
  apply after_spec in Ha. intros Hc.
  destruct (capture_sound _ _ _ Hc) as [-> Hp]. now split.
Qed.

Lemma line_of_app (x y : text) :
  on_one_line x -> line_of (x ++ y) = x ++ line_of y.
Proof.
  induction 1 as [|c x Hc _ IH]; cbn [line_of app]; [reflexivity|].
  now rewrite Hc, IH.
Qed.

(** No [.map] on the line: no match. *)
Lemma capture_none (l : text) :
  ~ occurs extension (line_of l) -> capture l = None.
Proof.
  intros Hn. destruct (capture l) as [[p1 tail]|] eqn:Hc; [|reflexivity].
  destruct Hn. destruct (capture_sound _ _ _ Hc) as [-> Hp].
  rewrite (line_of_app _ _ Hp), (line_of_app _ _ extension_on_one_line).
  now exists p1, (line_of tail).
Qed.

Lemma capture_app (name l p1 tail : text) :
  on_one_line name ->
  capture l = Some (p1, tail) ->
  capture (name ++ l) = Some (name ++ p1, tail).
Proof.
  intros Hn Hc. induction Hn as [|c name Hc' _ IH]; [exact Hc|].
  cbn [app capture]. now rewrite Hc', IH.
Qed.

Lemma capture_extension (post : text) :
  capture post = None -> capture (extension ++ post) = Some ([], post).
Proof.
  intros H. cbn. now rewrite H.
Qed.

(** The expression matches where the marker stands, and captures up
    to the last [.map] of the line. *)
Lemma exec_here (name post : text) :
  on_one_line name ->
  ~ occurs extension (line_of post) ->
  exec (marker ++ name ++ extension ++ post) = Some (name, post).
Proof.
  intros Hn Hp. unfold exec. rewrite after_app.
  rewrite (capture_app name _ [] post Hn
             (capture_extension post (capture_none post Hp))).
  now rewrite app_nil_r.
Qed.

(** The marker does not overlap itself. *)
Lemma marker_apart (b r x : text) :
  b <> [] ->
  (length b < length marker)%nat ->
  b ++ marker ++ x <> marker ++ r.
Proof.
  intros Hb Hlen E.
  assert (H1 : (b ++ marker ++ x) !! length b = Some 35).
  { rewrite lookup_app_r by lia. now rewrite Nat.sub_diag. }
  rewrite E, lookup_app_l in H1 by exact Hlen.
  destruct b as [|c b]; [now destruct Hb|]. cbn [length] in *.
  unfold marker in H1, Hlen. cbn in H1, Hlen.
  do 18 (destruct b as [|? b]; [cbn in H1; discriminate H1|]).
  cbn in Hlen. lia.
Qed.

Lemma exec_before (pre a b x : text) :
  ~ occurs marker pre ->
  pre = a ++ b ->
  b <> [] ->
  exec (b ++ marker ++ x) = None.
Proof.
  intros Hn -> Hb. unfold exec.
  destruct (after marker (b ++ marker ++ x)) as [r|] eqn:Ha; [|reflexivity].
  exfalso. apply after_spec in Ha.
  destruct (Nat.lt_ge_cases (length b) (length marker)) as [Hlt|Hge].
  - exact (marker_apart b r x Hb Hlt Ha).
  - apply Hn. exists a, (drop (length marker) b).
    f_equal. rewrite <- (take_drop (length marker) b) at 1. f_equal.
    apply (f_equal (take (length marker))) in Ha.
    rewrite take_app_le in Ha by exact Hge.
    now rewrite take_app_length in Ha.
Qed.

(** ** The replacement *)

Lemma replace_all_enough (dir : text) (n m : nat) (content : text) :
  (length content <= n)%nat -> (length content <= m)%nat ->
  replace_all n dir content = replace_all m dir content.
Proof.
  revert m content. induction n as [|n IH]; intros m content Hn Hm.
  - destruct content; [|cbn in Hn; lia]. now destruct m.
  - destruct m as [|m]; [destruct content; [reflexivity|cbn in Hm; lia]|].
    cbn [replace_all]. destruct content as [|c rest]; [reflexivity|].
    destruct (exec (c :: rest)) as [[p1 tail]|] eqn:He.
    + f_equal. destruct (exec_sound _ _ _ He) as [E _].
      apply (f_equal length) in E. rewrite !length_app in E.
      cbn [length] in Hn, Hm, E.
      apply IH; unfold marker in E; cbn in E; lia.
    + f_equal. cbn [length] in Hn, Hm. apply IH; lia.
Qed.

Lemma replace_cons (dir : text) (c : N) (rest : text) :
  replace dir (c :: rest) =
    match exec (c :: rest) with
    | Some (p1, tail) => replacer dir p1 ++ replace dir tail
    | None => c :: replace dir rest
    end.
Proof.
  unfold replace. cbn [length replace_all].
  destruct (exec (c :: rest)) as [[p1 tail]|] eqn:He.
  - f_equal. destruct (exec_sound _ _ _ He) as [E _].
    apply (f_equal length) in E. rewrite !length_app in E.
    cbn [length] in E.
    apply replace_all_enough; unfold marker in E; cbn in E; lia.
  - reflexivity.
Qed.

Lemma replace_nil (dir : text) : replace dir [] = [].
Proof. reflexivity. Qed.

(** Where the expression matches nowhere in [pre], [pre] is copied. *)
Lemma replace_through (dir pre rest : text) :
  (forall a b, pre = a ++ b -> b <> [] -> exec (b ++ rest) = None) ->
  replace dir (pre ++ rest) = pre ++ replace dir rest.
Proof.
  induction pre as [|c pre IH]; intros H; [reflexivity|].
  cbn [app]. rewrite replace_cons.
  assert (E : exec (c :: pre ++ rest) = None)
    by (apply (H [] (c :: pre) eq_refl); discriminate).
  rewrite E. f_equal. apply IH. intros a b -> Hb. apply (H (c :: a) b eq_refl Hb).
Qed.

Lemma replace_untouched (dir content : text) :
  (forall a b, content = a ++ b -> exec b = None) ->
  replace dir content = content.
Proof.
  intros H. rewrite <- (app_nil_r content) at 1.
  rewrite replace_through; [now rewrite replace_nil, app_nil_r|].
  intros a b -> _. rewrite app_nil_r. now apply (H a b).
Qed.

(** X19. A text in which the marker [# sourceMappingURL=] does not
    occur, or in which [.map] does not occur, is left as it is. *)
Theorem replace_without_url (dir content : text) :
  ~ occurs marker content \/ ~ occurs extension content ->
  replace dir content = content.
Proof.
  intros H. apply replace_untouched. intros a b -> .
  destruct (exec b) as [[p1 tail]|] eqn:He; [|reflexivity].
  exfalso. destruct (exec_sound _ _ _ He) as [-> _].
  destruct H as [H|H]; apply H.
  - now exists a, (p1 ++ extension ++ tail).
  - exists (a ++ marker ++ p1), tail. now rewrite <- !app_assoc.
Qed.

Lemma replace_first (dir pre name post : text) :
  ~ occurs marker pre ->
  on_one_line name ->
  ~ occurs extension (line_of post) ->
  replace dir (pre ++ marker ++ name ++ extension ++ post) =
    pre ++ marker ++ scheme dir ++ name ++ extension ++ replace dir post.
Proof.
  intros Hpre Hname Hpost.
  rewrite replace_through
    by (intros a b E Hb; exact (exec_before pre a b _ Hpre E Hb)).
  f_equal.
  change (marker ++ name ++ extension ++ post)
    with (35 :: tl marker ++ name ++ extension ++ post).
  rewrite replace_cons.
  change (35 :: tl marker ++ name ++ extension ++ post)
    with (marker ++ name ++ extension ++ post).
  rewrite (exec_here name post Hname Hpost).
  unfold replacer, scheme. rewrite <- !app_assoc. reflexivity.
Qed.

(** X20. The first [# sourceMappingURL=] of a text, when [.map]
    follows on its line, gets [assets://./dir/] put in front of what
    stands between the marker and the last [.map] of the line, whatever
    that is; the text before it is copied, and the amendment goes on
    behind that [.map]. *)
Theorem replace_amends_url (dir pre name post : text) :
  ~ occurs marker pre ->
  on_one_line name ->
  ~ occurs extension (line_of post) ->
  replace dir (pre ++ marker ++ name ++ extension ++ post) =
    pre ++ marker ++ units "assets://./" ++ dir ++ units "/" ++ name
    ++ extension ++ replace dir post.
Proof.
  intros Hpre Hname Hpost.
  rewrite (replace_first dir pre name post Hpre Hname Hpost).
  unfold scheme. now rewrite <- !app_assoc.
Qed.

Lemma scheme_on_one_line (dir : text) :
  on_one_line dir -> on_one_line (scheme dir).
Proof.
  intros H. unfold scheme. apply Forall_app. split; [repeat constructor|].
  apply Forall_app. split; [exact H|repeat constructor].
Qed.

(** X21. The amendment is not idempotent: applied again to its own
    result, it puts [assets://./dir/] in front of the url once more. *)
Theorem replace_twice (dir pre name post : text) :
  ~ occurs marker pre ->
  on_one_line dir ->
  on_one_line name ->
  ~ occurs extension (line_of post) ->
  replace dir post = post ->
  let once := replace dir (pre ++ marker ++ name ++ extension ++ post) in
  once = pre ++ marker ++ scheme dir ++ name ++ extension ++ post
  /\ replace dir once =
       pre ++ marker ++ scheme dir ++ scheme dir ++ name ++ extension ++ post
  /\ replace dir once <> once.
Proof.
  intros Hpre Hdir Hname Hpost Hfix. cbv zeta.
  rewrite (replace_first dir pre name post Hpre Hname Hpost), Hfix.
  assert (H2 : replace dir
                 (pre ++ marker ++ scheme dir ++ name ++ extension ++ post) =
               pre ++ marker ++ scheme dir ++ scheme dir ++ name
               ++ extension ++ post).
  { rewrite (app_assoc (scheme dir) name).
    rewrite (replace_first dir pre (scheme dir ++ name) post Hpre);
      [|apply Forall_app; split;
         [apply scheme_on_one_line; exact Hdir|exact Hname]
       |exact Hpost].
    rewrite Hfix, <- !app_assoc. reflexivity. }
  split; [reflexivity|]. split; [exact H2|].
  rewrite H2. intros E. apply (f_equal length) in E.
  rewrite !length_app in E. unfold scheme in E.
  rewrite !length_app in E. cbn in E. lia.
Qed.

(** ** On a chunk of the export *)

(** Whether [p] occurs in [l], computed. *)
Fixpoint occursb (p l : text) : bool :=
  match after p l with
  | Some _ => true
  | None =>
      match l with
      | [] => false
      | _ :: rest => occursb p rest
      end
  end.

Lemma occursb_false (p l : text) : occursb p l = false -> ~ occurs p l.
Proof.
  induction l as [|c l IH]; cbn [occursb]; intros H (a & b & E).
  - destruct (after p []) eqn:Ha; [discriminate|].
    destruct a; [|discriminate E]. cbn [app] in E.
    symmetry in E. rewrite (proj2 (after_spec p [] b)) in Ha by now symmetry.
    discriminate.
  - destruct (after p (c :: l)) eqn:Ha; [discriminate|].
    destruct a as [|c' a].
    + cbn [app] in E. rewrite (proj2 (after_spec p (c :: l) b) E) in Ha.
      discriminate.
    + injection E as _ E. apply (IH H). now exists a, b.
Qed.

Definition chunks : text := units "static/chunks".

Definition chunk : text :=
  units "(()=>{})();//# sourceMappingURL=76-6370cd185962bc89.js.map".

Definition code : text := units "(()=>{})();//".

Definition map_name : text := units "76-6370cd185962bc89.js".

Lemma replace_without_url_witness :
  (~ occurs marker code \/ ~ occurs extension code)
  /\ replace chunks code = code.
Proof.
  assert (H : ~ occurs marker code \/ ~ occurs extension code)
    by (left; apply occursb_false; reflexivity).
  split; [exact H|]. exact (replace_without_url chunks code H).
Defined.

Lemma replace_amends_url_witness :
  ~ occurs marker code
  /\ on_one_line map_name
  /\ ~ occurs extension (line_of [])
  /\ replace chunks chunk =
       units "(()=>{})();//# sourceMappingURL=assets://./static/chunks/76-6370cd185962bc89.js.map".
Proof.
  assert (H1 : ~ occurs marker code) by (apply occursb_false; reflexivity).
  assert (H2 : on_one_line map_name) by (repeat constructor).
  assert (H3 : ~ occurs extension (line_of []))
    by (apply occursb_false; reflexivity).
  split; [exact H1|]. split; [exact H2|]. split; [exact H3|].
  exact (replace_amends_url chunks code map_name [] H1 H2 H3).
Defined.

Lemma replace_twice_witness :
  ~ occurs marker code
  /\ on_one_line chunks
  /\ on_one_line map_name
  /\ ~ occurs extension (line_of [])
  /\ replace chunks [] = []
  /\ replace chunks (replace chunks chunk) =
       units "(()=>{})();//# sourceMappingURL=assets://./static/chunks/assets://./static/chunks/76-6370cd185962bc89.js.map".
Proof.
  assert (H1 : ~ occurs marker code) by (apply occursb_false; reflexivity).
  assert (H2 : on_one_line chunks) by (repeat constructor).
  assert (H3 : on_one_line map_name) by (repeat constructor).
  assert (H4 : ~ occurs extension (line_of []))
    by (apply occursb_false; reflexivity).
  split; [exact H1|]. split; [exact H2|]. split; [exact H3|].
  split; [exact H4|]. split; [reflexivity|].
  destruct (replace_twice chunks code map_name [] H1 H2 H3 H4 eq_refl)
    as (_ & H & _).
  exact H.
Defined.

End GenerateAssets.
